(** * indra_db: curation client, knowledge-base managers, preassembly
      submitter, statement distillation and dump listing

    A shallow embedding of the Python sources

      - [indra_db/client/principal/curation.py]
      - [indra_db/preassembly/preassembly_submitter.py]
      - [indra_db/managers/knowledgebase_manager.py]
      - [indra_db/util/distill_statements.py]
      - [indra_db/tests/test_dump_manager.py] (the contract of [list_dumps])

    Python [str] values are embedded as [string] (characters are code points
    below 256), [int] values as [Z], [dict]s as [gmap]s or insertion-ordered
    association lists, [set]s as [gset]s, and exceptions as an explicit
    result type. *)

From Stdlib Require Import ZArith Ascii String.
From stdpp Require Import gmap strings list sorting.

(** ** Exceptions and results *)

Inductive exn : Type :=
| IntegrityError (msg : string)   (* sqlalchemy.exc.IntegrityError, args[0] *)
| BadHashError (h : string)       (* indra_db.exceptions.BadHashError *)
| AssertionError
| IndexError
| KeyError
| ValueError
| AttributeError
| Exception (msg : string).

Inductive result (A : Type) : Type :=
| Ok (a : A)
| Raise (e : exn).
Arguments Ok {A} a.
Arguments Raise {A} e.

#[global] Instance result_ret : MRet result := fun _ a => Ok a.
#[global] Instance result_bind : MBind result := fun _ _ f r =>
  match r with
  | Ok a => f a
  | Raise e => Raise e
  end.

Definition is_raise {A : Type} (r : result A) : Prop :=
  match r with Ok _ => False | Raise _ => True end.

(** ** Python string primitives *)

Module PyStr.
Local Open Scope Z_scope.

Fixpoint all_chars (f : ascii -> bool) (s : string) : bool :=
  match s with
  | EmptyString => true
  | String c s' => f c && all_chars f s'
  end.

Fixpoint drop_prefix (l s : string) : option string :=
  match l with
  | EmptyString => Some s
  | String a l' =>
      match s with
      | String c s' => if Ascii.eqb a c then drop_prefix l' s' else None
      | EmptyString => None
      end
  end.

Fixpoint take (n : nat) (s : string) : string :=
  match n, s with
  | S n', String c s' => String c (take n' s')
  | _, _ => EmptyString
  end.

(** The text of [s0] consumed before the suffix [s] is reached. *)
Definition consumed (s0 s : string) : string :=
  take (String.length s0 - String.length s) s0.

(** [str.splitlines()] without [keepends]: the line boundaries among the
    code points below 256 are LF, CR, CR LF, VT, FF, FS, GS, RS and NEL. *)
Definition is_linebreak (c : ascii) : bool :=
  match c with
  | "010" | "011" | "012" | "013" | "028" | "029" | "030" | "133" => true
  | _ => false
  end%char.

Fixpoint splitlines_go (cur : string) (s : string) : list string :=
  match s with
  | EmptyString =>
      match cur with EmptyString => [] | _ => [cur] end
  | String c s' =>
      if is_linebreak c then
        cur :: match c, s' with
               | "013"%char, String "010"%char s'' => splitlines_go "" s''
               | _, _ => splitlines_go "" s'
               end
      else splitlines_go (cur +:+ String c "") s'
  end.

Definition splitlines (s : string) : list string := splitlines_go "" s.

(** [str.strip()]: white space among the code points below 256. *)
Definition is_whitespace (c : ascii) : bool :=
  match c with
  | "009" | "010" | "011" | "012" | "013" | "028" | "029" | "030" | "031"
  | " " | "133" | "160" => true
  | _ => false
  end%char.

Fixpoint lstrip (s : string) : string :=
  match s with
  | String c s' => if is_whitespace c then lstrip s' else s
  | EmptyString => EmptyString
  end.

Fixpoint rstrip (s : string) : string :=
  match s with
  | EmptyString => EmptyString
  | String c s' =>
      match rstrip s' with
      | EmptyString => if is_whitespace c then EmptyString else String c ""
      | r => String c r
      end
  end.

Definition strip (s : string) : string := rstrip (lstrip s).

(** [s.split(sep)] for a one-character separator: never empty. *)
Fixpoint split (sep : ascii) (s : string) : list string :=
  match s with
  | EmptyString => [EmptyString]
  | String c s' =>
      if Ascii.eqb c sep then EmptyString :: split sep s'
      else match split sep s' with
           | w :: ws => String c w :: ws
           | [] => [String c ""]
           end
  end.

(** [s.split(sep, maxsplit=1)]: one or two parts. *)
Fixpoint split1 (sep : ascii) (s : string) : list string :=
  match s with
  | EmptyString => [EmptyString]
  | String c s' =>
      if Ascii.eqb c sep then [EmptyString; s']
      else match split1 sep s' with
           | w :: ws => String c w :: ws
           | [] => [String c ""]
           end
  end.

Definition is_digit (c : ascii) : bool :=
  match c with
  | "0" | "1" | "2" | "3" | "4" | "5" | "6" | "7" | "8" | "9" => true
  | _ => false
  end%char.

Definition digit_val (c : ascii) : Z := Z.of_N (N_of_ascii c) - 48.

(** [int(s)] on a string of decimal digits. *)
Fixpoint int_go (acc : Z) (s : string) : Z :=
  match s with
  | EmptyString => acc
  | String c s' => int_go (10 * acc + digit_val c) s'
  end.

Definition int (s : string) : Z := int_go 0 s.

(** [str(n)] on an [int]. *)
Definition digit_char (d : Z) : ascii := ascii_of_N (Z.to_N (48 + d)).

Fixpoint str_pos_go (fuel : nat) (n : Z) (acc : string) : string :=
  match fuel with
  | O => acc
  | S fuel' =>
      let acc' := String (digit_char (n mod 10)) acc in
      if n / 10 =? 0 then acc' else str_pos_go fuel' (n / 10) acc'
  end.

Definition str (n : Z) : string :=
  if n <? 0 then String "-" (str_pos_go (S (Z.to_nat (Z.log2 (- n)))) (- n) "")
  else str_pos_go (S (Z.to_nat (Z.log2 n))) n "".

End PyStr.

(** ** The fragment of [re] used by the sources

    A pattern is a sequence of atoms; [re.match] anchors it at the start of
    the subject and explores the alternatives in the priority order of a
    backtracking matcher (lazy repetition tries the shortest run first,
    greedy repetition the longest). *)

Module Re.

Inductive cls : Type :=
| Dot        (* .    : any character but a newline *)
| Digit      (* \d   *)
| NotSpace.  (* [^ ] *)

Definition cls_in (c : cls) (a : ascii) : bool :=
  match c with
  | Dot => negb (Ascii.eqb a "010")
  | Digit => PyStr.is_digit a
  | NotSpace => negb (Ascii.eqb a " ")
  end.

Inductive atom : Type :=
| Lit (l : string)   (* literal text *)
| Lazy (c : cls)     (* c*? *)
| Star (c : cls)     (* c*  *)
| Plus (c : cls)     (* c+  *)
| GOpen              (* (   *)
| GClose             (* )   *)
| Bos                (* ^   *)
| Eos.               (* $   *)

(** Capture state: the subject at the point where the open group started,
    and the groups closed so far, latest first. *)
Record mstate : Type := MState {
  m_open : option string;
  m_caps : list string
}.

Definition open_group (s : string) (st : mstate) : mstate :=
  MState (Some s) (m_caps st).

Definition close_group (s : string) (st : mstate) : mstate :=
  match m_open st with
  | Some s0 => MState None (PyStr.consumed s0 s :: m_caps st)
  | None => st
  end.

Section Repeat.
Context {R : Type} (k : string -> option R) (c : cls).

Fixpoint lazy_star (s : string) : option R :=
  match k s with
  | Some r => Some r
  | None =>
      match s with
      | String a s' => if cls_in c a then lazy_star s' else None
      | EmptyString => None
      end
  end.

Fixpoint greedy_star (s : string) : option R :=
  match s with
  | String a s' =>
      if cls_in c a then
        match greedy_star s' with
        | Some r => Some r
        | None => k s
        end
      else k s
  | EmptyString => k s
  end.

Definition greedy_plus (s : string) : option R :=
  match s with
  | String a s' => if cls_in c a then greedy_star s' else None
  | EmptyString => None
  end.
End Repeat.

Fixpoint run (input : string) (p : list atom) (st : mstate) (s : string)
  : option (list string) :=
  match p with
  | [] => Some (rev (m_caps st))
  | Lit l :: p' =>
      match PyStr.drop_prefix l s with
      | Some s' => run input p' st s'
      | None => None
      end
  | Lazy c :: p' => lazy_star (run input p' st) c s
  | Star c :: p' => greedy_star (run input p' st) c s
  | Plus c :: p' => greedy_plus (run input p' st) c s
  | GOpen :: p' => run input p' (open_group s st) s
  | GClose :: p' => run input p' (close_group s st) s
  | Bos :: p' =>
      if Nat.eqb (String.length s) (String.length input)
      then run input p' st s else None
  | Eos :: p' =>
      match s with
      | EmptyString | String "010"%char EmptyString => run input p' st s
      | _ => None
      end
  end.

(** [re.match(p, s)]; [Some gs] holds [m.groups()]. *)
Definition re_match (p : list atom) (s : string) : option (list string) :=
  run s p (MState None []) s.

(** What a successful match looks like, without regard to priority. *)
Fixpoint matches (input : string) (p : list atom) (st : mstate) (s : string)
    (r : list string) : Prop :=
  match p with
  | [] => r = rev (m_caps st)
  | Lit l :: p' => exists s', s = l +:+ s' /\ matches input p' st s' r
  | Lazy c :: p' | Star c :: p' =>
      exists u s', s = u +:+ s' /\ PyStr.all_chars (cls_in c) u = true /\
                   matches input p' st s' r
  | Plus c :: p' =>
      exists u s', s = u +:+ s' /\ u <> EmptyString /\
                   PyStr.all_chars (cls_in c) u = true /\
                   matches input p' st s' r
  | GOpen :: p' => matches input p' (open_group s st) s r
  | GClose :: p' => matches input p' (close_group s st) s r
  | Bos :: p' =>
      String.length s = String.length input /\ matches input p' st s r
  | Eos :: p' =>
      (s = EmptyString \/ s = String "010"%char EmptyString) /\
      matches input p' st s r
  end.

End Re.

(** ** [indra_db/client/principal/curation.py] *)

Module Curation.
Import Re.

(** A row of the [curation] table, with the fields of [inp]. *)
Record curation_row : Type := CurationRow {
  tag : string;
  text : option string;
  curator : string;
  ip : string;
  source : string;
  pa_hash : Z;
  source_hash : option Z
}.

(** The database manager as far as this module uses it: [db.insert] on the
    curation table, which returns the new id or raises, and the rows that
    [db.select_all] ranges over, in the order the database yields them. *)
Record database : Type := Database {
  db_insert : curation_row -> result Z;
  db_curations : list curation_row
}.

(** The pattern of [submit_curation]: the text DETAIL, colon, space; a
    lazy run; the text (pa_hash)=( ; group 1, a non-empty run of digits; a
    closing parenthesis; a lazy run; the text not present; a lazy run; the
    text pa; a lazy run. *)
Definition pa_hash_pattern : list atom :=
  [Lit "DETAIL: "; Lazy Dot; Lit "(pa_hash)=("; GOpen; Plus Digit; GClose;
   Lit ")"; Lazy Dot; Lit "not present"; Lazy Dot; Lit "pa"; Lazy Dot].

Definition submit_curation (hash_val : Z) (tag curator ip : string)
    (text : option string) (ev_hash : option Z) (source : string)
    (db : database) : result Z :=
  let inp := CurationRow tag text curator ip source hash_val ev_hash in
  match db_insert db inp with
  | Ok dbid => Ok dbid
  | Raise (IntegrityError msg) =>
      match PyStr.splitlines msg !! 1%nat with
      | None => Raise IndexError
      | Some detail_line =>
          match re_match pa_hash_pattern detail_line with
          | None => Raise (IntegrityError msg)
          | Some gs =>
              match gs !! 0%nat with
              | None => Raise IndexError
              | Some h =>
                  if decide (PyStr.int h = hash_val)
                  then Raise (BadHashError h)
                  else Raise AssertionError
              end
          end
      end
  | Raise e => Raise e
  end.

(** Keyword parameters of [get_curations]: a scalar is an equality
    constraint, a list, set or tuple a membership constraint. *)
Inductive value : Type :=
| VStr (s : string)
| VInt (z : Z)
| VNone.

#[global] Instance value_eq_dec : EqDecision value.
Proof. solve_decision. Defined.

Inductive param : Type :=
| Scalar (v : value)
| Collection (vs : list value).

Definition opt_value {A : Type} (f : A -> value) (o : option A) : value :=
  match o with Some a => f a | None => VNone end.

(** [getattr(cur, key)] evaluated on a row. *)
Definition column (key : string) : option (curation_row -> value) :=
  if decide (key = "tag") then Some (fun r => VStr (tag r))
  else if decide (key = "text") then Some (fun r => opt_value VStr (text r))
  else if decide (key = "curator") then Some (fun r => VStr (curator r))
  else if decide (key = "ip") then Some (fun r => VStr (ip r))
  else if decide (key = "source") then Some (fun r => VStr (source r))
  else if decide (key = "pa_hash") then Some (fun r => VInt (pa_hash r))
  else if decide (key = "source_hash")
       then Some (fun r => opt_value VInt (source_hash r))
  else None.

Definition rename (key : string) : string :=
  let key := if decide (key = "hash_val") then "pa_hash" else key in
  if decide (key = "ev_hash") then "source_hash" else key.

Fixpoint constraints (params : list (string * param))
  : result (list (curation_row -> bool)) :=
  match params with
  | [] => Ok []
  | (key, val) :: rest =>
      match column (rename key) with
      | None => Raise AttributeError
      | Some col =>
          cs ← constraints rest;
          Ok (match val with
              | Collection vs => fun r => bool_decide (col r ∈ vs)
              | Scalar v => fun r => bool_decide (col r = v)
              end :: cs)
      end
  end.

Definition get_curations (db : database) (params : list (string * param))
  : result (list curation_row) :=
  cs ← constraints params;
  Ok (filter (fun r => forallb (fun c => c r) cs = true) (db_curations db)).

(** The grounding pattern of [get_grounding_curations]: start of text, an
    opening bracket, group 1 (a greedy run of characters other than
    newline), a closing bracket, the arrow between two spaces, group 2 (a
    non-empty greedy run of characters other than space), end of text. *)
Definition grounding_pattern : list atom :=
  [Bos; Lit "["; GOpen; Star Dot; GClose; Lit "] -> ";
   GOpen; Plus NotSpace; GClose; Eos].

(** [{k: v for k, v in dbid_entries}]: unpacking an entry that has no
    [':'] raises, which the caller catches. *)
Fixpoint dbids_of_entries (entries : list (list string))
    (acc : gmap string string) : option (gmap string string) :=
  match entries with
  | [] => Some acc
  | [k; v] :: rest => dbids_of_entries rest (<[k := v]> acc)
  | _ :: _ => None
  end.

Definition parse_dbids (dbid_str : string) : option (gmap string string) :=
  dbids_of_entries (PyStr.split1 ":" <$> PyStr.split "|" dbid_str) ∅.

(** What one curation adds in the loop over [curs], if it is not skipped. *)
Definition grounding_entry (cur : curation_row)
  : option (string * gmap string string) :=
  match text cur with
  | None | Some EmptyString => None
  | Some t =>
      let cur_text := PyStr.strip t in
      match re_match grounding_pattern cur_text with
      | Some [txt; dbid_str] =>
          match parse_dbids dbid_str with
          | None => None
          | Some dbids => Some (txt, dbids)
          end
      | _ => None
      end
  end.

Definition grounding_step (groundings : gmap string (gmap string string))
    (cur : curation_row) : gmap string (gmap string string) :=
  match grounding_entry cur with
  | Some (txt, dbids) => <[txt := dbids]> groundings
  | None => groundings
  end.

Definition get_grounding_curations (db : database)
  : result (gmap string (gmap string string)) :=
  curs ← get_curations db [("tag", Scalar (VStr "grounding"))];
  Ok (foldl grounding_step ∅ curs).

End Curation.


(** ** [indra_db/preassembly/preassembly_submitter.py] *)

Module PreassemblySubmitter.

(** Positional arguments as Python values. *)
Inductive pyval : Type :=
| PStr (s : string)
| PInt (z : Z)
| PBool (b : bool)
| PNone.

(** [str(v)], also what an f-string field renders. *)
Definition py_str (v : pyval) : string :=
  match v with
  | PStr s => s
  | PInt z => PyStr.str z
  | PBool true => "True"
  | PBool false => "False"
  | PNone => "None"
  end.

(** Truth value in [if v:]. *)
Definition truthy (v : pyval) : bool :=
  match v with
  | PStr s => negb (bool_decide (s = ""))
  | PInt z => negb (Z.eqb z 0)
  | PBool b => b
  | PNone => false
  end.

(** The attributes of a submitter that [_get_command] reads; [job_base]
    and [s3_base] are set by the base class. *)
Record submitter : Type := Submitter {
  job_base : string;
  s3_base : string;
  task : string
}.

Definition init (job_base s3_base task : string) : result submitter :=
  if bool_decide (task ∈ ["create"; "update"])
  then Ok (Submitter job_base s3_base task)
  else Raise ValueError.

Definition _job_queue_dict : list (string * list string) :=
  [("run_db_reading_queue", ["create"; "update"])].

Definition _iter_over_select_queues (self : submitter) : list string :=
  (filter (fun '(jq, tasks) => task self ∈ tasks) _job_queue_dict).*1.

Section WithBucket.
(** [indra_reading.batch.util.bucket_name] *)
Variable bucket_name : string.

Definition _get_command (self : submitter) (job_type_set : list string)
    (args : list pyval) : result (option string * option (list string)) :=
  '(stmt_type, batch_size, continuing) ←
    match args with
    | [stmt_type; batch_size] => Ok (stmt_type, batch_size, PBool false)
    | [stmt_type; batch_size; continuing] =>
        Ok (stmt_type, batch_size, continuing)
    | _ => Raise ValueError
    end;
  if negb (bool_decide (task self ∈ job_type_set)) then Ok (None, None)
  else
    let job_name :=
      job_base self +:+ "_" +:+ task self +:+ "_" +:+ py_str stmt_type in
    let s3_cache :=
      "s3://" +:+ bucket_name +:+ "/" +:+ s3_base self +:+ "/" +:+ job_name in
    let cmd := ["python3"; "-m"; "indra_db.preassembly.preassemble_db";
                task self; "-n"; "32"; "-C"; s3_cache; "-T";
                py_str stmt_type; "-Y"; "-b"; py_str batch_size] in
    let cmd := if truthy continuing then cmd ++ ["-c"] else cmd in
    Ok (Some job_name, Some cmd).
End WithBucket.

Definition DEFAULT_AVOID_STATEMENTS : list string :=
  ["Event"; "Influence"; "Unresolved"].

Section WithStatements.
(** The class names of [get_all_descendants(Statement)], from [indra]. *)
Variable statement_classes : list string.

Definition VALID_STATEMENTS : list string :=
  filter (fun name => name ∉ DEFAULT_AVOID_STATEMENTS) statement_classes.

(** [_iter_job_args(type_list, *rest)]: the argument tuples that the
    generator yields, or the error it raises when it is first advanced;
    [type_list] is [args[0]] and [rest] is [args[1:]]. *)
Definition _iter_job_args (type_list : option (list string))
    (rest : list pyval) : result (list (list pyval)) :=
  let type_list := default VALID_STATEMENTS type_list in
  let invalid_types : gset string :=
    list_to_set type_list ∖ list_to_set VALID_STATEMENTS in
  if negb (bool_decide (invalid_types = ∅)) then Raise ValueError
  else Ok ((fun stmt_type => PStr stmt_type :: rest) <$> type_list).
End WithStatements.

End PreassemblySubmitter.

(** ** [indra_db/managers/knowledgebase_manager.py]: the TAS manager *)

Module TasManager.

Record evidence_t : Type := Evidence {
  annotations : gmap string string
}.

Record statement : Type := Statement {
  matches_key : string;
  evidence : list evidence_t
}.

#[global] Instance evidence_eq_dec : EqDecision evidence_t.
Proof. solve_decision. Defined.
#[global] Instance statement_eq_dec : EqDecision statement.
Proof. solve_decision. Defined.

Fixpoint index_of {A : Type} `{EqDecision A} (x : A) (l : list A)
  : option nat :=
  match l with
  | [] => None
  | y :: l' => if decide (x = y) then Some O else S <$> index_of x l'
  end.

Definition class_min_order : list string :=
  ["Kd < 100nM"; "100nM < Kd < 1uM"].

Definition get_order_value (stmt : statement) : result nat :=
  match evidence stmt with
  | [] => Raise IndexError
  | ev :: _ =>
      match annotations ev !! "class_min" with
      | None => Raise KeyError
      | Some cm =>
          match index_of cm class_min_order with
          | None => Raise ValueError
          | Some i => Ok i
          end
      end
  end.

(** [[(get_order_value(stmt), stmt) for stmt in stmts if stmt is not None]] *)
Fixpoint order_values (stmts : list (option statement))
  : result (list (nat * statement)) :=
  match stmts with
  | [] => Ok []
  | None :: rest => order_values rest
  | Some stmt :: rest =>
      v ← get_order_value stmt;
      vs ← order_values rest;
      Ok ((v, stmt) :: vs)
  end.

(** [min(l, key=lambda t: t[0])] keeps the first of the minimal items. *)
Fixpoint min_from {A : Type} (best : nat * A) (l : list (nat * A))
  : nat * A :=
  match l with
  | [] => best
  | t :: l' => min_from (if (t.1 <? best.1)%nat then t else best) l'
  end.

Definition choose_better (stmts : list (option statement))
  : result statement :=
  vs ← order_values stmts;
  match vs with
  | [] => Raise ValueError
  | t :: vs' => Ok (min_from t vs').2
  end.

(** A [dict] in insertion order. *)
Fixpoint dict_get {V : Type} (k : string) (d : list (string * V))
  : option V :=
  match d with
  | [] => None
  | (k', v) :: d' => if decide (k = k') then Some v else dict_get k d'
  end.

Fixpoint dict_set {V : Type} (k : string) (v : V) (d : list (string * V))
  : list (string * V) :=
  match d with
  | [] => [(k, v)]
  | (k', v') :: d' =>
      if decide (k = k') then (k, v) :: d' else (k', v') :: dict_set k v d'
  end.

Fixpoint collect (stmts : list statement)
    (stmt_dict : list (string * statement))
  : result (list (string * statement)) :=
  match stmts with
  | [] => Ok stmt_dict
  | s :: rest =>
      let mk := matches_key s in
      best ← choose_better [Some s; dict_get mk stmt_dict];
      collect rest (dict_set mk best stmt_dict)
  end.

(** [_get_statements]; [statements] is [process_csv().statements]. *)
Definition _get_statements (statements : list statement)
  : result (list statement) :=
  stmt_dict ← collect statements [];
  Ok stmt_dict.*2.

End TasManager.

(** ** The dump listing exercised by [test_dump_manager.py] *)

Module DumpManager.

Record S3Path : Type := MkS3Path {
  bucket : string;
  key : string
}.

#[global] Instance S3Path_eq_dec : EqDecision S3Path.
Proof. solve_decision. Defined.

(** The dump root holds, for each date stamp, the names of the stage
    markers stored under that prefix, as [_build_s3_test_dump] lays them
    out from its [structure] argument. *)
Definition dump_path (dump_head : S3Path) (date_stamp : string) : S3Path :=
  MkS3Path (bucket dump_head) (key dump_head +:+ "/" +:+ date_stamp +:+ "/").

(** The dump stamped [date_stamp] holds the marker of [stage]. *)
Definition has_marker (structure : gmap string (gset string))
    (stage date_stamp : string) : bool :=
  bool_decide (stage ∈ (default ∅ (structure !! date_stamp) : gset string)).

(** Modelled from the spec: [indra_db/managers/dump_manager.py], which
    defines [list_dumps], is missing. The spec has it list all date-stamped
    prefixes under the dump root, optionally filtered to only those
    containing a [start] marker and/or filtered by presence/absence of an
    [end] marker, and return them as object-storage path handles ordered by
    date-stamp ascending. *)
Definition list_dumps (dump_head : S3Path)
    (structure : gmap string (gset string))
    (started ended : option bool) : list S3Path :=
  let stamps := merge_sort String.le (elements (dom structure)) in
  let stamps :=
    match started with
    | Some true =>
        filter (fun d => has_marker structure "start" d = true) stamps
    | _ => stamps
    end in
  let stamps :=
    match ended with
    | Some e => filter (fun d => has_marker structure "end" d = e) stamps
    | None => stamps
    end in
  dump_path dump_head <$> stamps.

End DumpManager.


(** ** [indra_db/util/distill_statements.py] *)

Module Distill.

(** Later in the list is better. *)
Definition reader_versions : list (string * list string) :=
  [("sparser", ["sept14-linux" +:+ String "010" ""; "sept14-linux";
                "June2018-linux"; "October2018-linux"]);
   ("reach", ["61059a-biores-e9ee36"; "1.3.3-61059a-biores-"])].

Definition text_content_sources : list string :=
  ["pubmed"; "elsevier"; "manuscripts"; "pmc_oa"].

(** [l.index(x)] *)
Fixpoint index_of (x : string) (l : list string) : option nat :=
  match l with
  | [] => None
  | y :: l' => if decide (x = y) then Some O else S <$> index_of x l'
  end.

Definition py_index (x : string) (l : list string) : result nat :=
  match index_of x l with
  | Some i => Ok i
  | None => Raise ValueError
  end.

(** [min(xs, key=f)] and [max(xs, key=f)]: the key of every item is
    computed, and the first of the extremal items is returned. *)
Fixpoint keyed {A : Type} (f : A -> result nat) (xs : list A)
  : result (list (nat * A)) :=
  match xs with
  | [] => Ok []
  | x :: xs' => k ← f x; ks ← keyed f xs'; Ok ((k, x) :: ks)
  end.

Fixpoint first_min {A : Type} (best : nat * A) (l : list (nat * A))
  : nat * A :=
  match l with
  | [] => best
  | t :: l' => first_min (if (t.1 <? best.1)%nat then t else best) l'
  end.

Fixpoint first_max {A : Type} (best : nat * A) (l : list (nat * A))
  : nat * A :=
  match l with
  | [] => best
  | t :: l' => first_max (if (best.1 <? t.1)%nat then t else best) l'
  end.

Definition py_min {A : Type} (f : A -> result nat) (xs : list A)
  : result A :=
  ks ← keyed f xs;
  match ks with
  | [] => Raise ValueError
  | t :: ks' => Ok (first_min t ks').2
  end.

Definition py_max {A : Type} (f : A -> result nat) (xs : list A)
  : result A :=
  ks ← keyed f xs;
  match ks with
  | [] => Raise ValueError
  | t :: ks' => Ok (first_max t ks').2
  end.

(** A [for] loop that threads its state and stops at the first raise. *)
Fixpoint for_each {A S : Type} (body : S -> A -> result S) (xs : list A)
    (st : S) : result S :=
  match xs with
  | [] => Ok st
  | x :: xs' => st' ← body st x; for_each body xs' st'
  end.

(** [X.pop()] on a set takes whichever member the set's layout puts
    first; [pick] stands for that choice. *)
Definition pop {A : Type} `{Countable A} (pick : gset A -> nat)
    (X : gset A) : result (A * gset A) :=
  match elements X !! (pick X `mod` size X)%nat with
  | Some x => Ok (x, X ∖ {[x]})
  | None => Raise KeyError
  end.

Definition keys {K V : Type} `{Countable K} (d : gmap K V) : list K :=
  (map_to_list d).*1.

Definition values {K V : Type} `{Countable K} (d : gmap K V) : list V :=
  (map_to_list d).*2.

(** [itertools.groupby] over consecutive items. *)
Fixpoint groupby {A : Type} (key : A -> Z) (l : list A) : list (list A) :=
  match l with
  | [] => []
  | x :: l' =>
      match groupby key l' with
      | (y :: g) :: gs =>
          if decide (key x = key y) then (x :: y :: g) :: gs
          else [x] :: (y :: g) :: gs
      | gs => [x] :: gs
      end
  end.

(** [indra.util.batch_iter(xs, batch_size, set)] *)
Fixpoint batch_iter_go {A : Type} (fuel : nat) (xs : list A) (n : nat)
  : list (list A) :=
  match fuel, xs with
  | S fuel', _ :: _ => take n xs :: batch_iter_go fuel' (drop n xs) n
  | _, _ => []
  end.

Definition batch_iter {A : Type} (xs : list A) (batch_size : Z)
  : list (list A) :=
  if (batch_size <=? 0)%Z then []
  else batch_iter_go (length xs) xs (Z.to_nat batch_size).

(** The tables the engine reads and writes. A raw statement from a reading
    carries the chain reading, text content, text ref that the query of
    [get_reading_stmt_dict] joins. *)
Record reading_info : Type := ReadingInfo {
  ri_trid : Z;
  ri_source : string;
  ri_tcid : Z;
  ri_rid : Z;
  ri_reader_version : string
}.

Record raw_statement : Type := RawStatement {
  rs_id : Z;
  rs_mk_hash : Z;
  rs_json : string;
  rs_db_info_id : option Z;
  rs_reading : option reading_info
}.

Record database : Type := Database {
  raw_statements : list raw_statement;
  raw_agents : list Z;         (* stmt_id of each raw agent *)
  raw_unique_links : list Z    (* raw_stmt_id of each link *)
}.

(** [order_by(db.RawStatements.mk_hash)] *)
Definition mk_hash_le (a b : raw_statement) : Prop :=
  (rs_mk_hash a ≤ rs_mk_hash b)%Z.

#[global] Instance mk_hash_le_dec : RelDecision mk_hash_le.
Proof. intros a b. unfold mk_hash_le. apply _. Defined.

Section Engine.
(** Statement objects, with what the engine calls on them. *)
Context {Stmt : Type} `{Countable Stmt}.
Variable from_json : string -> Stmt.
Variable _set_evidence_text_ref : Stmt -> Z -> Stmt.
Variable get_hash : Stmt -> Z.

Abbreviation tpl := (Z * option Stmt)%type.
Abbreviation row := (Z * Z * option string)%type.

Definition sids_of (X : gset tpl) : gset Z := set_map fst X.

(** *** [NestedDict], level by level:
    text ref, source, text content, reader, reader version, reading,
    statement hash. Keys of different levels are of different kinds. *)
Abbreviation s_dict := (gmap Z (gset tpl)).
Abbreviation r_dict := (gmap Z (gmap Z (gset tpl))).
Abbreviation rv_dict := (gmap string (gmap Z (gmap Z (gset tpl)))).
Abbreviation reader_dict :=
  (gmap string (gmap string (gmap Z (gmap Z (gset tpl))))).
Abbreviation tc_dict :=
  (gmap Z (gmap string (gmap string (gmap Z (gmap Z (gset tpl)))))).
Abbreviation src_dict :=
  (gmap string
     (gmap Z (gmap string (gmap string (gmap Z (gmap Z (gset tpl))))))).
Abbreviation stmt_nd :=
  (gmap Z (gmap string
     (gmap Z (gmap string (gmap string (gmap Z (gmap Z (gset tpl)))))))).

(** [d[k]] with the node created on first access, then updated. *)
Definition at_key {K V : Type} `{Countable K} `{Empty V}
    (k : K) (f : V -> V) (d : gmap K V) : gmap K V :=
  <[k := f (default ∅ (d !! k))]> d.

(** [get_leaves] *)
Definition leaves_with {K V : Type} `{Countable K}
    (f : V -> gset tpl) (d : gmap K V) : gset tpl :=
  ⋃ (f <$> values d).

Definition leaves_s (d : s_dict) : gset tpl := leaves_with id d.
Definition leaves_r (d : r_dict) : gset tpl := leaves_with leaves_s d.
Definition leaves_rv (d : rv_dict) : gset tpl := leaves_with leaves_r d.
Definition leaves_reader (d : reader_dict) : gset tpl :=
  leaves_with leaves_rv d.
Definition leaves_tc (d : tc_dict) : gset tpl :=
  leaves_with leaves_reader d.

(** [src_dict.gets(reader)]: every node stored under the key [reader]. *)
Definition gets (reader : string) (d : src_dict) : list rv_dict :=
  tcd ← values d; rd ← values tcd;
  match rd !! reader with Some rvd => [rvd] | None => [] end.

(** *** [get_reading_stmt_dict] *)
Definition reader_of (rv : string) : result string :=
  match list_find (fun '(_, rv_list) => rv ∈ rv_list) reader_versions with
  | Some (_, (reader, _)) => Ok reader
  | None => Raise (Exception "rv not recognized.")
  end.

Definition reading_rows (db : database)
    (clauses : option (raw_statement -> bool))
  : list (raw_statement * reading_info) :=
  omap (fun rs => match rs_reading rs with
                  | Some ri =>
                      if default (fun _ => true) clauses rs
                      then Some (rs, ri) else None
                  | None => None
                  end) (raw_statements db).

Definition add_reading_row (get_full_stmts : bool) (nd : stmt_nd)
    (r : raw_statement * reading_info) : result stmt_nd :=
  let '(rs, ri) := r in
  reader ← reader_of (ri_reader_version ri);
  let stmt :=
    _set_evidence_text_ref (from_json (rs_json rs)) (ri_trid ri) in
  let stmt_hash := get_hash stmt in
  let entry : tpl :=
    (rs_id rs, if get_full_stmts then Some stmt else None) in
  Ok (at_key (ri_trid ri)
       (at_key (ri_source ri)
         (at_key (ri_tcid ri)
           (at_key reader
             (at_key (ri_reader_version ri)
               (at_key (ri_rid ri)
                 (at_key stmt_hash (fun S => S ∪ {[entry]}))))))) nd).

Definition get_reading_stmt_dict (db : database)
    (clauses : option (raw_statement -> bool)) (get_full_stmts : bool)
  : result stmt_nd :=
  for_each (add_reading_row get_full_stmts) (reading_rows db clauses) ∅.

(** *** [_detect_exact_duplicates] *)
Variable pick_tpl : gset tpl -> nat.

Definition detect_step (linked_sids : gset Z)
    (st : gset tpl * gset tpl) (stmt_tpl_set : gset tpl)
  : result (gset tpl * gset tpl) :=
  let '(stmt_tpls, some_duplicate_tpls) := st in
  if decide (size stmt_tpl_set = 0)%nat then Ok st
  else if decide (size stmt_tpl_set = 1)%nat
  then Ok (stmt_tpls ∪ stmt_tpl_set, some_duplicate_tpls)
  else
    let prefed_tpls := filter (fun t => t.1 ∈ linked_sids) stmt_tpl_set in
    if decide (size prefed_tpls = 0)%nat then
      '(t, rest) ← pop pick_tpl stmt_tpl_set;
      Ok (stmt_tpls ∪ {[t]}, some_duplicate_tpls ∪ rest)
    else if decide (size prefed_tpls = 1)%nat then
      Ok (stmt_tpls ∪ prefed_tpls,
          some_duplicate_tpls ∪ (stmt_tpl_set ∖ prefed_tpls))
    else Raise AssertionError.

Definition _detect_exact_duplicates (stmt_set_itr : list (gset tpl))
    (linked_sids : gset Z) : result (gset tpl * gset tpl) :=
  for_each (detect_step linked_sids) stmt_set_itr (∅, ∅).

(** *** [get_filtered_rdg_stmts] *)
Definition better_func (element : string) : result nat :=
  py_index element text_content_sources.

(** The [while len(src_dict) > 1] loop; it removes a key at every turn,
    so [size src_dict] turns are enough. *)
Fixpoint drop_worse_sources (fuel : nat) (sd : src_dict)
    (bettered : gset tpl) : result (src_dict * gset tpl) :=
  if decide (1 < size sd)%nat then
    match fuel with
    | O => Ok (sd, bettered)
    | S fuel' =>
        worst_src ← py_min better_func (keys sd);
        drop_worse_sources fuel' (delete worst_src sd)
          (bettered ∪ leaves_tc (default ∅ (sd !! worst_src)))
    end
  else Ok (sd, bettered).

(** The state of the loops: [stmt_tpls], [duplicate_sids] and
    [some_bettered_duplicate_tpls]. *)
Abbreviation loop_state := (gset tpl * gset Z * gset tpl)%type.

Definition filter_rv_dict (linked_sids : gset Z) (ignore_duplicates : bool)
    (rv_list : list string) (st : loop_state) (rvd : rv_dict)
  : result loop_state :=
  let '(stmt_tpls, duplicate_sids, bettered) := st in
  best_rv ← py_max (fun x => py_index x rv_list) (keys rvd);
  let bettered :=
    foldl (fun b '(rv, rd) =>
             if decide (rv ≠ best_rv) then b ∪ leaves_r rd else b)
          bettered (map_to_list rvd) in
  let stmt_set_itr :=
    rd ← values (default ∅ (rvd !! best_rv)); values rd in
  if ignore_duplicates then
    Ok (stmt_tpls ∪ ⋃ stmt_set_itr, duplicate_sids, bettered)
  else
    '(some_stmt_tpls, some_duplicate_tpls) ←
      _detect_exact_duplicates stmt_set_itr linked_sids;
    Ok (stmt_tpls ∪ some_stmt_tpls,
        duplicate_sids ∪ sids_of some_duplicate_tpls, bettered).

Definition filter_reader (linked_sids : gset Z) (ignore_duplicates : bool)
    (sd : src_dict) (st : loop_state) (rl : string * list string)
  : result loop_state :=
  let '(reader, rv_list) := rl in
  for_each (filter_rv_dict linked_sids ignore_duplicates rv_list)
           (gets reader sd) st.

(** One turn of the loop over [stmt_nd.items()]; the state is
    [stmt_tpls], [duplicate_sids] and [bettered_duplicate_sids]. *)
Definition filter_text_ref (linked_sids : gset Z)
    (ignore_duplicates : bool) (st : gset tpl * gset Z * gset Z)
    (sd : src_dict) : result (gset tpl * gset Z * gset Z) :=
  let '(stmt_tpls, duplicate_sids, bettered_duplicate_sids) := st in
  '(sd', some_bettered) ← drop_worse_sources (size sd) sd ∅;
  '(stmt_tpls, duplicate_sids, some_bettered) ←
    for_each (filter_reader linked_sids ignore_duplicates sd')
             reader_versions (stmt_tpls, duplicate_sids, some_bettered);
  Ok (stmt_tpls, duplicate_sids,
      bettered_duplicate_sids ∪ sids_of some_bettered).

(** The three sets before [stmts] is projected out of [stmt_tpls]. *)
Definition filter_rdg_tpls (nd : stmt_nd) (linked_sids : gset Z)
    (ignore_duplicates : bool) : result (gset tpl * gset Z * gset Z) :=
  for_each (filter_text_ref linked_sids ignore_duplicates) (values nd)
           (∅, ∅, ∅).

(** Kept statements are statement objects or statement ids. *)
Definition stmts_of (get_full_stmts : bool) (stmt_tpls : gset tpl)
  : result (gset (Stmt + Z)) :=
  if get_full_stmts then
    let stmts : gset (Stmt + Z) :=
      list_to_set (omap (fun t : tpl => inl <$> t.2) (elements stmt_tpls)) in
    if decide (size stmts = size stmt_tpls) then Ok stmts
    else Raise AssertionError
  else Ok (set_map (fun t : tpl => inr t.1) stmt_tpls).

Definition get_filtered_rdg_stmts (nd : stmt_nd) (get_full_stmts : bool)
    (linked_sids : option (gset Z)) (ignore_duplicates : bool)
  : result (gset (Stmt + Z) * gset Z * gset Z) :=
  let linked_sids := default ∅ linked_sids in
  '(stmt_tpls, duplicate_sids, bettered_duplicate_sids) ←
    filter_rdg_tpls nd linked_sids ignore_duplicates;
  stmts ← stmts_of get_full_stmts stmt_tpls;
  Ok (stmts, duplicate_sids, bettered_duplicate_sids).

(** *** [_choose_unique] *)
Variable pick_row : gset row -> nat.

Definition row_stmt (get_full_stmts : bool) (s_tpl : row)
  : result (Stmt + Z) :=
  if get_full_stmts then
    match s_tpl.2 with
    | Some js => Ok (inl (from_json js))
    | None => Raise IndexError
    end
  else Ok (inr s_tpl.1.2).

Definition _choose_unique (not_duplicates : gset Z)
    (get_full_stmts : bool) (stmt_tpl_grp : list row)
  : result ((Stmt + Z) * gset Z) :=
  match stmt_tpl_grp with
  | [] => Raise AssertionError
  | [s_tpl] =>
      ret_stmt ← row_stmt get_full_stmts s_tpl; Ok (ret_stmt, ∅)
  | _ =>
      let stmt_tpl_set : gset row := list_to_set stmt_tpl_grp in
      let preferred_tpls :=
        filter (fun t : row => t.1.2 ∈ not_duplicates) stmt_tpl_set in
      '(s_tpl, stmt_tpl_set) ←
        (if decide (size preferred_tpls = 0)%nat
         then pop pick_row stmt_tpl_set
         else if decide (size preferred_tpls = 1)%nat
         then '(s_tpl, _) ← pop pick_row preferred_tpls;
              Ok (s_tpl, stmt_tpl_set)
         else Raise AssertionError);
      let duplicate_ids : gset Z :=
        set_map (fun t : row => t.1.2)
          (filter (fun t : row => t.1.2 ∉ not_duplicates) stmt_tpl_set) in
      ret_stmt ← row_stmt get_full_stmts s_tpl;
      Ok (ret_stmt, duplicate_ids)
  end.

(** *** [get_filtered_db_stmts] *)
Definition db_rows (db : database) (get_full_stmts : bool)
    (clauses : option (raw_statement -> bool)) : list row :=
  let selected :=
    filter (fun rs => is_Some (rs_db_info_id rs) ∧
                      default (fun _ => true) clauses rs = true)
           (raw_statements db) in
  let ordered :=
    merge_sort mk_hash_le selected in
  (fun rs => (rs_mk_hash rs, rs_id rs,
              if get_full_stmts then Some (rs_json rs) else None))
    <$> ordered.

(** [pool.map(f, xs)]: the results in order, or the first raise. *)
Fixpoint pool_map {A B : Type} (f : A -> result B) (xs : list A)
  : result (list B) :=
  match xs with
  | [] => Ok []
  | x :: xs' => y ← f x; ys ← pool_map f xs'; Ok (y :: ys)
  end.

(** [stmt_list, duplicate_sets = zip] of the unpacked [res]: the zip of
    no sequences is empty, and unpacking it into two names raises. *)
Definition unzip_pairs {A B : Type} (res : list (A * B))
  : result (list A * list B) :=
  match res with
  | [] => Raise ValueError
  | _ => Ok (res.*1, res.*2)
  end.

Definition get_filtered_db_stmts (db : database) (get_full_stmts : bool)
    (clauses : option (raw_statement -> bool))
    (not_duplicates : option (gset Z)) (num_procs : Z)
  : result (gset (Stmt + Z) * gset Z) :=
  let not_duplicates := default ∅ not_duplicates in
  let db_stmt_data := db_rows db get_full_stmts clauses in
  let choose_unique_stmt := _choose_unique not_duplicates get_full_stmts in
  let stmt_groups := groupby (fun x : row => x.1.1) db_stmt_data in
  if decide (num_procs = 1%Z) then
    for_each (fun '(stmts, duplicate_ids) stmt_list =>
                '(stmt, some_duplicates) ← choose_unique_stmt stmt_list;
                Ok (stmts ∪ {[stmt]}, duplicate_ids ∪ some_duplicates))
             stmt_groups (∅, ∅)
  else
    res ← pool_map choose_unique_stmt stmt_groups;
    '(stmt_list, duplicate_sets) ← unzip_pairs res;
    Ok (list_to_set stmt_list, ⋃ duplicate_sets).

(** *** [delete_raw_statements_by_id]; [remove = None] is ['all']. *)
Definition delete_raw_statements_by_id (db : database)
    (raw_sids : gset Z) (remove : option (list string)) : database :=
  let remove := default ["links"; "agents"; "statements"] remove in
  let db :=
    if bool_decide ("links" ∈ remove)
    then Database (raw_statements db) (raw_agents db)
           (filter (fun i => i ∉ raw_sids) (raw_unique_links db))
    else db in
  let db :=
    if bool_decide ("agents" ∈ remove)
    then Database (raw_statements db)
           (filter (fun i => i ∉ raw_sids) (raw_agents db))
           (raw_unique_links db)
    else db in
  if bool_decide ("statements" ∈ remove)
  then Database (filter (fun rs => rs_id rs ∉ raw_sids) (raw_statements db))
         (raw_agents db) (raw_unique_links db)
  else db.

(** [assert not linked_sids & duplicate_sids] *)
Definition assert_disjoint (linked_sids duplicate_sids : gset Z)
  : result unit :=
  if decide (linked_sids ∩ duplicate_sids = ∅) then Ok ()
  else Raise AssertionError.

(** *** [distill_stmts]: the kept statements, the database afterwards
    and the duplicate ids pickled to a file, if any. *)
Definition distill_stmts (db : database) (get_full_stmts : bool)
    (clauses : option (raw_statement -> bool)) (num_procs : Z)
    (handle_duplicates : string) (weed_evidence : bool) (batch_size : Z)
  : result (gset (Stmt + Z) * database * option (gset Z)) :=
  let linked_sids : gset Z :=
    if bool_decide (handle_duplicates = "delete")
       || negb (bool_decide (handle_duplicates = "ignore"))
    then list_to_set (raw_unique_links db) else ∅ in
  nd ← get_reading_stmt_dict db clauses get_full_stmts;
  '(stmts, duplicate_sids, bettered_duplicate_sids) ←
    get_filtered_rdg_stmts nd get_full_stmts (Some linked_sids) false;
  _ ← assert_disjoint linked_sids duplicate_sids;
  '(db_stmts, db_duplicates) ←
    get_filtered_db_stmts db get_full_stmts clauses (Some linked_sids)
      num_procs;
  let stmts := stmts ∪ db_stmts in
  let duplicate_sids := duplicate_sids ∪ db_duplicates in
  _ ← assert_disjoint linked_sids duplicate_sids;
  let bad_link_sids := bettered_duplicate_sids ∩ linked_sids in
  let db :=
    if negb (size bad_link_sids =? 0)%nat && weed_evidence
    then Database (raw_statements db) (raw_agents db)
           (filter (fun i => i ∉ bad_link_sids) (raw_unique_links db))
    else db in
  if negb (size duplicate_sids =? 0)%nat then
    if bool_decide (handle_duplicates = "delete") then
      Ok (stmts,
          foldl (fun db dup_id_batch =>
                   delete_raw_statements_by_id db
                     (list_to_set dup_id_batch) None)
                db (batch_iter (elements duplicate_sids) batch_size),
          None)
    else if negb (bool_decide (handle_duplicates = "ignore")) then
      Ok (stmts, db, Some duplicate_sids)
    else Ok (stmts, db, None)
  else Ok (stmts, db, None).

End Engine.
End Distill.

(** * Properties *)

(** * Specification-side notions *)

Module CurationSpec.
Import PyStr.

(** The detail line names a bad hash [h]: it reads DETAIL, colon, space,
    anything, (pa_hash)=(h) with [h] a non-empty run of digits, anything,
    not present, anything, pa, anything. *)
Definition bad_hash_detail (d h : string) : Prop :=
  exists a b c e,
    d = "DETAIL: " +:+ a +:+ "(pa_hash)=(" +:+ h +:+ ")" +:+ b +:+
        "not present" +:+ c +:+ "pa" +:+ e /\
    h <> "" /\ all_chars is_digit h = true.

Definition no_newline (s : string) : Prop :=
  all_chars (fun c => negb (Ascii.eqb c "010")) s = true.

(** Every occurrence of [marker] in [s] is directly followed by [next]. *)
Definition always_followed_by (marker next s : string) : Prop :=
  forall a b, s = a +:+ marker +:+ b -> exists post, b = next +:+ post.

Fixpoint followed_by_check (marker next s : string) : bool :=
  match drop_prefix marker s with
  | Some b => bool_decide (is_Some (drop_prefix next b))
  | None => true
  end &&
  match s with
  | EmptyString => true
  | String _ s' => followed_by_check marker next s'
  end.

End CurationSpec.

Module GroundingSpec.
Import PyStr Curation.

Definition no_char (x : ascii) (s : string) : Prop :=
  all_chars (fun c => negb (Ascii.eqb c x)) s = true.

(** [xs] joined by [sep]. *)
Fixpoint join (sep : ascii) (xs : list string) : string :=
  match xs with
  | [] => EmptyString
  | [x] => x
  | x :: xs' => x +:+ String sep (join sep xs')
  end.

(** The text is a bracketed mention, the arrow, and an ID list. *)
Definition grounding_text (s mention ids : string) : Prop :=
  s = "[" +:+ mention +:+ "] -> " +:+ ids /\
  no_char "010" mention /\ ids <> EmptyString /\ no_char " " ids.

(** The ID list is well formed: it is the entries [ns:id] joined by a
    bar, where no namespace holds a colon and no part holds a bar. *)
Definition id_list (ids : string) (entries : list (string * string)) : Prop :=
  entries <> [] /\
  ids = join "|" ((fun e => e.1 +:+ String ":" e.2) <$> entries) /\
  Forall (fun e => no_char ":" e.1 /\ no_char "|" e.1 /\ no_char "|" e.2)
         entries.

(** The namespace-to-identifier dict of the entries; a later entry for a
    namespace replaces an earlier one. *)
Definition dbids_of (entries : list (string * string)) : gmap string string :=
  foldl (fun acc e => <[e.1 := e.2]> acc) ∅ entries.

(** A curation that contributes the groundings [dbids] for [mention]. *)
Definition contributes (cur : curation_row) (mention : string)
    (dbids : gmap string string) : Prop :=
  exists t ids entries,
    text cur = Some t /\ grounding_text (strip t) mention ids /\
    id_list ids entries /\ dbids = dbids_of entries.

(** The groundings of the last of [curs] that contributes for [mention]. *)
Definition last_contribution (mention : string) (curs : list curation_row)
  : option (gmap string string) :=
  last (omap (fun cur =>
                match grounding_entry cur with
                | Some (m, dbids) =>
                    if decide (m = mention) then Some dbids else None
                | None => None
                end) curs).

End GroundingSpec.

Module TasSpec.
Import TasManager.

(** The first evidence of [s] carries the annotation [class_min = c]. *)
Definition class_min_of (s : statement) (c : string) : Prop :=
  exists ev rest,
    evidence s = ev :: rest /\ annotations ev !! "class_min" = Some c.

(** [a] ranks no later than [b] in the preference order. *)
Definition ranks_before_or_with (a b : statement) : Prop :=
  exists i j, get_order_value a = Ok i /\ get_order_value b = Ok j /\
              (i <= j)%nat.

(** The invariant of the loop of [_get_statements]: every statement seen
    so far has its key in the dict, bound to a seen statement of that key
    that ranks no later. *)
Definition collected (seen : list statement)
    (d : list (string * statement)) : Prop :=
  NoDup d.*1 /\
  (forall k v, dict_get k d = Some v ->
     matches_key v = k /\ v ∈ seen) /\
  (forall s, s ∈ seen ->
     exists v, dict_get (matches_key s) d = Some v /\
               ranks_before_or_with v s).

End TasSpec.

Module DumpSpec.

(** The layout of [test_list_dumps]: one dump with only a start marker,
    one with start and end, one with only an unrelated stage marker. *)
Definition three_dumps (d1 d2 d3 stage : string)
  : gmap string (gset string) :=
  {[ d1 := {[ "start" ]}; d2 := {[ "start"; "end" ]}; d3 := {[ stage ]} ]}.

End DumpSpec.

Module DistillSpec.

Import Distill.

(** The ids of a set of database rows [(mk_hash, id, json)]. *)
Definition row_ids (X : gset (Z * Z * option string)) : gset Z :=
  set_map (fun t : Z * Z * option string => t.1.2) X.

(** [x] comes strictly before [y] in the preference list [l]. *)
Definition ranks_below (l : list string) (x y : string) : Prop :=
  exists i j, index_of x l = Some i /\ index_of y l = Some j /\ (i < j)%nat.

(** Among the keys of [d], [k] is bettered: another key ranks above it. *)
Definition bettered_key {V : Type} (l : list string) (d : gmap string V)
    (k : string) : Prop :=
  exists k', k' ∈ dom d /\ ranks_below l k k'.

(** Among the keys of [d], [k] is the best: every other key ranks below. *)
Definition best_key {V : Type} (l : list string) (d : gmap string V)
    (k : string) : Prop :=
  k ∈ dom d /\ forall k', k' ∈ dom d -> k' <> k -> ranks_below l k' k.

Section Tree.
Context {Stmt : Type} `{Countable Stmt}.

Abbreviation tpl := (Z * option Stmt)%type.
Abbreviation r_dict := (gmap Z (gmap Z (gset tpl))).
Abbreviation stmt_nd :=
  (gmap Z (gmap string
     (gmap Z (gmap string (gmap string (gmap Z (gmap Z (gset tpl)))))))).

(** A position in the tree down to the reader version: text ref,
    source, text content, reader, reader version. *)
Abbreviation position := (Z * string * Z * string * string)%type.

(** The subtree of readings at a position. *)
Definition subtree (nd : stmt_nd) (p : position) : option r_dict :=
  let '(trid, src, tcid, reader, rv) := p in
  sd ← nd !! trid; tcd ← sd !! src; rd ← tcd !! tcid;
  rvd ← rd !! reader; rvd !! rv.

(** The statement tuple [t] lies under the position [p]. *)
Definition occurs (nd : stmt_nd) (p : position) (t : tpl) : Prop :=
  exists r_d, subtree nd p = Some r_d /\ t ∈ leaves_r r_d.

(** All the tuples of the tree with their positions. *)
Definition occurrences (nd : stmt_nd) : list (position * tpl) :=
  '(trid, sd) ← map_to_list nd;
  '(src, tcd) ← map_to_list sd;
  '(tcid, rd) ← map_to_list tcd;
  '(reader, rvd) ← map_to_list rd;
  '(rv, r_d) ← map_to_list rvd;
  t ← elements (leaves_r r_d);
  [((trid, src, tcid, reader, rv), t)].

(** No statement id occurs twice in the tree. *)
Definition unique_sids (nd : stmt_nd) : Prop :=
  NoDup ((fun o : position * tpl => o.2.1) <$> occurrences nd).

(** The position is in a source tier that another tier of its text ref
    betters. *)
Definition in_bettered_source (nd : stmt_nd) (p : position) : Prop :=
  let '(trid, src, tcid, reader, rv) := p in
  exists sd, nd !! trid = Some sd /\
             bettered_key text_content_sources sd src.

(** The position is in the best source tier of its text ref, under a
    reader of [reader_versions]. *)
Definition in_surviving_tier (nd : stmt_nd) (p : position)
    (rv_list : list string) : Prop :=
  let '(trid, src, tcid, reader, rv) := p in
  (reader, rv_list) ∈ reader_versions /\
  exists sd, nd !! trid = Some sd /\
             best_key text_content_sources sd src.

(** The reader versions found next to the position: those of the same
    reader on the same text content. *)
Definition versions_at (nd : stmt_nd) (p : position)
  : option (gmap string r_dict) :=
  let '(trid, src, tcid, reader, rv) := p in
  sd ← nd !! trid; tcd ← sd !! src; rd ← tcd !! tcid; rd !! reader.

Definition version_of (p : position) : string := p.2.

(** Between two states of a loop the kept tuples (first component) and
    the bettered ones (last component) only grow. *)
Definition grows {B : Type} `{SubsetEq B}
    (s s' : gset tpl * gset Z * B) : Prop :=
  s.1.1 ⊆ s'.1.1 /\ s.2 ⊆ s'.2.

End Tree.

(** *** Example trees, over statements given by their JSON text *)

Definition example_leaf (stmt_hash : Z) (sids : list Z)
  : gmap Z (gset (Z * option string)) :=
  {[ stmt_hash := list_to_set ((fun sid => (sid, None)) <$> sids) ]}.

(** One text ref with one source tier whose two text contents were read
    by two versions of the same reader. *)
Definition two_contents_tree
  : gmap Z (gmap string (gmap Z (gmap string (gmap string
      (gmap Z (gmap Z (gset (Z * option string)))))))) :=
  {[ 1%Z := {[ "pubmed" :=
       {[ 10%Z := {[ "reach" := {[ "61059a-biores-e9ee36" :=
                       {[ 100%Z := example_leaf 7 [1%Z] ]} ]} ]};
          11%Z := {[ "reach" := {[ "1.3.3-61059a-biores-" :=
                       {[ 101%Z := example_leaf 8 [2%Z] ]} ]} ]} ]} ]} ]}.

(** One text ref with two source tiers, each read by two versions of the
    same reader. *)
Definition reach_versions_of (rid : Z) (older newer : list Z)
  : gmap string (gmap Z (gmap Z (gset (Z * option string)))) :=
  {[ "61059a-biores-e9ee36" := {[ rid := example_leaf 7 older ]};
     "1.3.3-61059a-biores-" := {[ (rid + 1)%Z := example_leaf 8 newer ]} ]}.

Definition two_tiers_text_ref
  : gmap string (gmap Z (gmap string (gmap string
      (gmap Z (gmap Z (gset (Z * option string))))))) :=
  {[ "pubmed" :=
       {[ 10%Z := {[ "reach" :=
                       reach_versions_of 100 [1%Z] [2%Z] ]} ]};
     "pmc_oa" :=
       {[ 12%Z := {[ "reach" :=
                       reach_versions_of 102 [11%Z] [12%Z; 13%Z] ]} ]} ]}.

Definition two_tiers_tree
  : gmap Z (gmap string (gmap Z (gmap string (gmap string
      (gmap Z (gmap Z (gset (Z * option string)))))))) :=
  {[ 1%Z := two_tiers_text_ref ]}.

(** A [pop] that takes the first member. *)
Definition first_member {A : Type} `{Countable A} : gset A -> nat :=
  fun _ => 0%nat.

End DistillSpec.

(** * Further specification-side notions *)

Module TasOrder.
Import TasManager.

(** Among the statements of [l] that share its matching key, [v] is the
    last of those that rank earliest. *)
Definition last_of_best (l : list statement) (v : statement) : Prop :=
  exists i a,
    l !! i = Some v /\ get_order_value v = Ok a /\
    forall j s,
      l !! j = Some s -> matches_key s = matches_key v ->
      exists b, get_order_value s = Ok b /\
                (a < b \/ (a = b /\ j <= i))%nat.

(** The keys of [l], each once, in the order of their first occurrence. *)
Definition first_occurrences (l : list string) : list string :=
  foldl (fun acc k => if decide (k ∈ acc) then acc else acc ++ [k]) [] l.

End TasOrder.

Module DistillTables.
Import Distill.

(** Every raw agent and every link refers to a raw statement of the
    table. *)
Definition references_valid (db : database) : Prop :=
  forall i, i ∈ raw_agents db ++ raw_unique_links db ->
            exists rs, rs ∈ raw_statements db /\ rs_id rs = i.

(** The tables without the rows of the raw statements [sids]. *)
Definition without (sids : gset Z) (db : database) : database :=
  Database (filter (fun rs => rs_id rs ∉ sids) (raw_statements db))
           (filter (fun i => i ∉ sids) (raw_agents db))
           (filter (fun i => i ∉ sids) (raw_unique_links db)).

(** Two knowledge-base rows of one hash, the first of them linked; the
    second has two agents. *)
Definition two_duplicates_one_linked : database :=
  Database [RawStatement 1 70 "{}" (Some 1%Z) None;
            RawStatement 2 70 "{}" (Some 1%Z) None]
           [1%Z; 2%Z; 2%Z] [1%Z].

(** Two knowledge-base rows of different hashes, the first of them
    linked. *)
Definition two_distinct_rows : database :=
  Database [RawStatement 1 70 "{}" (Some 1%Z) None;
            RawStatement 2 71 "{}" (Some 1%Z) None]
           [1%Z; 2%Z] [1%Z].

End DistillTables.

Module DbPathSpec.
Import Distill.

(** The raw statements that the query of [get_filtered_db_stmts] selects:
    those that come from a knowledge base and pass the clauses. *)
Definition db_selected (db : database)
    (clauses : option (raw_statement -> bool)) (rs : raw_statement) : Prop :=
  rs ∈ raw_statements db /\ is_Some (rs_db_info_id rs) /\
  default (fun _ => true) clauses rs = true.


(** Every item of [g] has a smaller key than every item of [g']. *)
Definition groups_lt {A : Type} (key : A -> Z) (g g' : list A) : Prop :=
  forall x y, x ∈ g -> y ∈ g' -> (key x < key y)%Z.

(** The order of [order_by(mk_hash)] is a total preorder. *)
#[export] Instance mk_hash_le_trans : Transitive mk_hash_le.
Proof. intros a b c. unfold mk_hash_le. lia. Qed.

#[export] Instance mk_hash_le_total : Total mk_hash_le.
Proof. intros a b. unfold mk_hash_le. lia. Qed.

(** Three knowledge-base rows, two of them of one hash, and a row that is
    not from a knowledge base. *)
Definition three_rows_two_hashes : database :=
  Database [RawStatement 1 70 "{}" (Some 1%Z) None;
            RawStatement 2 71 "{}" (Some 1%Z) None;
            RawStatement 3 70 "{}" (Some 2%Z) None;
            RawStatement 4 70 "{}" None None]
           [] [3%Z].

End DbPathSpec.

Module ReadingSpec.
Import Distill DistillSpec.

(** No two sets of the list, taken at different places, share a member. *)
Definition pairwise_disjoint {A : Type} `{Countable A}
    (l : list (gset A)) : Prop :=
  forall i j g g', l !! i = Some g -> l !! j = Some g' -> i <> j -> g ## g'.


(** The raw statements that the query of [get_reading_stmt_dict] selects,
    each with its reading. *)
Definition reading_selected (db : database)
    (clauses : option (raw_statement -> bool)) (rs : raw_statement)
    (ri : reading_info) : Prop :=
  rs ∈ raw_statements db /\ rs_reading rs = Some ri /\
  default (fun _ => true) clauses rs = true.

Section Tree.
Context {Stmt : Type} `{Countable Stmt}.

(** Between two states of a loop all three sets only grow. *)
Definition grows_all {B : Type} `{SubsetEq B}
    (s s' : gset (Z * option Stmt) * gset Z * B) : Prop :=
  s.1.1 ⊆ s'.1.1 /\ s.1.2 ⊆ s'.1.2 /\ s.2 ⊆ s'.2.

(** [d[k]] read without creating the node: an empty node when absent. *)
Definition node_at {K V : Type} `{Countable K} `{Empty V}
    (k : K) (d : gmap K V) : V :=
  default ∅ (d !! k).

(** The tuples stored in the tree at a position, under a reading and a
    statement hash. *)
Definition leaf_at
    (nd : gmap Z (gmap string (gmap Z (gmap string (gmap string
            (gmap Z (gmap Z (gset (Z * option Stmt)))))))))
    (p : Z * string * Z * string * string) (rid h : Z)
  : gset (Z * option Stmt) :=
  let '(trid, src, tcid, reader, rv) := p in
  node_at h (node_at rid (node_at rv (node_at reader
    (node_at tcid (node_at src (node_at trid nd)))))).

(** The reader of a position is one of [reader_versions]. *)
Definition known_reader (p : Z * string * Z * string * string) : Prop :=
  exists rv_list, (p.1.2, rv_list) ∈ reader_versions.

(** How a kept tuple shows in the result: as its statement when full
    statements are asked for, as its id otherwise. *)
Definition kept_in (get_full_stmts : bool) (t : Z * option Stmt)
    (stmts : gset (Stmt + Z)) : Prop :=
  if get_full_stmts then forall s, t.2 = Some s -> inl s ∈ stmts
  else inr t.1 ∈ stmts.

End Tree.

Section Rows.
Context {Stmt : Type} `{Countable Stmt}.
Variable from_json : string -> Stmt.
Variable _set_evidence_text_ref : Stmt -> Z -> Stmt.
Variable get_hash : Stmt -> Z.

(** The statement object made of a selected row. *)
Definition row_statement (rs : raw_statement) (ri : reading_info) : Stmt :=
  _set_evidence_text_ref (from_json (rs_json rs)) (ri_trid ri).

(** Where a selected row is filed: its position, reading and statement
    hash, and the tuple that stands for it. *)
Definition filed_at (get_full_stmts : bool) (rs : raw_statement)
    (ri : reading_info) (reader : string)
    (p : Z * string * Z * string * string) (rid h : Z)
    (t : Z * option Stmt) : Prop :=
  p = (ri_trid ri, ri_source ri, ri_tcid ri, reader, ri_reader_version ri) /\
  rid = ri_rid ri /\ h = get_hash (row_statement rs ri) /\
  t = (rs_id rs, if get_full_stmts then Some (row_statement rs ri) else None).

End Rows.

(** *** Example rows and trees, over statements given by their JSON text *)

Definition json_length (s : string) : Z := Z.of_nat (String.length s).

(** Two rows that are exact duplicates in the best source tier, and one
    row in a worse tier of the same text ref. *)
Definition three_reading_rows : database :=
  Database
    [RawStatement 1 7 "a" None
       (Some (ReadingInfo 1 "pmc_oa" 12 100 "1.3.3-61059a-biores-"));
     RawStatement 2 7 "a" None
       (Some (ReadingInfo 1 "pmc_oa" 12 100 "1.3.3-61059a-biores-"));
     RawStatement 3 8 "bb" None
       (Some (ReadingInfo 1 "pubmed" 10 101 "1.3.3-61059a-biores-"))]
    [] [].

(** A text ref with two source tiers, one of them under a name that
    [text_content_sources] does not list. *)
Definition unlisted_source_text_ref
  : gmap string (gmap Z (gmap string (gmap string
      (gmap Z (gmap Z (gset (Z * option string))))))) :=
  {[ "pubmed" :=
       {[ 10%Z := {[ "reach" := reach_versions_of 100 [1%Z] [2%Z] ]} ]};
     "biorxiv" :=
       {[ 11%Z := {[ "reach" := reach_versions_of 102 [3%Z] [4%Z] ]} ]} ]}.

Definition unlisted_source_tree
  : gmap Z (gmap string (gmap Z (gmap string (gmap string
      (gmap Z (gmap Z (gset (Z * option string)))))))) :=
  {[ 1%Z := unlisted_source_text_ref ]}.

(** Whether a computation returns. *)
Definition returns {A : Type} (r : result A) : bool :=
  match r with Ok _ => true | Raise _ => false end.

(** A group of two exact duplicates, then a group of one. *)
Definition two_groups : list (gset (Z * option string)) :=
  [ {[ (1%Z, None); (2%Z, None) ]}; {[ (3%Z, None) ]} ].

End ReadingSpec.

(** ** Strings *)

Module PyStrFacts.
Import PyStr.

Lemma app_nil_l s : "" +:+ s = s.
Proof. reflexivity. Qed.

Lemma app_cons c u s : String c u +:+ s = String c (u +:+ s).
Proof. reflexivity. Qed.

Lemma app_nil_r s : s +:+ "" = s.
Proof. induction s as [|c s IH]; [done|]. by rewrite app_cons, IH. Qed.

Lemma app_assoc a b c : (a +:+ b) +:+ c = a +:+ b +:+ c.
Proof. induction a as [|x a IH]; [done|]. by rewrite !app_cons, IH. Qed.

Lemma length_app a b :
  String.length (a +:+ b) = (String.length a + String.length b)%nat.
Proof. induction a as [|x a IH]; [done|]. rewrite app_cons. simpl. lia. Qed.

Lemma app_inv_head a b c : a +:+ b = a +:+ c -> b = c.
Proof. apply (inj (String.app a)). Qed.

Lemma app_inv_tail a b c : a +:+ c = b +:+ c -> a = b.
Proof.
  revert b. induction a as [|x a IH]; intros [|y b] E.
  - done.
  - apply (f_equal String.length) in E.
    rewrite app_cons, app_nil_l in E. simpl in E. rewrite length_app in E. lia.
  - apply (f_equal String.length) in E.
    rewrite app_cons, app_nil_l in E. simpl in E. rewrite length_app in E. lia.
  - rewrite !app_cons in E. injection E as -> E. f_equal. by apply IH.
Qed.

Lemma all_chars_app f a b :
  all_chars f (a +:+ b) = all_chars f a && all_chars f b.
Proof.
  induction a as [|x a IH]; [done|].
  rewrite app_cons. simpl. rewrite IH. by rewrite andb_assoc.
Qed.

Lemma all_chars_impl (f g : ascii -> bool) s :
  (forall c, f c = true -> g c = true) ->
  all_chars f s = true -> all_chars g s = true.
Proof.
  intros Hfg. induction s as [|c s IH]; [done|]. simpl.
  intros [Hc Hs]%andb_true_iff. rewrite (Hfg _ Hc). by apply IH.
Qed.

Lemma drop_prefix_Some l s s' : drop_prefix l s = Some s' <-> s = l +:+ s'.
Proof.
  revert s. induction l as [|a l IH]; intros s; simpl.
  - rewrite app_nil_l. split; congruence.
  - rewrite app_cons. destruct s as [|c s]; [split; discriminate|].
    destruct (Ascii.eqb_spec a c) as [->|Hne].
    + rewrite IH. split; [by intros ->|]. by intros [= ->].
    + split; [discriminate|]. intros [= -> _]. by destruct Hne.
Qed.

Lemma drop_prefix_app l s : drop_prefix l (l +:+ s) = Some s.
Proof. by apply drop_prefix_Some. Qed.

Lemma take_app u s : take (String.length u) (u +:+ s) = u.
Proof. induction u as [|c u IH]; simpl; [by destruct s|]. by rewrite IH. Qed.

Lemma consumed_app u s : consumed (u +:+ s) s = u.
Proof.
  unfold consumed. rewrite length_app.
  replace (String.length u + String.length s - String.length s)%nat
    with (String.length u) by lia.
  apply take_app.
Qed.

(** Lines produced by [splitlines] hold no line boundary. *)
Lemma splitlines_go_break cur c s :
  is_linebreak c = true ->
  splitlines_go cur (String c s) = cur :: splitlines_go "" s ∨
  ∃ s', s = String "010"%char s' ∧
        splitlines_go cur (String c s) = cur :: splitlines_go "" s'.
Proof.
  intros Hc. destruct c as [[] [] [] [] [] [] [] []]; try discriminate Hc;
    try (left; reflexivity).
  destruct s as [|c' s']; [left; reflexivity|].
  destruct c' as [[] [] [] [] [] [] [] []];
    first [left; reflexivity | right; eexists; split; reflexivity].
Qed.

Lemma splitlines_go_no_linebreak cur s l :
  all_chars (fun c => negb (is_linebreak c)) cur = true ->
  l ∈ splitlines_go cur s ->
  all_chars (fun c => negb (is_linebreak c)) l = true.
Proof.
  remember (String.length s) as n eqn:Hn. revert s Hn cur.
  induction n as [n IH] using lt_wf_ind. intros s -> cur Hcur Hl.
  destruct s as [|c s].
  - simpl in Hl. destruct cur; [by apply elem_of_nil in Hl|].
    by apply list_elem_of_singleton in Hl as ->.
  - destruct (is_linebreak c) eqn:Hc.
    + destruct (splitlines_go_break cur c s Hc) as [E|(s' & -> & E)];
        rewrite E in Hl; apply elem_of_cons in Hl as [->|Hl]; try done.
      * refine (IH (String.length s) _ s eq_refl "" _ Hl); [simpl; lia|done].
      * refine (IH (String.length s') _ s' eq_refl "" _ Hl); [simpl; lia|done].
    + simpl in Hl. rewrite Hc in Hl.
      refine (IH (String.length s) _ s eq_refl _ _ Hl); [simpl; lia|].
      rewrite all_chars_app. simpl. by rewrite Hcur, Hc.
Qed.

Lemma splitlines_no_newline msg i l :
  splitlines msg !! i = Some l ->
  all_chars (fun c => negb (Ascii.eqb c "010")) l = true.
Proof.
  intros Hl. apply (all_chars_impl (fun c => negb (is_linebreak c))).
  - intros c. by destruct c as [[] [] [] [] [] [] [] []].
  - eapply splitlines_go_no_linebreak; [|by eapply list_elem_of_lookup_2].
    done.
Qed.

Lemma digit_val_nonneg c : is_digit c = true -> (0 <= digit_val c)%Z.
Proof. by destruct c as [[] [] [] [] [] [] [] []]. Qed.

Lemma int_go_nonneg acc s :
  (0 <= acc)%Z -> all_chars is_digit s = true -> (0 <= int_go acc s)%Z.
Proof.
  revert acc. induction s as [|c s IH]; intros acc Hacc; simpl; [done|].
  intros [Hc Hs]%andb_true_iff. apply IH; [|done].
  pose proof (digit_val_nonneg c Hc). lia.
Qed.

Lemma int_nonneg s : all_chars is_digit s = true -> (0 <= int s)%Z.
Proof. by apply int_go_nonneg. Qed.

End PyStrFacts.

(** ** The matcher finds a match exactly when there is one *)

Module ReFacts.
Import PyStr PyStrFacts Re.

Section Repeat.
Context {R : Type} (k : string -> option R) (c : cls).

Lemma lazy_star_sound s r :
  lazy_star k c s = Some r ->
  exists u s', s = u +:+ s' /\ all_chars (cls_in c) u = true /\
               k s' = Some r.
Proof.
  induction s as [|a s IH]; simpl.
  - destruct (k "") eqn:Hk; [|done]. intros [= ->]. by exists "", "".
  - destruct (k (String a s)) eqn:Hk.
    + intros [= ->]. by exists "", (String a s).
    + destruct (cls_in c a) eqn:Ha; [|done]. intros Hr.
      destruct (IH Hr) as (u & s' & -> & Hu & Hk').
      exists (String a u), s'. simpl. by rewrite Ha, Hu.
Qed.

Lemma lazy_star_complete u s' :
  all_chars (cls_in c) u = true -> is_Some (k s') ->
  is_Some (lazy_star k c (u +:+ s')).
Proof.
  intros Hu [r Hk]. induction u as [|a u IH].
  - rewrite app_nil_l. destruct s'; simpl; rewrite Hk; eauto.
  - simpl in Hu. apply andb_true_iff in Hu as [Ha Hu].
    rewrite app_cons. simpl.
    destruct (k (String a (u +:+ s'))); [eauto|].
    rewrite Ha. by apply IH.
Qed.

Lemma greedy_star_sound s r :
  greedy_star k c s = Some r ->
  exists u s', s = u +:+ s' /\ all_chars (cls_in c) u = true /\
               k s' = Some r.
Proof.
  induction s as [|a s IH]; simpl.
  - intros Hk. by exists "", "".
  - destruct (cls_in c a) eqn:Ha.
    + destruct (greedy_star k c s) as [r'|] eqn:Hg.
      * intros [= ->]. destruct (IH eq_refl) as (u & s' & -> & Hu & Hk').
        exists (String a u), s'. simpl. by rewrite Ha, Hu.
      * intros Hk. by exists "", (String a s).
    + intros Hk. by exists "", (String a s).
Qed.

Lemma greedy_star_complete u s' :
  all_chars (cls_in c) u = true -> is_Some (k s') ->
  is_Some (greedy_star k c (u +:+ s')).
Proof.
  intros Hu [r Hk]. induction u as [|a u IH].
  - rewrite app_nil_l. destruct s' as [|b s']; simpl; [by rewrite Hk|].
    destruct (cls_in c b); [|by rewrite Hk].
    destruct (greedy_star k c s'); [eauto|by rewrite Hk].
  - simpl in Hu. apply andb_true_iff in Hu as [Ha Hu].
    rewrite app_cons. simpl. rewrite Ha.
    destruct (IH Hu) as [r' ->]. eauto.
Qed.

Lemma greedy_plus_sound s r :
  greedy_plus k c s = Some r ->
  exists u s', s = u +:+ s' /\ u <> "" /\
               all_chars (cls_in c) u = true /\ k s' = Some r.
Proof.
  destruct s as [|a s]; simpl; [done|].
  destruct (cls_in c a) eqn:Ha; [|done]. intros Hg.
  destruct (greedy_star_sound _ _ Hg) as (u & s' & -> & Hu & Hk).
  exists (String a u), s'. simpl. by rewrite Ha, Hu.
Qed.

Lemma greedy_plus_complete u s' :
  u <> "" -> all_chars (cls_in c) u = true -> is_Some (k s') ->
  is_Some (greedy_plus k c (u +:+ s')).
Proof.
  destruct u as [|a u]; [done|]. intros _ Hu Hk.
  simpl in Hu. apply andb_true_iff in Hu as [Ha Hu].
  rewrite app_cons. simpl. rewrite Ha. by apply greedy_star_complete.
Qed.
End Repeat.

Lemma run_sound input p st s r :
  run input p st s = Some r -> matches input p st s r.
Proof.
  revert st s. induction p as [|a p IH]; intros st s; simpl.
  - by intros [= <-].
  - destruct a as [l|c|c|c| | | | ].
    + destruct (drop_prefix l s) as [s'|] eqn:Hl; [|done].
      apply drop_prefix_Some in Hl as ->. eauto.
    + intros (u & s' & -> & Hu & Hk)%lazy_star_sound. eauto 6.
    + intros (u & s' & -> & Hu & Hk)%greedy_star_sound. eauto 6.
    + intros (u & s' & -> & Hne & Hu & Hk)%greedy_plus_sound. eauto 7.
    + apply IH.
    + apply IH.
    + destruct (Nat.eqb_spec (String.length s) (String.length input));
        [|done]. eauto.
    + destruct s as [|b [|b' s]].
      * eauto.
      * destruct (Ascii.eqb_spec b "010"%char) as [->|Hne]; [eauto|].
        destruct b as [[] [] [] [] [] [] [] []]; done.
      * destruct b as [[] [] [] [] [] [] [] []]; done.
Qed.

Lemma run_complete input p st s r :
  matches input p st s r -> is_Some (run input p st s).
Proof.
  revert st s. induction p as [|a p IH]; intros st s; simpl; [eauto|].
  destruct a as [l|c|c|c| | | | ].
  - intros (s' & -> & Hm). rewrite drop_prefix_app. eauto.
  - intros (u & s' & -> & Hu & Hm). apply lazy_star_complete; eauto.
  - intros (u & s' & -> & Hu & Hm). apply greedy_star_complete; eauto.
  - intros (u & s' & -> & Hne & Hu & Hm).
    apply greedy_plus_complete; eauto.
  - apply IH.
  - apply IH.
  - intros [-> Hm]. rewrite Nat.eqb_refl. eauto.
  - intros [[-> | ->] Hm]; eauto.
Qed.

Lemma re_match_sound p s r :
  re_match p s = Some r -> matches s p (MState None []) s r.
Proof. apply run_sound. Qed.

Lemma re_match_complete p s r :
  matches s p (MState None []) s r -> is_Some (re_match p s).
Proof. apply run_complete. Qed.

End ReFacts.

(** ** [submit_curation] *)

Module CurationFacts.
Import PyStr PyStrFacts Re ReFacts Curation CurationSpec.

Lemma no_newline_app a b : no_newline (a +:+ b) <-> no_newline a /\ no_newline b.
Proof. unfold no_newline. rewrite all_chars_app. apply andb_true_iff. Qed.

Lemma pa_hash_match_sound d gs :
  re_match pa_hash_pattern d = Some gs ->
  exists h, gs = [h] /\ bad_hash_detail d h.
Proof.
  intros Hm%re_match_sound. simpl in Hm.
  destruct Hm as (s1 & E1 & a & s2 & -> & _ & s3 & -> & h & s4 & -> & Hne &
                  Hh & s5 & -> & b & s6 & -> & _ & s7 & -> & c & s8 & -> &
                  _ & s9 & -> & e' & e & -> & _ & ->).
  exists h. split.
  - unfold close_group, open_group. simpl. by rewrite consumed_app.
  - exists a, b, c, (e' +:+ e). by rewrite E1.
Qed.

Lemma pa_hash_match_complete d h :
  no_newline d -> bad_hash_detail d h ->
  is_Some (re_match pa_hash_pattern d).
Proof.
  intros Hd (a & b & c & e & E & Hne & Hh).
  rewrite E in Hd. repeat (apply no_newline_app in Hd as [? Hd]).
  apply (re_match_complete _ _ [h]). simpl.
  eexists. split; [exact E|].
  exists a. eexists. split; [done|]. split; [done|].
  eexists. split; [done|].
  exists h. eexists. split; [done|]. split; [done|]. split; [done|].
  eexists. split; [done|].
  exists b. eexists. split; [done|]. split; [done|].
  eexists. split; [done|].
  exists c. eexists. split; [done|]. split; [done|].
  eexists. split; [done|].
  exists "", e. split; [done|]. split; [done|].
  unfold close_group, open_group. simpl. by rewrite consumed_app.
Qed.

Lemma followed_by_check_sound marker next s :
  followed_by_check marker next s = true ->
  always_followed_by marker next s.
Proof.
  intros Hc a. revert s Hc. induction a as [|x a IH]; intros s Hc b ->.
  - rewrite app_nil_l in Hc. destruct (marker +:+ b) eqn:E; simpl in Hc;
      rewrite <- ?E in Hc; rewrite drop_prefix_app in Hc;
      apply andb_true_iff in Hc as [Hc _];
      apply bool_decide_eq_true in Hc as [post Hp];
      apply drop_prefix_Some in Hp; eauto.
  - rewrite app_cons in Hc. simpl in Hc.
    apply andb_true_iff in Hc as [_ Hc]. by eapply IH.
Qed.

Lemma str_negative n : (n < 0)%Z -> exists s, str n = String "-" s.
Proof. intros Hn. unfold str. rewrite (proj2 (Z.ltb_lt _ _) Hn). eauto. Qed.

Lemma bad_hash_detail_marker d h :
  bad_hash_detail d h ->
  exists a b, d = a +:+ "(pa_hash)=(" +:+ b /\
              exists x b', b = String x b' /\ is_digit x = true.
Proof.
  intros (a & b & c & e & -> & Hne & Hh).
  exists ("DETAIL: " +:+ a). eexists. split; [by rewrite app_assoc|].
  destruct h as [|x h]; [done|]. simpl in Hh.
  apply andb_true_iff in Hh as [Hx _]. rewrite app_cons. eauto.
Qed.

(** C1: when the insertion raises an integrity error whose second message
    line names a bad hash, the pattern matches, the captured digits are
    compared as an integer with [hash_val], equality raises
    [BadHashError] with the captured hash and inequality fails the
    assertion; when the line does not have that form, the integrity error
    is raised again as it was and no [BadHashError] is raised. *)
Theorem submit_curation_integrity_error
    (hash_val : Z) (tag curator ip : string) (text : option string)
    (ev_hash : option Z) (source : string) (db : database)
    (msg detail_line : string) :
  db_insert db (CurationRow tag text curator ip source hash_val ev_hash)
    = Raise (IntegrityError msg) ->
  splitlines msg !! 1%nat = Some detail_line ->
  ((exists h, bad_hash_detail detail_line h) ->
   exists h,
     re_match pa_hash_pattern detail_line = Some [h] /\
     bad_hash_detail detail_line h /\
     (int h = hash_val ->
      submit_curation hash_val tag curator ip text ev_hash source db
        = Raise (BadHashError h)) /\
     (int h <> hash_val ->
      submit_curation hash_val tag curator ip text ev_hash source db
        = Raise AssertionError)) /\
  ((forall h, ~ bad_hash_detail detail_line h) ->
   re_match pa_hash_pattern detail_line = None /\
   submit_curation hash_val tag curator ip text ev_hash source db
     = Raise (IntegrityError msg) /\
   forall h,
     submit_curation hash_val tag curator ip text ev_hash source db
       <> Raise (BadHashError h)).
Proof.
  intros Hins Hline. unfold submit_curation. rewrite Hins, Hline. split.
  - intros [h0 Hd].
    destruct (pa_hash_match_complete detail_line h0) as [gs Hm];
      [by eapply splitlines_no_newline|done|].
    destruct (pa_hash_match_sound _ _ Hm) as (h & -> & Hh).
    exists h. rewrite Hm. simpl. repeat split; [done|..];
      intros; by case_decide.
  - intros Hno. destruct (re_match pa_hash_pattern detail_line) as [gs|] eqn:Hm.
    + destruct (pa_hash_match_sound _ _ Hm) as (h & _ & Hh).
      by destruct (Hno h).
    + done.
Qed.

Lemma submit_curation_integrity_error_witness :
  let msg := "(psycopg2.errors.ForeignKeyViolation) insert or update on table curation violates foreign key constraint
DETAIL:  Key (pa_hash)=(12345) is not present in table pa_statements.
" in
  let db := Database (fun _ => Raise (IntegrityError msg)) [] in
  submit_curation 12345 "wrong_relation" "curator" "127.0.0.1" None None
    "direct_client" db = Raise (BadHashError "12345").
Proof.
  intros msg db.
  destruct (submit_curation_integrity_error 12345 "wrong_relation" "curator"
              "127.0.0.1" None None "direct_client" db msg
              "DETAIL:  Key (pa_hash)=(12345) is not present in table pa_statements."
              eq_refl eq_refl) as [Hyes _].
  destruct Hyes as (h & Hm & _ & Heq & _).
  - exists "12345". exists " Key ", " is ", " in table ", "_statements.".
    repeat split; done.
  - vm_compute in Hm. injection Hm as <-. by apply Heq.
Defined.

(** C10: with a negative [hash_val] the bad-hash error is never raised;
    and when every (pa_hash)=( of the detail line is followed by the
    decimal text of [hash_val], which then starts with a minus sign, the
    pattern cannot match and the integrity error is raised again as it
    was. *)
Theorem submit_curation_negative_hash
    (hash_val : Z) (tag curator ip : string) (text : option string)
    (ev_hash : option Z) (source : string) (db : database) (msg : string) :
  (hash_val < 0)%Z ->
  db_insert db (CurationRow tag text curator ip source hash_val ev_hash)
    = Raise (IntegrityError msg) ->
  (forall h,
     submit_curation hash_val tag curator ip text ev_hash source db
       <> Raise (BadHashError h)) /\
  (forall detail_line,
     splitlines msg !! 1%nat = Some detail_line ->
     always_followed_by "(pa_hash)=(" (str hash_val) detail_line ->
     re_match pa_hash_pattern detail_line = None /\
     submit_curation hash_val tag curator ip text ev_hash source db
       = Raise (IntegrityError msg)).
Proof.
  intros Hneg Hins. unfold submit_curation. rewrite Hins. split.
  - intros h. destruct (splitlines msg !! 1%nat) as [d|]; [|done].
    destruct (re_match pa_hash_pattern d) as [gs|] eqn:Hm; [|done].
    destruct (pa_hash_match_sound _ _ Hm) as (h' & -> & Hh). simpl.
    case_decide as Hint; [|done].
    destruct Hh as (_ & _ & _ & _ & _ & _ & Hdig).
    pose proof (int_nonneg _ Hdig). lia.
  - intros d Hline Hfol. rewrite Hline.
    destruct (re_match pa_hash_pattern d) as [gs|] eqn:Hm; [|done].
    destruct (pa_hash_match_sound _ _ Hm) as (h & _ & Hh).
    destruct (bad_hash_detail_marker _ _ Hh) as (a & b & E & x & b' & -> & Hx).
    destruct (Hfol _ _ E) as [post Hpost].
    destruct (str_negative _ Hneg) as [s Hs]. rewrite Hs in Hpost.
    rewrite app_cons in Hpost. injection Hpost as -> _. done.
Qed.

Lemma submit_curation_negative_hash_witness :
  let msg := "(psycopg2.errors.ForeignKeyViolation) insert or update on table curation violates foreign key constraint
DETAIL:  Key (pa_hash)=(-12345) is not present in table pa_statements.
" in
  let db := Database (fun _ => Raise (IntegrityError msg)) [] in
  submit_curation (-12345) "wrong_relation" "curator" "127.0.0.1" None None
    "direct_client" db = Raise (IntegrityError msg).
Proof.
  intros msg db.
  destruct (submit_curation_negative_hash (-12345) "wrong_relation"
              "curator" "127.0.0.1" None None "direct_client" db msg)
    as [_ Hre]; [done|done|].
  refine (proj2 (Hre _ eq_refl _)).
  apply followed_by_check_sound. by vm_compute.
Defined.

End CurationFacts.

(** ** [get_grounding_curations] *)

Module GroundingFacts.
Import PyStr PyStrFacts Re ReFacts Curation GroundingSpec.

Lemma no_char_app x a b : no_char x (a +:+ b) <-> no_char x a /\ no_char x b.
Proof. unfold no_char. rewrite all_chars_app. apply andb_true_iff. Qed.

Lemma no_char_cons x c s :
  no_char x (String c s) <-> c <> x /\ no_char x s.
Proof.
  unfold no_char. simpl. rewrite andb_true_iff, negb_true_iff.
  by destruct (Ascii.eqb_spec c x); intuition.
Qed.

Lemma app_snoc_inv u c : u +:+ String c "" <> "".
Proof. by destruct u. Qed.

(** *** [strip] leaves no white space at the end *)
Lemma rstrip_last s u c :
  rstrip s = u +:+ String c "" -> is_whitespace c = false.
Proof.
  revert u. induction s as [|x s IH]; intros u; simpl.
  - intros E. by destruct (app_snoc_inv u c).
  - destruct (rstrip s) as [|y r] eqn:Hr.
    + destruct (is_whitespace x) eqn:Hx.
      * intros E. by destruct (app_snoc_inv u c).
      * destruct u as [|z u]; [by intros [= <-]|].
        rewrite app_cons. intros [= _ E]. by destruct (app_snoc_inv u c).
    + destruct u as [|z u]; [done|].
      rewrite app_cons. intros [= _ E]. by eapply IH.
Qed.

Lemma strip_last t u c :
  strip t = u +:+ String c "" -> is_whitespace c = false.
Proof. apply rstrip_last. Qed.

(** *** [split] and [join] *)
Lemma split_nonempty sep s : split sep s <> [].
Proof.
  destruct s as [|c s]; simpl; [done|].
  destruct (Ascii.eqb c sep); [done|]. by destruct (split sep s).
Qed.

Lemma join_cons sep x y ys :
  join sep (x :: y :: ys) = x +:+ String sep (join sep (y :: ys)).
Proof. reflexivity. Qed.

Lemma split_join sep xs :
  xs <> [] -> Forall (no_char sep) xs -> split sep (join sep xs) = xs.
Proof.
  induction xs as [|x xs IH]; [done|]. intros _ Hall.
  apply Forall_cons in Hall as [Hx Hxs].
  assert (forall rest, split sep (x +:+ rest) =
            match split sep rest with
            | w :: ws => (x +:+ w) :: ws
            | [] => [x +:+ ""]
            end) as Hpre.
  { intros rest. pose proof (split_nonempty sep rest) as Hne.
    induction x as [|c x IHx].
    - rewrite app_nil_l. by destruct (split sep rest).
    - apply no_char_cons in Hx as [Hc Hx]. rewrite app_cons. simpl.
      destruct (Ascii.eqb_spec c sep) as [->|_]; [done|].
      rewrite (IHx Hx). by destruct (split sep rest). }
  destruct xs as [|y ys].
  - simpl. specialize (Hpre ""). rewrite app_nil_r in Hpre.
    rewrite Hpre. simpl. by rewrite app_nil_r.
  - assert (forall r, split sep (String sep r) = "" :: split sep r) as Hsep
      by (intros r; simpl; by rewrite Ascii.eqb_refl).
    rewrite join_cons, Hpre, Hsep, IH by done. by rewrite app_nil_r.
Qed.

Lemma split_spec sep s :
  join sep (split sep s) = s /\ Forall (no_char sep) (split sep s).
Proof.
  induction s as [|c s [IHj IHf]]; simpl; [by repeat constructor|].
  pose proof (split_nonempty sep s) as Hne.
  destruct (Ascii.eqb_spec c sep) as [->|Hc].
  - destruct (split sep s) as [|w ws]; [done|]. split.
    + rewrite join_cons, IHj. by rewrite app_nil_l.
    + by constructor.
  - destruct (split sep s) as [|w ws]; [done|].
    apply Forall_cons in IHf as [Hw Hws]. split.
    + destruct ws as [|w' ws]; simpl in *; [by rewrite IHj|].
      by rewrite app_cons, IHj.
    + constructor; [by apply no_char_cons|done].
Qed.

Lemma split1_pair sep k v :
  no_char sep k -> split1 sep (k +:+ String sep v) = [k; v].
Proof.
  induction k as [|c k IH].
  - intros _. rewrite app_nil_l. simpl. by rewrite Ascii.eqb_refl.
  - intros [Hc Hk]%no_char_cons. rewrite app_cons. simpl.
    destruct (Ascii.eqb_spec c sep) as [->|_]; [done|]. by rewrite IH.
Qed.

Lemma split1_cases sep s :
  (split1 sep s = [s] /\ no_char sep s) \/
  (exists k v, split1 sep s = [k; v] /\ s = k +:+ String sep v /\
               no_char sep k).
Proof.
  induction s as [|c s IH]; simpl; [by left|].
  destruct (Ascii.eqb_spec c sep) as [->|Hc].
  - right. by exists "", s.
  - destruct IH as [[-> Hs]|(k & v & -> & -> & Hk)].
    + left. split; [done|]. by apply no_char_cons.
    + right. exists (String c k), v. split; [done|]. split; [done|].
      by apply no_char_cons.
Qed.

(** *** The ID list *)
Lemma dbids_of_entries_pairs (entries : list (string * string)) acc :
  Forall (fun e => no_char ":" e.1) entries ->
  dbids_of_entries
    (split1 ":" <$> ((fun e => e.1 +:+ String ":" e.2) <$> entries)) acc
  = Some (foldl (fun acc e => <[e.1 := e.2]> acc) acc entries).
Proof.
  revert acc. induction entries as [|[k v] es IH]; intros acc Hall; [done|].
  apply Forall_cons in Hall as [Hk Hes]. simpl in *.
  rewrite split1_pair by done. by apply IH.
Qed.

Lemma dbids_of_entries_inv parts acc d :
  dbids_of_entries (split1 ":" <$> parts) acc = Some d ->
  exists entries : list (string * string),
    parts = (fun e => e.1 +:+ String ":" e.2) <$> entries /\
    Forall (fun e => no_char ":" e.1) entries /\
    d = foldl (fun acc e => <[e.1 := e.2]> acc) acc entries.
Proof.
  revert acc. induction parts as [|p ps IH]; intros acc; simpl.
  - intros [= <-]. by exists [].
  - destruct (split1_cases ":" p) as [[-> _]|(k & v & -> & -> & Hk)];
      [done|].
    intros (es & -> & Hes & ->)%IH.
    exists ((k, v) :: es). split; [done|]. split; [by constructor|done].
Qed.

Lemma parse_dbids_spec ids d :
  parse_dbids ids = Some d <->
  exists entries, id_list ids entries /\ d = dbids_of entries.
Proof.
  unfold parse_dbids. split.
  - intros (es & Hparts & Hes & ->)%dbids_of_entries_inv.
    destruct (split_spec "|" ids) as [Hj Hf]. rewrite Hparts in Hj, Hf.
    exists es. split; [|done]. repeat split.
    + intros ->. by apply (split_nonempty "|" ids).
    + done.
    + rewrite Forall_fmap in Hf. rewrite Forall_forall in Hf, Hes |- *.
      intros e He. specialize (Hf e He). simpl in Hf.
      apply no_char_app in Hf as [? [_ ?]%no_char_cons]. auto.
  - intros (es & (Hne & -> & Hall) & ->).
    rewrite split_join.
    + apply dbids_of_entries_pairs. eapply Forall_impl; [done|].
      by intros e (? & _).
    + by destruct es.
    + rewrite Forall_fmap. eapply Forall_impl; [done|].
      intros e (? & ? & ?). simpl. apply no_char_app. split; [done|].
      by apply no_char_cons.
Qed.

(** *** The grounding pattern *)
Lemma grounding_match_sound s gs :
  re_match grounding_pattern s = Some gs ->
  exists m ids tail,
    gs = [m; ids] /\ s = "[" +:+ m +:+ "] -> " +:+ ids +:+ tail /\
    (tail = "" \/ tail = String "010" "") /\
    no_char "010" m /\ ids <> "" /\ no_char " " ids.
Proof.
  intros Hm%re_match_sound. simpl in Hm.
  destruct Hm as (_ & s1 & E & m & s2 & -> & Hm & s3 & -> & ids & tail &
                  -> & Hne & Hids & Htail & ->).
  exists m, ids, tail. unfold close_group, open_group. simpl.
  rewrite !consumed_app. by rewrite E.
Qed.

Lemma grounding_match_complete s m ids :
  grounding_text s m ids -> is_Some (re_match grounding_pattern s).
Proof.
  intros (E & Hm & Hne & Hids).
  apply (re_match_complete _ _ [m; ids]). simpl. split; [done|].
  eexists. split; [exact E|]. exists m. eexists. split; [done|].
  split; [done|]. eexists. split; [done|]. exists ids, "".
  rewrite app_nil_r. split; [done|]. split; [done|]. split; [done|].
  split; [by left|]. unfold close_group, open_group. simpl.
  f_equal; [symmetry; apply consumed_app|]. f_equal.
  pose proof (consumed_app ids "") as Hc. by rewrite app_nil_r in Hc.
Qed.

Lemma space_split_unique u x u' x' :
  u +:+ String " " x = u' +:+ String " " x' ->
  no_char " " x -> no_char " " x' -> u = u' /\ x = x'.
Proof.
  intros E Hx Hx'. revert u' E.
  induction u as [|c u IH]; intros [|c' u']; rewrite ?app_nil_l, ?app_cons.
  - by intros [= ->].
  - intros [= <- ->]. apply no_char_app in Hx as [_ [? _]%no_char_cons].
    done.
  - intros [= -> <-]. apply no_char_app in Hx' as [_ [? _]%no_char_cons].
    done.
  - intros [= -> E]. destruct (IH _ E) as [-> ->]. done.
Qed.

Lemma ends_with_newline_not_stripped t u :
  strip t <> u +:+ String "010" "".
Proof. intros E%strip_last. done. Qed.

Lemma grounding_match_stripped t gs :
  re_match grounding_pattern (strip t) = Some gs ->
  exists m ids, gs = [m; ids] /\ grounding_text (strip t) m ids.
Proof.
  intros (m & ids & tail & -> & E & [-> | ->] & Hm & Hne & Hids)
    %grounding_match_sound.
  - rewrite app_nil_r in E. by exists m, ids.
  - rewrite <- !app_assoc in E. by apply ends_with_newline_not_stripped in E.
Qed.

Lemma grounding_match_unique t m ids :
  grounding_text (strip t) m ids ->
  re_match grounding_pattern (strip t) = Some [m; ids].
Proof.
  intros Hg. destruct (grounding_match_complete _ _ _ Hg) as [gs Hgs].
  rewrite Hgs. f_equal.
  destruct (grounding_match_stripped _ _ Hgs) as (m' & ids' & -> & Hg').
  destruct Hg as (E & Hm & Hne & Hids), Hg' as (E' & Hm' & Hne' & Hids').
  rewrite E in E'.
  assert (forall a b, "[" +:+ a +:+ "] -> " +:+ b
                      = ("[" +:+ a +:+ "] ->") +:+ String " " b) as Hre
    by (intros a b; by rewrite !app_assoc).
  rewrite !Hre in E'.
  apply space_split_unique in E' as [Em ->]; [|done..].
  apply app_inv_head, app_inv_tail in Em as ->. done.
Qed.

(** A curation is not skipped exactly when it contributes. *)
Lemma grounding_entry_spec cur m d :
  grounding_entry cur = Some (m, d) <-> contributes cur m d.
Proof.
  unfold grounding_entry, contributes. split.
  - destruct (text cur) as [t|]; [|done]. intros Hentry.
    assert (match re_match grounding_pattern (strip t) with
            | Some [txt; dbid_str] =>
                match parse_dbids dbid_str with
                | Some dbids => Some (txt, dbids)
                | None => None
                end
            | _ => None
            end = Some (m, d)) as Hm by (by destruct t).
    clear Hentry.
    destruct (re_match grounding_pattern (strip t)) as [gs|] eqn:Hgs;
      [|done].
    destruct (grounding_match_stripped _ _ Hgs) as (m' & ids & -> & Hg).
    destruct (parse_dbids ids) as [d'|] eqn:Hp; [|done].
    injection Hm as -> ->.
    apply parse_dbids_spec in Hp as (es & Hes & ->). eauto 8.
  - intros (t & ids & es & -> & Hg & Hes & ->).
    assert (parse_dbids ids = Some (dbids_of es)) as Hp
      by (apply parse_dbids_spec; eauto).
    destruct t as [|c t].
    + by destruct Hg as (? & _).
    + by rewrite (grounding_match_unique _ _ _ Hg), Hp.
Qed.

(** *** The loop: the last contribution for a mention wins *)
Lemma foldl_grounding_step curs g m :
  foldl grounding_step g curs !! m =
  match last_contribution m curs with
  | Some d => Some d
  | None => g !! m
  end.
Proof.
  induction curs as [|cur curs IH] using rev_ind; [done|].
  rewrite foldl_app. unfold last_contribution. rewrite omap_app. simpl.
  unfold grounding_step at 1.
  destruct (grounding_entry cur) as [[m' d]|]; simpl.
  - case_decide as Hmm; subst.
    + rewrite last_snoc. by rewrite lookup_insert_eq.
    + rewrite List.app_nil_r. by rewrite lookup_insert_ne.
  - by rewrite List.app_nil_r.
Qed.

Lemma get_curations_grounding db :
  get_curations db [("tag", Scalar (VStr "grounding"))]
  = Ok (filter (fun cur => tag cur = "grounding") (db_curations db)).
Proof.
  unfold get_curations. simpl. f_equal.
  induction (db_curations db) as [|cur curs IH]; [done|].
  rewrite !filter_cons, IH. simpl.
  destruct (decide (tag cur = "grounding")) as [E|Hne].
  - rewrite E. by rewrite bool_decide_eq_true_2.
  - rewrite bool_decide_eq_false_2 by congruence. done.
Qed.

(** C6 (as amended): the curations tagged grounding are processed in
    order; one contributes exactly when its text, stripped of surrounding
    white space, is a bracketed mention, the arrow and a well-formed ID
    list, and then it maps its mention to the dict of its entries;
    curations without text, with other text or with a malformed ID list
    add nothing; the result maps each mention to its last contribution. *)
Theorem get_grounding_curations_spec (db : database) :
  (forall cur m d, grounding_entry cur = Some (m, d) <-> contributes cur m d) /\
  (forall cur, text cur = None \/ text cur = Some "" ->
               grounding_entry cur = None) /\
  (exists g,
     get_grounding_curations db = Ok g /\
     forall m,
       g !! m =
       last_contribution m
         (filter (fun cur => tag cur = "grounding") (db_curations db))) /\
  (forall ins curator ip source pa_hash source_hash,
     get_grounding_curations
       (Database ins
          [CurationRow "grounding" (Some "[fever] -> MESH:D005334|TEXT:fever")
             curator ip source pa_hash source_hash])
     = Ok {[ "fever" := {[ "MESH" := "D005334"; "TEXT" := "fever" ]} ]}).
Proof.
  split; [apply grounding_entry_spec|]. split.
  { intros cur [E|E]; unfold grounding_entry; by rewrite E. }
  split.
  - unfold get_grounding_curations. rewrite get_curations_grounding.
    eexists. split; [reflexivity|]. intros m.
    rewrite foldl_grounding_step. rewrite lookup_empty.
    by destruct (last_contribution _ _).
  - intros. by vm_compute.
Qed.

(** The claim without the stripping fails: this text does not match the
    pattern, and the curation contributes all the same. *)
Lemma grounding_unstripped_text_contributes :
  let t := " [fever] -> MESH:D005334|TEXT:fever" in
  re_match grounding_pattern t = None /\
  get_grounding_curations
    (Database (fun _ => Ok 0%Z)
       [CurationRow "grounding" (Some t) "curator" "127.0.0.1"
          "direct_client" 12345 None])
  = Ok {[ "fever" := {[ "MESH" := "D005334"; "TEXT" := "fever" ]} ]}.
Proof. split; by vm_compute. Qed.

End GroundingFacts.

(** ** [PreassemblySubmitter._get_command] *)

Module SubmitterFacts.
Import PreassemblySubmitter.

(** C7: when the task is in [job_type_set] the job name is
    job_base, task and statement type joined by underscores and the
    command is the fixed argument vector, with [-c] appended exactly when
    [continuing] is true (and never when it is left out); when the task
    is not in [job_type_set], no job is produced. *)
Theorem get_command_spec (bucket_name : string) (self : submitter)
    (job_type_set : list string) (stmt_type : string) (batch_size : Z)
    (continuing : bool) :
  let job_name := job_base self +:+ "_" +:+ task self +:+ "_" +:+ stmt_type in
  let cmd :=
    ["python3"; "-m"; "indra_db.preassembly.preassemble_db"; task self;
     "-n"; "32"; "-C";
     "s3://" +:+ bucket_name +:+ "/" +:+ s3_base self +:+ "/" +:+ job_name;
     "-T"; stmt_type; "-Y"; "-b"; PyStr.str batch_size] in
  (task self ∈ job_type_set ->
   _get_command bucket_name self job_type_set
     [PStr stmt_type; PInt batch_size; PBool continuing]
   = Ok (Some job_name, Some (cmd ++ if continuing then ["-c"] else [])) /\
   _get_command bucket_name self job_type_set
     [PStr stmt_type; PInt batch_size]
   = Ok (Some job_name, Some cmd)) /\
  (task self ∉ job_type_set ->
   _get_command bucket_name self job_type_set
     [PStr stmt_type; PInt batch_size; PBool continuing]
   = Ok (None, None) /\
   _get_command bucket_name self job_type_set
     [PStr stmt_type; PInt batch_size]
   = Ok (None, None)).
Proof.
  intros job_name cmd. unfold _get_command. simpl. split; intros Hin.
  - rewrite bool_decide_eq_true_2 by done. simpl.
    split; [|done]. by destruct continuing.
  - by rewrite bool_decide_eq_false_2.
Qed.

Lemma get_command_spec_witness :
  _get_command "bigmech" (Submitter "run1" "preassembly/run1" "update")
    ["create"; "update"] [PStr "Phosphorylation"; PInt 2000; PBool true]
  = Ok (Some "run1_update_Phosphorylation",
        Some ["python3"; "-m"; "indra_db.preassembly.preassemble_db";
              "update"; "-n"; "32"; "-C";
              "s3://bigmech/preassembly/run1/run1_update_Phosphorylation";
              "-T"; "Phosphorylation"; "-Y"; "-b"; "2000"; "-c"]).
Proof.
  refine (proj1 (proj1 (get_command_spec "bigmech"
            (Submitter "run1" "preassembly/run1" "update")
            ["create"; "update"] "Phosphorylation" 2000 true) _)).
  simpl. set_solver.
Defined.

End SubmitterFacts.

(** ** The TAS manager *)

Module TasFacts.
Import TasManager TasSpec.

Lemma choose_better_new s i :
  get_order_value s = Ok i -> choose_better [Some s; None] = Ok s.
Proof. intros Hs. unfold choose_better. simpl. by rewrite Hs. Qed.

Lemma choose_better_two s old i j :
  get_order_value s = Ok i -> get_order_value old = Ok j ->
  choose_better [Some s; Some old] = Ok (if (j <? i)%nat then old else s).
Proof.
  intros Hs Ho. unfold choose_better. simpl. rewrite Hs. simpl.
  rewrite Ho. simpl. by destruct (j <? i)%nat.
Qed.

Lemma dict_get_set {V : Type} k k' (v : V) d :
  dict_get k' (dict_set k v d) = if decide (k' = k) then Some v else dict_get k' d.
Proof.
  induction d as [|[k0 v0] d IH]; simpl.
  - by destruct (decide (k' = k)).
  - destruct (decide (k = k0)) as [->|Hk]; simpl.
    + by destruct (decide (k' = k0)).
    + destruct (decide (k' = k0)) as [->|Hk'].
      * rewrite decide_False by done. done.
      * done.
Qed.

Lemma dict_set_keys {V : Type} k (v : V) d :
  NoDup d.*1 -> NoDup (dict_set k v d).*1 /\
  (forall k', k' ∈ (dict_set k v d).*1 <-> k' = k \/ k' ∈ d.*1).
Proof.
  induction d as [|[k0 v0] d IH]; simpl.
  - intros _. split; [apply NoDup_singleton|]. intros k'. set_solver.
  - intros [Hk0 Hd]%NoDup_cons. destruct (IH Hd) as [IH1 IH2].
    destruct (decide (k = k0)) as [->|Hk]; simpl.
    + split; [by apply NoDup_cons|]. intros k'. set_solver.
    + split.
      * apply NoDup_cons. split; [|done]. rewrite IH2. set_solver.
      * intros k'. rewrite !elem_of_cons, IH2. tauto.
Qed.

Lemma dict_get_elem {V : Type} k (v : V) d :
  NoDup d.*1 -> (k, v) ∈ d <-> dict_get k d = Some v.
Proof.
  induction d as [|[k0 v0] d IH]; simpl.
  - intros _. split; [by intros ?%elem_of_nil|done].
  - intros [Hk0 Hd]%NoDup_cons. rewrite elem_of_cons, (IH Hd).
    destruct (decide (k = k0)) as [->|Hk].
    + split; [intros [[= ->]|Hg]; [done|]|intros [= ->]; by left].
      destruct Hk0. apply list_elem_of_fmap. exists (k0, v).
      split; [done|]. by apply (IH Hd).
    + split; [intros [[= -> ->]|Hg]; done|by right].
Qed.

Lemma collect_spec stmts seen d :
  (forall s, s ∈ stmts -> exists i, get_order_value s = Ok i) ->
  (forall s, s ∈ seen -> exists i, get_order_value s = Ok i) ->
  collected seen d ->
  exists d', collect stmts d = Ok d' /\ collected (seen ++ stmts) d'.
Proof.
  revert seen d. induction stmts as [|s stmts IH]; intros seen d Hv Hseen Hc.
  - exists d. by rewrite List.app_nil_r.
  - destruct (Hv s) as [i Hi]; [by left|].
    destruct Hc as (Hnd & Hkeys & Hbest).
    assert (exists best,
              choose_better [Some s; dict_get (matches_key s) d] = Ok best /\
              matches_key best = matches_key s /\ best ∈ seen ++ [s] /\
              ranks_before_or_with best s /\
              (forall old, dict_get (matches_key s) d = Some old ->
                           ranks_before_or_with best old))
      as (best & Hcb & Hmk & Hin & Hrs & Hro).
    { destruct (dict_get (matches_key s) d) as [old|] eqn:Hold.
      - destruct (Hkeys _ _ Hold) as [Hmk Hoin].
        destruct (Hseen old Hoin) as [j Hj].
        exists (if (j <? i)%nat then old else s).
        split; [by apply choose_better_two|].
        destruct (Nat.ltb_spec j i).
        + repeat split; [done|set_solver|exists j, i; split_and!; [done..|lia]|].
          intros ? [= <-]. exists j, j. by split_and!.
        + repeat split; [set_solver|exists i, i; by split_and!|].
          intros ? [= <-]. exists i, j. by split_and!.
      - exists s. split; [by eapply choose_better_new|].
        repeat split; [set_solver|exists i, i; by split_and!|done]. }
    simpl. rewrite Hcb. simpl.
    destruct (IH (seen ++ [s]) (dict_set (matches_key s) best d))
      as (d' & Hd' & Hc').
    + intros s' Hs'. apply Hv. by right.
    + intros s' [Hs'| ->%list_elem_of_singleton]%elem_of_app; eauto.
    + destruct (dict_set_keys (matches_key s) best d Hnd) as [Hnd' _].
      split; [done|]. split.
      * intros k v. rewrite dict_get_set. case_decide as Hk.
        -- intros [= <-]. by subst.
        -- intros Hg. destruct (Hkeys _ _ Hg). set_solver.
      * intros s' [Hs'| ->%list_elem_of_singleton]%elem_of_app;
          rewrite dict_get_set; case_decide as Hk.
        -- exists best. split; [done|].
           destruct (Hbest s' Hs') as (v & Hv' & Hvs'). rewrite Hk in Hv'.
           destruct (Hro _ Hv') as (a & b & Ha & Hb & Hab).
           destruct Hvs' as (b' & c & Hb' & Hc & Hbc).
           exists a, c. split_and!; [done..|]. rewrite Hb in Hb'.
           injection Hb' as <-. lia.
        -- by apply Hbest.
        -- eauto.
        -- done.
    + exists d'. split; [done|]. by rewrite <- app_assoc in Hc'.
Qed.

(** C8: when every candidate has a known [class_min], the manager keeps,
    for every matching key, one of the candidates with that key, and no
    candidate with that key ranks strictly earlier than the kept one; of
    two candidates with the two classes, in either order, the one with
    Kd < 100nM is kept. *)
Theorem tas_keeps_best_class_min (statements : list statement) :
  (forall s, s ∈ statements -> exists i, get_order_value s = Ok i) ->
  (exists kept,
     _get_statements statements = Ok kept /\
     NoDup (matches_key <$> kept) /\
     (forall v, v ∈ kept -> v ∈ statements) /\
     (forall s, s ∈ statements ->
        exists v, v ∈ kept /\ matches_key v = matches_key s /\
                  ranks_before_or_with v s)) /\
  (forall a b,
     statements = [a; b] \/ statements = [b; a] ->
     matches_key a = matches_key b ->
     class_min_of a "Kd < 100nM" -> class_min_of b "100nM < Kd < 1uM" ->
     _get_statements statements = Ok [a]).
Proof.
  intros Hvalid. split.
  - destruct (collect_spec statements [] [] Hvalid) as (d & Hd & Hc).
    { by intros s ?%elem_of_nil. }
    { split; [constructor|]. split; [done|]. by intros s ?%elem_of_nil. }
    destruct Hc as (Hnd & Hkeys & Hbest). simpl in *.
    exists d.*2. unfold _get_statements. rewrite Hd. simpl.
    assert (forall k v, (k, v) ∈ d -> matches_key v = k /\ v ∈ statements)
      as Hd2 by (intros k v Hkv; apply Hkeys; by apply dict_get_elem).
    split; [done|]. split; [|split].
    + assert (matches_key <$> d.*2 = d.*1) as ->; [|done].
      clear -Hd2. induction d as [|[k v] d IH]; [done|]. simpl. f_equal.
      * apply Hd2. by left.
      * apply IH. intros k' v' Hin. apply Hd2. by right.
    + intros v ([k v'] & -> & Hin)%list_elem_of_fmap.
      by destruct (Hd2 _ _ Hin).
    + intros s Hs. destruct (Hbest s Hs) as (v & Hg & Hr).
      exists v. apply dict_get_elem in Hg; [|done].
      split; [|split; [by apply Hd2|done]].
      apply list_elem_of_fmap. by exists (matches_key s, v).
  - intros a b Hst Hmk (eva & ra & Hea & Haa) (evb & rb & Heb & Hab).
    assert (get_order_value a = Ok 0%nat) as Ha
      by (unfold get_order_value; by rewrite Hea, Haa).
    assert (get_order_value b = Ok 1%nat) as Hb
      by (unfold get_order_value; by rewrite Heb, Hab).
    unfold _get_statements.
    destruct Hst as [-> | ->]; simpl; unfold choose_better; simpl;
      rewrite ?Ha, ?Hb; simpl; rewrite ?Hmk, ?decide_True by done; simpl;
      rewrite ?Ha, ?Hb; simpl; rewrite ?Ha, ?Hb; simpl;
      rewrite ?decide_True by done; done.
Qed.

Lemma tas_keeps_best_class_min_witness :
  let a := Statement "Complex(drug, target)"
             [Evidence {[ "class_min" := "Kd < 100nM" ]}] in
  let b := Statement "Complex(drug, target)"
             [Evidence {[ "class_min" := "100nM < Kd < 1uM" ]}] in
  _get_statements [b; a] = Ok [a].
Proof.
  intros a b.
  refine (proj2 (tas_keeps_best_class_min [b; a] _) a b _ eq_refl _ _).
  - intros s [->|[->|[]%elem_of_nil]%elem_of_cons]%elem_of_cons;
      eexists; by vm_compute.
  - by right.
  - by exists (Evidence {[ "class_min" := "Kd < 100nM" ]}), [].
  - by exists (Evidence {[ "class_min" := "100nM < Kd < 1uM" ]}), [].
Defined.

End TasFacts.

(** ** [list_dumps] *)

Module DumpFacts.
Import DumpManager DumpSpec.

Lemma StronglySorted_filter {A : Type} (R : relation A) (P : A -> Prop)
    `{forall x, Decision (P x)} (l : list A) :
  StronglySorted R l -> StronglySorted R (filter P l).
Proof.
  induction 1 as [|x l Hl IH Hx]; [constructor|].
  rewrite filter_cons. case_decide; [|done].
  constructor; [done|]. rewrite Forall_forall in Hx |- *.
  intros y [_ Hy]%list_elem_of_filter. by apply Hx.
Qed.

Section ThreeDumps.
Variables (dump_head : S3Path) (d1 d2 d3 stage : string).
Hypothesis distinct : NoDup [d1; d2; d3].
Hypothesis other_stage : stage <> "start" /\ stage <> "end".

Abbreviation three_dumps := (three_dumps d1 d2 d3 stage).

Lemma three_dumps_stamps :
  exists stamps,
    merge_sort String.le (elements (dom three_dumps)) = stamps /\
    stamps ≡ₚ [d1; d2; d3] /\ StronglySorted String.le stamps.
Proof.
  eexists. split; [done|]. split.
  - rewrite merge_sort_Permutation. unfold DumpSpec.three_dumps.
    rewrite !dom_insert_L, dom_singleton_L.
    apply NoDup_cons in distinct as [H1 [H2 _]%NoDup_cons].
    rewrite elements_union_singleton by set_solver.
    rewrite elements_union_singleton by set_solver.
    by rewrite elements_singleton.
  - apply StronglySorted_merge_sort; apply _.
Qed.

Lemma three_dumps_lookup :
  three_dumps !! d1 = Some {[ "start" ]} /\
  three_dumps !! d2 = Some {[ "start"; "end" ]} /\
  three_dumps !! d3 = Some {[ stage ]}.
Proof.
  apply NoDup_cons in distinct as [H1 [H2 _]%NoDup_cons].
  unfold DumpSpec.three_dumps. split_and!.
  - by rewrite lookup_insert_eq.
  - rewrite lookup_insert_ne by set_solver. by rewrite lookup_insert_eq.
  - rewrite !lookup_insert_ne by set_solver. by rewrite lookup_singleton_eq.
Qed.

Lemma list_dumps_three :
  (exists stamps,
     list_dumps dump_head three_dumps None None
       = dump_path dump_head <$> stamps /\
     stamps ≡ₚ [d1; d2; d3] /\ StronglySorted String.le stamps) /\
  (exists stamps,
     list_dumps dump_head three_dumps (Some true) None
       = dump_path dump_head <$> stamps /\
     stamps ≡ₚ [d1; d2] /\ StronglySorted String.le stamps) /\
  list_dumps dump_head three_dumps (Some true) (Some true)
    = [dump_path dump_head d2] /\
  list_dumps dump_head three_dumps (Some true) (Some false)
    = [dump_path dump_head d1].
Proof.
  destruct three_dumps_stamps as (stamps & Hs & Hperm & Hsorted).
  destruct three_dumps_lookup as (L1 & L2 & L3).
  destruct other_stage as [Hns Hne].
  unfold list_dumps. rewrite Hs. clear Hs.
  assert (has_marker three_dumps "start" d1 = true /\
          has_marker three_dumps "start" d2 = true /\
          has_marker three_dumps "start" d3 = false /\
          has_marker three_dumps "end" d1 = false /\
          has_marker three_dumps "end" d2 = true)
    as (S1 & S2 & S3 & E1 & E2).
  { unfold has_marker. rewrite L1, L2, L3. simpl. split_and!.
    - apply bool_decide_eq_true_2. set_solver.
    - apply bool_decide_eq_true_2. set_solver.
    - apply bool_decide_eq_false_2. set_solver.
    - apply bool_decide_eq_false_2. set_solver.
    - apply bool_decide_eq_true_2. set_solver. }
  assert (filter (fun d => has_marker three_dumps "start" d = true) stamps
          ≡ₚ [d1; d2])
    as Hstarted.
  { rewrite Hperm. rewrite !filter_cons, filter_nil.
    rewrite !decide_True by done. rewrite decide_False; [done|].
    by rewrite S3. }
  split_and!.
  - by exists stamps.
  - eexists. split; [done|]. split; [done|].
    by apply StronglySorted_filter.
  - f_equal. apply Permutation_singleton_r.
    rewrite Hstarted. rewrite !filter_cons, filter_nil.
    rewrite decide_False by (by rewrite E1). by rewrite decide_True.
  - f_equal. apply Permutation_singleton_r.
    rewrite Hstarted. rewrite !filter_cons, filter_nil.
    rewrite decide_True by done. rewrite decide_False; [done|].
    by rewrite E2.
Qed.
End ThreeDumps.

(** C9: over three dump directories, one with only a start marker, one
    with start and end, one with only an unrelated stage marker,
    [list_dumps] returns the three path handles in ascending order of
    date stamp when unfiltered, the first two (in that order) with
    [started=True], and the second alone with [started=True, ended=True]
    (and the first alone with [ended=False]). *)
Theorem list_dumps_three_directories
    (dump_head : S3Path) (d1 d2 d3 stage : string) :
  NoDup [d1; d2; d3] -> stage <> "start" /\ stage <> "end" ->
  (exists stamps,
     list_dumps dump_head (DumpSpec.three_dumps d1 d2 d3 stage) None None
       = dump_path dump_head <$> stamps /\
     stamps ≡ₚ [d1; d2; d3] /\ StronglySorted String.le stamps) /\
  (exists stamps,
     list_dumps dump_head (three_dumps d1 d2 d3 stage) (Some true) None
       = dump_path dump_head <$> stamps /\
     stamps ≡ₚ [d1; d2] /\ StronglySorted String.le stamps) /\
  list_dumps dump_head (three_dumps d1 d2 d3 stage) (Some true) (Some true)
    = [dump_path dump_head d2] /\
  list_dumps dump_head (three_dumps d1 d2 d3 stage) (Some true) (Some false)
    = [dump_path dump_head d1].
Proof. apply list_dumps_three. Qed.

Lemma list_dumps_three_directories_witness :
  let head := MkS3Path "bigmech" "indra-db/dumps" in
  let dumps := three_dumps "2020-01-01" "2020-02-01" "2020-03-01" "sif" in
  list_dumps head dumps None None
    = [MkS3Path "bigmech" "indra-db/dumps/2020-01-01/";
       MkS3Path "bigmech" "indra-db/dumps/2020-02-01/";
       MkS3Path "bigmech" "indra-db/dumps/2020-03-01/"] /\
  list_dumps head dumps (Some true) (Some true)
    = [MkS3Path "bigmech" "indra-db/dumps/2020-02-01/"].
Proof.
  intros head dumps. split; [by vm_compute|].
  refine (proj1 (proj2 (proj2 (list_dumps_three_directories head
            "2020-01-01" "2020-02-01" "2020-03-01" "sif" _ _)))).
  - repeat (apply NoDup_cons; split; [by vm_compute; set_solver|]).
    apply NoDup_nil_2.
  - done.
Defined.

End DumpFacts.

(** ** Statement distillation: exact duplicates *)

Module DistillFacts.
Import Distill DistillSpec.

Lemma bind_Ok {A B : Type} (r : result A) (f : A -> result B) b :
  r ≫= f = Ok b <-> exists a, r = Ok a /\ f a = Ok b.
Proof.
  destruct r as [a|e]; simpl; [|split; [done|by intros (? & ? & ?)]].
  split; [eauto|]. by intros (a' & [= ->] & ?).
Qed.

Lemma for_each_inv {A S : Type} (body : S -> A -> result S) (P : S -> Prop)
    xs st st' :
  P st ->
  (forall s x s', x ∈ xs -> P s -> body s x = Ok s' -> P s') ->
  for_each body xs st = Ok st' -> P st'.
Proof.
  revert st. induction xs as [|x xs IH]; intros st Hst Hbody; simpl.
  - by intros [= <-].
  - intros (s1 & H1 & H2)%bind_Ok. eapply (IH s1); [|by eauto using list_elem_of_further|done].
    eapply Hbody; [by left|done|done].
Qed.

Lemma for_each_app {A S : Type} (body : S -> A -> result S) xs ys st :
  for_each body (xs ++ ys) st = for_each body xs st ≫= for_each body ys.
Proof.
  revert st. induction xs as [|x xs IH]; intros st; simpl; [done|].
  destruct (body st x); simpl; [apply IH|done].
Qed.

Lemma pop_spec {A : Type} `{Countable A} (pick : gset A -> nat) (X : gset A) :
  X <> ∅ -> exists x, x ∈ X /\ pop pick X = Ok (x, X ∖ {[x]}).
Proof.
  intros HX. unfold pop.
  assert (size X <> 0)%nat as Hsz by (by rewrite size_empty_iff; intros ?%leibniz_equiv).
  destruct (lookup_lt_is_Some_2 (elements X) (pick X `mod` size X)%nat)
    as [x Hx].
  { unfold size, set_size in *. simpl in *. by apply Nat.mod_upper_bound. }
  exists x. rewrite Hx. split; [|done].
  apply elem_of_elements. by eapply list_elem_of_lookup_2.
Qed.

Lemma pop_singleton {A : Type} `{Countable A} (pick : gset A -> nat) (x : A) :
  pop pick {[x]} = Ok (x, ∅).
Proof.
  destruct (pop_spec pick {[x]}) as (y & Hy & ->); [set_solver|].
  apply elem_of_singleton in Hy as ->. f_equal. f_equal. set_solver.
Qed.

Lemma size_ge_2_nonempty {A : Type} `{Countable A} (X : gset A) :
  size X <> 0%nat -> X <> ∅.
Proof. intros Hs ->. by rewrite size_empty in Hs. Qed.

Section Engine.
Context {Stmt : Type} `{Countable Stmt}.
Variable from_json : string -> Stmt.
Variable pick_tpl : gset (Z * option Stmt) -> nat.
Variable pick_row : gset (Z * Z * option string) -> nat.

Implicit Types (g kept dups : gset (Z * option Stmt)) (linked : gset Z).

(** *** The reading-derived path *)
Lemma detect_step_none_linked linked kept dups g :
  g <> ∅ -> filter (fun t => t.1 ∈ linked) g = ∅ ->
  exists t, t ∈ g /\
    detect_step pick_tpl linked (kept, dups) g
    = Ok (kept ∪ {[t]}, dups ∪ (g ∖ {[t]})).
Proof.
  intros Hg Hnone. unfold detect_step.
  rewrite decide_False by (by rewrite size_empty_iff; intros ?%leibniz_equiv).
  case_decide as H1.
  - apply size_1_elem_of in H1 as [t Ht%leibniz_equiv]. exists t.
    split; [set_solver|]. f_equal. f_equal; set_solver.
  - rewrite Hnone, size_empty. rewrite decide_True by done.
    destruct (pop_spec pick_tpl g Hg) as (t & Ht & ->). by exists t.
Qed.

Lemma detect_step_one_linked linked kept dups g t :
  filter (fun t => t.1 ∈ linked) g = {[t]} ->
  detect_step pick_tpl linked (kept, dups) g
  = Ok (kept ∪ {[t]}, dups ∪ (g ∖ {[t]})).
Proof.
  intros Hone. unfold detect_step.
  assert (t ∈ g) as Ht by set_solver.
  rewrite decide_False
    by (rewrite size_empty_iff; intros ?%leibniz_equiv; set_solver).
  case_decide as H1.
  - apply size_1_elem_of in H1 as [t' Ht'%leibniz_equiv].
    assert (t' = t) as -> by set_solver. f_equal. f_equal; set_solver.
  - rewrite Hone, size_singleton. simpl. done.
Qed.

Lemma detect_step_many_linked linked kept dups g :
  (1 < size (filter (fun t => t.1 ∈ linked) g))%nat ->
  detect_step pick_tpl linked (kept, dups) g = Raise AssertionError.
Proof.
  intros Hmany. unfold detect_step.
  pose proof (subseteq_size (filter (fun t => t.1 ∈ linked) g) g) as Hle.
  rewrite !decide_False; [done|lia|lia| |].
  - assert (size (filter (fun t => t.1 ∈ linked) g) <= size g)%nat
      by (apply Hle; set_solver). lia.
  - assert (size (filter (fun t => t.1 ∈ linked) g) <= size g)%nat
      by (apply Hle; set_solver). lia.
Qed.

(** *** The database-derived path *)
Implicit Types (grp : list (Z * Z * option string)).

Lemma choose_unique_none_linked not_duplicates get_full_stmts grp :
  grp <> [] ->
  filter (fun t : Z * Z * option string => t.1.2 ∈ not_duplicates)
         (list_to_set grp : gset _) = ∅ ->
  exists r, r ∈ grp /\
    _choose_unique from_json pick_row not_duplicates get_full_stmts grp
    = (s ← row_stmt from_json get_full_stmts r;
       Ok (s, row_ids (list_to_set grp ∖ {[r]}))).
Proof.
  intros Hne Hnone. destruct grp as [|r [|r' grp]]; [done| |].
  - exists r. split; [by left|].
    assert (row_ids (list_to_set [r] ∖ {[r]}) = ∅) as ->; [|done].
    unfold row_ids. set_solver.
  - unfold _choose_unique. rewrite Hnone, size_empty.
    rewrite decide_True by done.
    destruct (pop_spec pick_row (list_to_set (r :: r' :: grp)))
      as (t & Ht & ->); [set_solver|].
    exists t. split; [by apply elem_of_list_to_set in Ht|].
    revert Hnone. generalize (list_to_set (r :: r' :: grp) : gset _).
    intros S Hnone. simpl.
    assert (filter (fun t0 : Z * Z * option string => t0.1.2 ∉ not_duplicates)
              (S ∖ {[t]}) = S ∖ {[t]}) as ->; [|done].
    apply set_eq. intros x. rewrite elem_of_filter. set_solver.
Qed.

Lemma choose_unique_one_linked not_duplicates get_full_stmts grp r :
  filter (fun t : Z * Z * option string => t.1.2 ∈ not_duplicates)
         (list_to_set grp : gset _) = {[r]} ->
  r ∈ grp /\
  _choose_unique from_json pick_row not_duplicates get_full_stmts grp
  = (s ← row_stmt from_json get_full_stmts r;
     Ok (s, row_ids (list_to_set grp ∖ {[r]}))).
Proof.
  intros Hone.
  assert (r ∈ (list_to_set grp : gset _)) as Hr by set_solver.
  split; [by apply elem_of_list_to_set in Hr|].
  destruct grp as [|r0 [|r' grp]]; [set_solver| |].
  - assert (r0 = r) as -> by set_solver.
    assert (row_ids (list_to_set [r] ∖ {[r]}) = ∅) as ->; [|done].
    unfold row_ids. set_solver.
  - unfold _choose_unique. rewrite Hone, size_singleton.
    rewrite decide_False by done. rewrite decide_True by done.
    rewrite pop_singleton.
    revert Hone Hr. generalize (list_to_set (r0 :: r' :: grp) : gset _).
    intros S Hone Hr. simpl.
    assert (filter (fun t0 : Z * Z * option string => t0.1.2 ∉ not_duplicates)
              S = S ∖ {[r]}) as ->; [|done].
    apply set_eq. intros x. rewrite elem_of_filter.
    assert (forall y, y ∈ filter (fun t : Z * Z * option string =>
                                    t.1.2 ∈ not_duplicates) S
                      <-> y = r) as Hy by (intros y; rewrite Hone; set_solver).
    pose proof (proj2 (Hy r) eq_refl) as [Hrl _]%elem_of_filter.
    specialize (Hy x). rewrite elem_of_filter in Hy.
    rewrite elem_of_difference, elem_of_singleton. split.
    + intros [Hx1 Hx2]. split; [done|]. intros ->. done.
    + intros [Hx1 Hx2]. split; [|done]. intros Hx3. apply Hx2. tauto.
Qed.

Lemma choose_unique_many_linked not_duplicates get_full_stmts grp :
  (1 < size (filter (fun t : Z * Z * option string =>
                       t.1.2 ∈ not_duplicates)
                    (list_to_set grp : gset _)))%nat ->
  _choose_unique from_json pick_row not_duplicates get_full_stmts grp
  = Raise AssertionError.
Proof.
  intros Hmany. destruct grp as [|r [|r' grp]]; [done| |].
  - exfalso. revert Hmany.
    pose proof (subseteq_size
      (filter (fun t : Z * Z * option string => t.1.2 ∈ not_duplicates)
              (list_to_set [r] : gset _)) {[r]}) as Hle.
    rewrite size_singleton in Hle.
    intros ?. assert (size (filter (fun t : Z * Z * option string =>
                                      t.1.2 ∈ not_duplicates)
                        (list_to_set [r] : gset _)) <= 1)%nat
      by (apply Hle; set_solver). lia.
  - unfold _choose_unique. rewrite !decide_False by lia. done.
Qed.

(** *** Reported duplicates are never linked *)
Lemma detect_step_dups linked kept dups g kept' dups' :
  detect_step pick_tpl linked (kept, dups) g = Ok (kept', dups') ->
  forall t, t ∈ dups' -> t ∈ dups \/ (t ∈ g /\ t.1 ∉ linked).
Proof.
  unfold detect_step. intros Hstep t Ht.
  case_decide as H0; [by injection Hstep as <- <-; left|].
  case_decide as H1; [by injection Hstep as <- <-; left|].
  case_decide as HL0.
  - apply bind_Ok in Hstep as ([t0 rest] & Hpop & [= <- <-]).
    apply size_empty_iff, leibniz_equiv in HL0.
    destruct (pop_spec pick_tpl g) as (t1 & Ht1 & Hpop');
      [by apply size_ge_2_nonempty|].
    rewrite Hpop' in Hpop. injection Hpop as <- <-.
    apply elem_of_union in Ht as [Ht|Ht]; [by left|right].
    split; [set_solver|]. intros Hl.
    assert (t ∈ filter (fun t => t.1 ∈ linked) g) as Hin
      by (apply elem_of_filter; set_solver).
    rewrite HL0 in Hin. set_solver.
  - case_decide as HL1; [|done]. injection Hstep as <- <-.
    apply elem_of_union in Ht as [Ht|Ht]; [by left|right].
    apply elem_of_difference in Ht as [Htg Htl]. split; [done|].
    intros Hl. apply Htl. by apply elem_of_filter.
Qed.

Lemma detect_dups_not_linked groups linked kept dups :
  _detect_exact_duplicates pick_tpl groups linked = Ok (kept, dups) ->
  sids_of dups ## linked.
Proof.
  unfold _detect_exact_duplicates. intros Hrun.
  assert (forall t, t ∈ dups -> t.1 ∉ linked) as Hd.
  { refine (for_each_inv _
              (fun st => forall t, t ∈ st.2 -> t.1 ∉ linked) _ _ _ _ _ Hrun).
    - simpl. set_solver.
    - intros [k d] g [k' d'] _ IH Hstep t Ht. simpl in *.
      destruct (detect_step_dups _ _ _ _ _ _ Hstep t Ht) as [?|[_ ?]];
        auto. }
  unfold sids_of. intros x (t & -> & Ht)%elem_of_map Hx.
  by apply (Hd t).
Qed.

Lemma filter_rv_dict_dups linked ign rv_list st rvd st' :
  filter_rv_dict pick_tpl linked ign rv_list st rvd = Ok st' ->
  st.1.2 ## linked -> st'.1.2 ## linked.
Proof.
  destruct st as [[tpls dsids] bett]. unfold filter_rv_dict.
  intros (best & _ & Hrest)%bind_Ok Hdis. simpl in Hdis.
  destruct ign.
  - by injection Hrest as <-.
  - apply bind_Ok in Hrest as ([some dup] & Hdet & [= <-]). simpl.
    apply detect_dups_not_linked in Hdet. set_solver.
Qed.

Lemma filter_text_ref_dups linked ign st sd st' :
  filter_text_ref pick_tpl linked ign st sd = Ok st' ->
  st.1.2 ## linked -> st'.1.2 ## linked.
Proof.
  destruct st as [[tpls dsids] bsids]. unfold filter_text_ref.
  intros ([sd' some] & _ & Hrest)%bind_Ok Hdis. simpl in Hdis.
  apply bind_Ok in Hrest as ([[tpls' dsids'] some'] & Hloop & [= <-]).
  simpl.
  refine (for_each_inv _ (fun st => st.1.2 ## linked) _ _ _ _ _ Hloop);
    [done|].
  intros s [reader rv_list] s' _ Hs Hreader. simpl in Hreader.
  refine (for_each_inv _ (fun st => st.1.2 ## linked) _ _ _ _ _ Hreader);
    [done|].
  intros s1 rvd s2 _ Hs1 Hrv. by eapply filter_rv_dict_dups.
Qed.

Lemma filter_rdg_tpls_dups nd linked ign tpls dsids bsids :
  filter_rdg_tpls pick_tpl nd linked ign = Ok (tpls, dsids, bsids) ->
  dsids ## linked.
Proof.
  unfold filter_rdg_tpls. intros Hrun.
  refine (for_each_inv _ (fun st => st.1.2 ## linked) _ _ _ _ _ Hrun).
  - simpl. set_solver.
  - intros s sd s' _ Hs Hstep. by eapply filter_text_ref_dups.
Qed.

Lemma rdg_duplicates_not_linked nd gfs linked ign stmts dsids bsids :
  get_filtered_rdg_stmts pick_tpl nd gfs (Some linked) ign
    = Ok (stmts, dsids, bsids) ->
  linked ∩ dsids = ∅.
Proof.
  unfold get_filtered_rdg_stmts. simpl.
  intros ([[tpls d] b] & Hrun & Hrest)%bind_Ok.
  apply bind_Ok in Hrest as (s & _ & [= _ <- _]).
  apply filter_rdg_tpls_dups in Hrun. set_solver.
Qed.

Lemma choose_unique_dups not_duplicates gfs grp s d :
  _choose_unique from_json pick_row not_duplicates gfs grp = Ok (s, d) ->
  d ## not_duplicates.
Proof.
  destruct grp as [|r [|r' grp]]; [done| |]; unfold _choose_unique.
  - intros (rs & _ & [= _ <-])%bind_Ok. set_solver.
  - intros ([t S'] & _ & Hrest)%bind_Ok.
    apply bind_Ok in Hrest as (rs & _ & [= _ <-]).
    intros x (t' & -> & [Hx _]%elem_of_filter)%elem_of_map. done.
Qed.

Lemma pool_map_Ok {A B : Type} (f : A -> result B) xs ys :
  pool_map f xs = Ok ys -> Forall2 (fun x y => f x = Ok y) xs ys.
Proof.
  revert ys. induction xs as [|x xs IH]; intros ys; simpl.
  - intros [= <-]. constructor.
  - intros (y & Hy & Hrest)%bind_Ok.
    apply bind_Ok in Hrest as (ys' & Hys & [= <-]).
    constructor; [done|]. by apply IH.
Qed.

Lemma db_duplicates_not_linked db gfs clauses linked num_procs stmts dids :
  get_filtered_db_stmts from_json pick_row db gfs clauses (Some linked)
    num_procs = Ok (stmts, dids) ->
  linked ∩ dids = ∅.
Proof.
  unfold get_filtered_db_stmts. simpl. case_decide as Hn.
  - intros Hrun. cut (dids ## linked); [set_solver|].
    refine (for_each_inv _ (fun st => st.2 ## linked) _ _ _ _ _ Hrun).
    + simpl. set_solver.
    + intros [S D] grp [S' D'] _ HD. simpl in HD.
      intros ([s d] & Hcu & [= _ <-])%bind_Ok. simpl.
      apply choose_unique_dups in Hcu. set_solver.
  - intros (res & Hres%pool_map_Ok & Hrest)%bind_Ok.
    apply bind_Ok in Hrest as ([sl ds] & Hunzip & [= _ <-]).
    assert (ds = res.*2) as ->
      by (destruct res; [done|by injection Hunzip as _ <-]).
    cut (⋃ res.*2 ## linked); [set_solver|].
    intros x (D & HD & Hx)%elem_of_union_list.
    apply list_elem_of_fmap in HD as ([s d] & -> & Hsd).
    apply list_elem_of_lookup in Hsd as [i Hi].
    destruct (Forall2_lookup_r _ _ _ _ _ Hres Hi) as (grp & _ & Hcu).
    apply choose_unique_dups in Hcu. set_solver.
Qed.

Lemma assert_disjoint_spec (L D : gset Z) :
  (L ∩ D = ∅ -> assert_disjoint L D = Ok ()) /\
  (L ∩ D <> ∅ -> assert_disjoint L D = Raise AssertionError).
Proof. unfold assert_disjoint. split; intros; by case_decide. Qed.

(** *** The two paths of [get_filtered_db_stmts] *)
Lemma for_each_pool_map (not_duplicates : gset Z) (gfs : bool)
    (groups : list (list (Z * Z * option string)))
    (S0 : gset (Stmt + Z)) (D0 : gset Z) :
  for_each (fun '(stmts, duplicate_ids) stmt_list =>
              '(stmt, some_duplicates) ←
                _choose_unique from_json pick_row not_duplicates gfs
                  stmt_list;
              Ok (stmts ∪ {[stmt]}, duplicate_ids ∪ some_duplicates))
           groups (S0, D0)
  = (res ← pool_map (_choose_unique from_json pick_row not_duplicates gfs)
             groups;
     Ok (S0 ∪ list_to_set res.*1, D0 ∪ ⋃ res.*2)).
Proof.
  revert S0 D0. induction groups as [|grp groups IH]; intros S0 D0; simpl.
  - f_equal. f_equal; set_solver.
  - destruct (_choose_unique _ _ _ _ grp) as [[s d]|e]; simpl; [|done].
    rewrite IH. destruct (pool_map _ groups) as [res|e]; simpl; [|done].
    f_equal. f_equal; set_solver.
Qed.



(** C3: a group of exact duplicates is resolved against the linked
    ids, on the reading path ([_detect_exact_duplicates]) and on the
    database path ([_choose_unique]) alike: with exactly one linked
    candidate, that one is kept and all the others are reported as
    duplicates; with none, one member is kept and the rest are
    reported; with more than one, the assertion fails. *)
Theorem exact_duplicate_resolution (linked : gset Z) :
  (forall kept dups g,
     g <> ∅ ->
     (size (filter (fun t => t.1 ∈ linked) g) = 1%nat ->
      exists t, filter (fun t => t.1 ∈ linked) g = {[t]} /\
        detect_step pick_tpl linked (kept, dups) g
        = Ok (kept ∪ {[t]}, dups ∪ (g ∖ {[t]}))) /\
     (size (filter (fun t => t.1 ∈ linked) g) = 0%nat ->
      exists t, t ∈ g /\
        detect_step pick_tpl linked (kept, dups) g
        = Ok (kept ∪ {[t]}, dups ∪ (g ∖ {[t]}))) /\
     ((1 < size (filter (fun t => t.1 ∈ linked) g))%nat ->
      detect_step pick_tpl linked (kept, dups) g = Raise AssertionError)) /\
  (forall g,
     _detect_exact_duplicates pick_tpl [g] linked
     = detect_step pick_tpl linked (∅, ∅) g) /\
  (forall get_full_stmts grp,
     grp <> [] ->
     let candidates : gset (Z * Z * option string) := list_to_set grp in
     (size (filter (fun t : Z * Z * option string => t.1.2 ∈ linked)
                   candidates) = 1%nat ->
      exists r,
        filter (fun t : Z * Z * option string => t.1.2 ∈ linked)
               candidates = {[r]} /\
        _choose_unique from_json pick_row linked get_full_stmts grp
        = (s ← row_stmt from_json get_full_stmts r;
           Ok (s, row_ids (candidates ∖ {[r]})))) /\
     (size (filter (fun t : Z * Z * option string => t.1.2 ∈ linked)
                   candidates) = 0%nat ->
      exists r, r ∈ grp /\
        _choose_unique from_json pick_row linked get_full_stmts grp
        = (s ← row_stmt from_json get_full_stmts r;
           Ok (s, row_ids (candidates ∖ {[r]})))) /\
     ((1 < size (filter (fun t : Z * Z * option string => t.1.2 ∈ linked)
                        candidates))%nat ->
      _choose_unique from_json pick_row linked get_full_stmts grp
      = Raise AssertionError)).
Proof.
  split_and!.
  - intros kept dups g Hg. split_and!.
    + intros [t Ht%leibniz_equiv]%size_1_elem_of. exists t.
      split; [done|]. by apply detect_step_one_linked.
    + intros Hz%size_empty_iff%leibniz_equiv.
      by apply detect_step_none_linked.
    + apply detect_step_many_linked.
  - intros g. unfold _detect_exact_duplicates. cbn [for_each].
    by destruct (detect_step pick_tpl linked (∅, ∅) g).
  - intros gfs grp Hgrp candidates. split_and!.
    + intros [r Hr%leibniz_equiv]%size_1_elem_of. exists r.
      split; [done|]. by apply choose_unique_one_linked.
    + intros Hz%size_empty_iff%leibniz_equiv.
      by apply choose_unique_none_linked.
    + apply choose_unique_many_linked.
Qed.

Variable _set_evidence_text_ref : Stmt -> Z -> Stmt.
Variable get_hash : Stmt -> Z.

(** C4: whatever the set of linked ids, the exact duplicates reported
    by the reading-derived stage, and those accumulated after the
    database-derived stage, are disjoint from it, so both checks of
    [distill_stmts] pass; the check itself raises on any intersection;
    and a run of [distill_stmts] that returns went through both stages
    with the linked ids it loaded and with disjoint sets. *)
Theorem linked_and_duplicates_disjoint
    (db : database) (get_full_stmts : bool)
    (clauses : option (raw_statement -> bool)) (num_procs : Z) :
  (forall linked nd stmts dsids bsids,
     get_filtered_rdg_stmts pick_tpl nd get_full_stmts (Some linked) false
       = Ok (stmts, dsids, bsids) ->
     linked ∩ dsids = ∅ /\ assert_disjoint linked dsids = Ok () /\
     forall db_stmts db_dups,
       get_filtered_db_stmts from_json pick_row db get_full_stmts clauses
         (Some linked) num_procs = Ok (db_stmts, db_dups) ->
       linked ∩ (dsids ∪ db_dups) = ∅ /\
       assert_disjoint linked (dsids ∪ db_dups) = Ok ()) /\
  (forall L D : gset Z,
     L ∩ D <> ∅ -> assert_disjoint L D = Raise AssertionError) /\
  (forall handle_duplicates weed_evidence batch_size ret,
     distill_stmts from_json _set_evidence_text_ref get_hash pick_tpl
       pick_row db get_full_stmts clauses num_procs handle_duplicates
       weed_evidence batch_size = Ok ret ->
     let linked : gset Z :=
       if bool_decide (handle_duplicates = "ignore") then ∅
       else list_to_set (raw_unique_links db) in
     exists nd stmts dsids bsids db_stmts db_dups,
       get_reading_stmt_dict from_json _set_evidence_text_ref get_hash db
         clauses get_full_stmts = Ok nd /\
       get_filtered_rdg_stmts pick_tpl nd get_full_stmts (Some linked)
         false = Ok (stmts, dsids, bsids) /\
       get_filtered_db_stmts from_json pick_row db get_full_stmts clauses
         (Some linked) num_procs = Ok (db_stmts, db_dups) /\
       ret.1.1 = stmts ∪ db_stmts /\
       linked ∩ dsids = ∅ /\ linked ∩ (dsids ∪ db_dups) = ∅).
Proof.
  assert (forall linked nd stmts dsids bsids,
     get_filtered_rdg_stmts pick_tpl nd get_full_stmts (Some linked) false
       = Ok (stmts, dsids, bsids) ->
     linked ∩ dsids = ∅ /\ assert_disjoint linked dsids = Ok () /\
     forall db_stmts db_dups,
       get_filtered_db_stmts from_json pick_row db get_full_stmts clauses
         (Some linked) num_procs = Ok (db_stmts, db_dups) ->
       linked ∩ (dsids ∪ db_dups) = ∅ /\
       assert_disjoint linked (dsids ∪ db_dups) = Ok ()) as Hstages.
  { intros linked nd stmts dsids bsids Hrdg.
    pose proof (rdg_duplicates_not_linked _ _ _ _ _ _ _ Hrdg) as H1.
    split; [done|]. split; [by apply assert_disjoint_spec|].
    intros db_stmts db_dups Hdb.
    pose proof (db_duplicates_not_linked _ _ _ _ _ _ _ Hdb) as H2.
    assert (linked ∩ (dsids ∪ db_dups) = ∅) by set_solver.
    split; [done|]. by apply assert_disjoint_spec. }
  split; [done|]. split; [intros L D; apply assert_disjoint_spec|].
  intros hd we bs ret. unfold distill_stmts.
  intros (nd & Hnd & Hrest)%bind_Ok.
  apply bind_Ok in Hrest as ([[stmts dsids] bsids] & Hrdg & Hrest).
  apply bind_Ok in Hrest as ([] & _ & Hrest).
  apply bind_Ok in Hrest as ([db_stmts db_dups] & Hdb & Hrest).
  apply bind_Ok in Hrest as ([] & _ & Hrest).
  cbv zeta.
  assert ((if bool_decide (hd = "ignore") then (∅ : gset Z)
           else list_to_set (raw_unique_links db)) =
          if bool_decide (hd = "delete") || negb (bool_decide (hd = "ignore"))
          then list_to_set (raw_unique_links db) else ∅) as ->.
  { do 2 case_bool_decide; simpl; try done. by subst. }
  destruct (Hstages _ _ _ _ _ Hrdg) as (H1 & _ & Hdb').
  destruct (Hdb' _ _ Hdb) as [H2 _].
  exists nd, stmts, dsids, bsids, db_stmts, db_dups.
  split_and!; try done.
  repeat case_match; by injection Hrest as <-.
Qed.

(** C5, where the code departs from it: with nothing to group, the
    single-process path returns two empty sets and the pool path raises
    while unpacking the zipped results. *)
Theorem db_pool_path_raises_on_empty_corpus
    (get_full_stmts : bool) (clauses : option (raw_statement -> bool))
    (not_duplicates : option (gset Z)) :
  get_filtered_db_stmts from_json pick_row (Database [] [] [])
    get_full_stmts clauses not_duplicates 1 = Ok (∅, ∅) /\
  get_filtered_db_stmts from_json pick_row (Database [] [] [])
    get_full_stmts clauses not_duplicates 4 = Raise ValueError.
Proof. done. Qed.

Lemma db_paths_on_no_rows db gfs clauses not_duplicates num_procs :
  db_rows db gfs clauses = [] ->
  get_filtered_db_stmts from_json pick_row db gfs clauses not_duplicates 1
    = Ok (∅, ∅) /\
  (num_procs <> 1%Z ->
   get_filtered_db_stmts from_json pick_row db gfs clauses not_duplicates
     num_procs = Raise ValueError).
Proof.
  intros Hrows. unfold get_filtered_db_stmts. rewrite Hrows. simpl.
  split; [done|]. intros Hn. by rewrite decide_False.
Qed.

End Engine.

Lemma exact_duplicate_resolution_witness :
  let g : gset (Z * option string) := {[ (1%Z, None); (2%Z, None) ]} in
  exists t,
    filter (fun t : Z * option string => t.1 ∈ ({[ 2%Z ]} : gset Z)) g
      = {[t]} /\
    detect_step (fun _ => 0%nat) {[ 2%Z ]} (∅, ∅) g
    = Ok (∅ ∪ {[t]}, ∅ ∪ (g ∖ {[t]})).
Proof.
  intros g.
  destruct (exact_duplicate_resolution (Stmt := string) id
              (fun _ => 0%nat) (fun _ => 0%nat) {[ 2%Z ]}) as [Hrdg _].
  destruct (Hrdg ∅ ∅ g) as [Hone _]; [done|].
  apply Hone. by vm_compute.
Defined.

Lemma linked_and_duplicates_disjoint_witness :
  let nd : gmap Z (gmap string (gmap Z (gmap string (gmap string
             (gmap Z (gmap Z (gset (Z * option string)))))))) :=
    {[ 1%Z := {[ "pubmed" := {[ 10%Z := {[ "reach" :=
         {[ "1.3.3-61059a-biores-" :=
              {[ 100%Z := {[ 7%Z := {[ (1%Z, None); (2%Z, None) ]} ]} ]} ]} ]} ]} ]} ]} in
  ({[ 2%Z ]} : gset Z) ∩ {[ 1%Z ]} = ∅.
Proof.
  intros nd.
  refine (proj1 (proj1 (linked_and_duplicates_disjoint (Stmt := string) id
            (fun _ => 0%nat) (fun _ => 0%nat) (fun s _ => s)
            (fun _ => 0%Z) (Database [] [] []) false None 1)
            {[ 2%Z ]} nd {[ inr 2%Z ]} {[ 1%Z ]} ∅ _)).
  by vm_compute.
Defined.

End DistillFacts.

(** ** Statement distillation: better sources and reader versions *)

Module BetteredFacts.
Import Distill DistillSpec DistillFacts.

(** *** Preference lists, [min] and [max] *)
Lemma index_of_inj l x y i :
  index_of x l = Some i -> index_of y l = Some i -> x = y.
Proof.
  revert i. induction l as [|z l IH]; intros i; simpl; [done|].
  destruct (decide (x = z)) as [->|Hx], (decide (y = z)) as [->|Hy];
    try done.
  - intros [= <-]. by destruct (index_of y l).
  - intros Hi [= <-]. by destruct (index_of x l).
  - destruct (index_of x l) as [a|] eqn:Ha, (index_of y l) as [b|] eqn:Hb;
      simpl; try done.
    intros [= <-] [= ->]. by eapply IH.
Qed.

Lemma ranks_below_irrefl l x : ~ ranks_below l x x.
Proof. intros (i & j & Hi & Hj & Hlt). rewrite Hi in Hj. injection Hj. lia. Qed.

Lemma ranks_below_asym l x y : ranks_below l x y -> ~ ranks_below l y x.
Proof.
  intros (i & j & Hi & Hj & Hlt) (j' & i' & Hj' & Hi' & Hlt').
  rewrite Hi in Hi'. rewrite Hj in Hj'. injection Hi'. injection Hj'. lia.
Qed.

Lemma keyed_spec {A : Type} (f : A -> result nat) xs ks :
  keyed f xs = Ok ks ->
  Forall2 (fun x k => k.2 = x /\ f x = Ok k.1) xs ks.
Proof.
  revert ks. induction xs as [|x xs IH]; intros ks; simpl.
  - intros [= <-]. constructor.
  - intros (k & Hk & Hrest)%bind_Ok.
    apply bind_Ok in Hrest as (ks' & Hks & [= <-]).
    constructor; [done|]. by apply IH.
Qed.

Lemma first_min_spec {A : Type} (b : nat * A) l :
  first_min b l ∈ b :: l /\
  forall t, t ∈ b :: l -> ((first_min b l).1 <= t.1)%nat.
Proof.
  revert b. induction l as [|t l IH]; intros b; simpl.
  - split; [by left|]. by intros t ->%list_elem_of_singleton.
  - destruct (IH (if (t.1 <? b.1)%nat then t else b)) as [Hin Hle].
    split.
    + destruct (t.1 <? b.1)%nat; set_solver.
    + intros t' Ht'.
      destruct (Nat.ltb_spec t.1 b.1);
        apply elem_of_cons in Ht' as [->|[->|Ht']%elem_of_cons];
        try (apply Hle; set_solver).
      * etrans; [apply (Hle t); by left|]. lia.
      * etrans; [apply (Hle b); by left|]. lia.
Qed.

Lemma first_max_spec {A : Type} (b : nat * A) l :
  first_max b l ∈ b :: l /\
  forall t, t ∈ b :: l -> (t.1 <= (first_max b l).1)%nat.
Proof.
  revert b. induction l as [|t l IH]; intros b; simpl.
  - split; [by left|]. by intros t ->%list_elem_of_singleton.
  - destruct (IH (if (b.1 <? t.1)%nat then t else b)) as [Hin Hle].
    split.
    + destruct (b.1 <? t.1)%nat; set_solver.
    + intros t' Ht'.
      destruct (Nat.ltb_spec b.1 t.1);
        apply elem_of_cons in Ht' as [->|[->|Ht']%elem_of_cons];
        try (apply Hle; set_solver).
      * etrans; [|apply (Hle t); by left]. lia.
      * etrans; [|apply (Hle b); by left]. lia.
Qed.

Lemma keyed_elem {A : Type} (f : A -> result nat) xs ks :
  keyed f xs = Ok ks ->
  (forall k, k ∈ ks -> k.2 ∈ xs /\ f k.2 = Ok k.1) /\
  (forall x, x ∈ xs -> exists i, (i, x) ∈ ks /\ f x = Ok i).
Proof.
  intros HF%keyed_spec. induction HF as [|x [i y] xs ks [Hy Hf] HF [IH1 IH2]].
  - split; [by intros k ?%elem_of_nil|by intros x ?%elem_of_nil].
  - simpl in *. subst y. split.
    + intros k [->|Hk]%elem_of_cons; [split; [by left|done]|].
      destruct (IH1 k Hk). split; [by right|done].
    + intros x' [->|Hx']%elem_of_cons; [exists i; split; [by left|done]|].
      destruct (IH2 x' Hx') as (j & ? & ?). exists j. split; [by right|done].
Qed.

Lemma py_min_spec {A : Type} (f : A -> result nat) xs x :
  py_min f xs = Ok x ->
  x ∈ xs /\ exists i, f x = Ok i /\
    forall y, y ∈ xs -> exists j, f y = Ok j /\ (i <= j)%nat.
Proof.
  unfold py_min. intros (ks & Hks & Hm)%bind_Ok.
  destruct ks as [|b ks]; [done|]. injection Hm as <-.
  destruct (keyed_elem _ _ _ Hks) as [H1 H2].
  destruct (first_min_spec b ks) as [Hin Hle].
  destruct (H1 _ Hin) as [Hx Hfx]. split; [done|].
  eexists. split; [done|]. intros y Hy.
  destruct (H2 y Hy) as (j & Hj & Hfy). exists j. split; [done|].
  apply (Hle (j, y) Hj).
Qed.

Lemma py_max_spec {A : Type} (f : A -> result nat) xs x :
  py_max f xs = Ok x ->
  x ∈ xs /\ exists i, f x = Ok i /\
    forall y, y ∈ xs -> exists j, f y = Ok j /\ (j <= i)%nat.
Proof.
  unfold py_max. intros (ks & Hks & Hm)%bind_Ok.
  destruct ks as [|b ks]; [done|]. injection Hm as <-.
  destruct (keyed_elem _ _ _ Hks) as [H1 H2].
  destruct (first_max_spec b ks) as [Hin Hle].
  destruct (H1 _ Hin) as [Hx Hfx]. split; [done|].
  eexists. split; [done|]. intros y Hy.
  destruct (H2 y Hy) as (j & Hj & Hfy). exists j. split; [done|].
  apply (Hle (j, y) Hj).
Qed.

Lemma py_index_Ok x l i : py_index x l = Ok i <-> index_of x l = Some i.
Proof.
  unfold py_index. destruct (index_of x l); split; intros [=]; by subst.
Qed.

Lemma elem_of_keys {K V : Type} `{Countable K} (d : gmap K V) k :
  k ∈ keys d <-> k ∈ dom d.
Proof.
  unfold keys. rewrite list_elem_of_fmap, elem_of_dom. split.
  - intros ([k' v] & -> & Hkv%elem_of_map_to_list). eauto.
  - intros [v Hv]. exists (k, v). by rewrite elem_of_map_to_list.
Qed.

Lemma elem_of_values {K V : Type} `{Countable K} (d : gmap K V) v :
  v ∈ values d <-> exists k, d !! k = Some v.
Proof.
  unfold values. rewrite list_elem_of_fmap. split.
  - intros ([k v'] & -> & Hkv%elem_of_map_to_list). eauto.
  - intros [k Hk]. exists (k, v). by rewrite elem_of_map_to_list.
Qed.

(** The least preferred key, as [min] finds it. *)
Lemma py_min_least {V : Type} l (d : gmap string V) w :
  py_min (fun x => py_index x l) (keys d) = Ok w ->
  w ∈ dom d /\ forall y, y ∈ dom d -> y <> w -> ranks_below l w y.
Proof.
  intros (Hw & i & Hi & Hall)%py_min_spec. apply elem_of_keys in Hw.
  split; [done|]. intros y Hy Hne. apply elem_of_keys in Hy.
  destruct (Hall y Hy) as (j & Hj & Hle).
  apply py_index_Ok in Hi, Hj. exists i, j. split_and!; [done..|].
  destruct (decide (i = j)) as [->|]; [|lia].
  destruct Hne. by eapply index_of_inj.
Qed.

(** The most preferred key, as [max] finds it. *)
Lemma py_max_best {V : Type} l (d : gmap string V) b :
  py_max (fun x => py_index x l) (keys d) = Ok b -> best_key l d b.
Proof.
  intros (Hb & i & Hi & Hall)%py_max_spec. apply elem_of_keys in Hb.
  split; [done|]. intros y Hy Hne. apply elem_of_keys in Hy.
  destruct (Hall y Hy) as (j & Hj & Hle).
  apply py_index_Ok in Hi, Hj. exists j, i. split_and!; [done..|].
  destruct (decide (i = j)) as [->|]; [|lia].
  destruct Hne. by eapply index_of_inj.
Qed.

Lemma best_not_bettered {V : Type} l (d : gmap string V) k :
  best_key l d k -> ~ bettered_key l d k.
Proof.
  intros [_ Hbest] (k' & Hk' & Hlt).
  destruct (decide (k' = k)) as [->|Hne]; [by eapply ranks_below_irrefl|].
  by eapply ranks_below_asym; [|apply Hbest].
Qed.

Lemma map_size_le_1 {K V : Type} `{Countable K} (m : gmap K V) a b x y :
  (size m <= 1)%nat -> m !! a = Some x -> m !! b = Some y -> a = b.
Proof.
  intros Hs Ha Hb. destruct (decide (a = b)) as [|Hne]; [done|].
  assert (size (delete a m) = 0%nat) as Hz
    by (rewrite map_size_delete_Some by eauto; lia).
  apply map_size_empty_iff in Hz.
  assert (delete a m !! b = Some y) as Hd by (by apply lookup_delete_Some).
  by rewrite Hz, lookup_empty in Hd.
Qed.

Lemma for_each_mono {A S : Type} (body : S -> A -> result S)
    (R : relation S) xs st st' :
  Reflexive R -> Transitive R ->
  (forall s x s', x ∈ xs -> body s x = Ok s' -> R s s') ->
  for_each body xs st = Ok st' -> R st st'.
Proof.
  intros Hrefl Htrans. revert st.
  induction xs as [|x xs IH]; intros st Hbody; simpl.
  - by intros [= <-].
  - intros (s1 & H1 & H2)%bind_Ok. etrans.
    + eapply Hbody; [by left|done].
    + apply IH; [|done]. intros s y s' Hy. apply Hbody. by right.
Qed.

Lemma for_each_member {A S : Type} (body : S -> A -> result S)
    (R : relation S) (Q : A -> S -> Prop) xs st st' :
  Reflexive R -> Transitive R ->
  (forall s x s', x ∈ xs -> body s x = Ok s' -> R s s' /\ Q x s') ->
  (forall a s s', R s s' -> Q a s -> Q a s') ->
  for_each body xs st = Ok st' -> forall x, x ∈ xs -> Q x st'.
Proof.
  intros Hrefl Htrans. revert st.
  induction xs as [|x xs IH]; intros st Hbody Hkeep; simpl.
  - by intros _ y ?%elem_of_nil.
  - intros (s1 & H1 & H2)%bind_Ok y [->|Hy]%elem_of_cons.
    + eapply (Hkeep _ s1).
      * eapply (for_each_mono body R xs); [done..| |done].
        intros s z s' Hz Hb. eapply Hbody; [by right|done].
      * eapply Hbody; [by left|done].
    + eapply (IH s1); [|done|done|done].
      intros s z s' Hz. apply Hbody. by right.
Qed.

Section Engine.
Context {Stmt : Type} `{Countable Stmt}.
Variable pick_tpl : gset (Z * option Stmt) -> nat.

Abbreviation tpl := (Z * option Stmt)%type.
Abbreviation rv_dict := (gmap string (gmap Z (gmap Z (gset tpl)))).
Abbreviation tc_dict :=
  (gmap Z (gmap string (gmap string (gmap Z (gmap Z (gset tpl)))))).
Abbreviation src_dict :=
  (gmap string
     (gmap Z (gmap string (gmap string (gmap Z (gmap Z (gset tpl))))))).

(** *** The [while] loop over the source tiers *)
Lemma drop_worse_sources_inv (sd0 : src_dict) (fuel : nat)
    (sd : src_dict) (acc : gset tpl) (sd' : src_dict)
    (acc' : gset tpl) :
  (size sd <= fuel)%nat ->
  sd ⊆ sd0 -> (sd0 <> ∅ -> sd <> ∅) ->
  (forall src tcd, sd0 !! src = Some tcd -> sd !! src = None ->
     leaves_tc tcd ⊆ acc /\
     forall y, y ∈ dom sd -> ranks_below text_content_sources src y) ->
  (forall t, t ∈ acc ->
     exists src tcd, sd0 !! src = Some tcd /\ sd !! src = None /\
                     t ∈ leaves_tc tcd) ->
  drop_worse_sources fuel sd acc = Ok (sd', acc') ->
  (size sd' <= 1)%nat /\ sd' ⊆ sd0 /\ (sd0 <> ∅ -> sd' <> ∅) /\
  (forall src tcd, sd0 !! src = Some tcd -> sd' !! src = None ->
     leaves_tc tcd ⊆ acc' /\
     forall y, y ∈ dom sd' -> ranks_below text_content_sources src y) /\
  (forall t, t ∈ acc' ->
     exists src tcd, sd0 !! src = Some tcd /\ sd' !! src = None /\
                     t ∈ leaves_tc tcd).
Proof.
  revert sd acc. induction fuel as [|fuel IH]; intros sd acc Hfuel Hsub
    Hne Hrem Hacc; simpl.
  - rewrite decide_False by lia. intros [= <- <-].
    split; [lia|done].
  - case_decide as Hsize; [|intros [= <- <-]; split; [lia|done]].
    intros (w & Hw & Hrec)%bind_Ok.
    apply py_min_least in Hw as [Hwd Hleast].
    apply elem_of_dom in Hwd as [tcdw Htw].
    rewrite Htw in Hrec. simpl in Hrec.
    assert (sd0 !! w = Some tcdw) as Htw0
      by (by eapply lookup_weaken).
    eapply IH; [| | | | |exact Hrec].
    + rewrite map_size_delete_Some by eauto. lia.
    + etrans; [apply delete_subseteq|done].
    + intros _ Hempty.
      assert (size (delete w sd) = 0%nat) as Hz
        by (by rewrite Hempty, map_size_empty).
      rewrite map_size_delete_Some in Hz by eauto. lia.
    + intros src tcd Hsrc0 [->|Hnone]%lookup_delete_None.
      * rewrite Htw0 in Hsrc0. injection Hsrc0 as <-.
        split; [set_solver|]. intros y Hy%elem_of_dom.
        destruct Hy as [v [Hyw Hy]%lookup_delete_Some].
        apply Hleast; [by apply elem_of_dom|done].
      * destruct (Hrem src tcd Hsrc0 Hnone) as [Hl Hr].
        split; [set_solver|]. intros y Hy%elem_of_dom.
        destruct Hy as [v [Hyw Hy]%lookup_delete_Some].
        apply Hr. by apply elem_of_dom.
    + intros t [Ht|Ht]%elem_of_union.
      * destruct (Hacc t Ht) as (src & tcd & H0 & Hn & Hl).
        exists src, tcd. split_and!; [done| |done].
        apply lookup_delete_None. by right.
      * exists w, tcdw. split_and!; [done| |done].
        apply lookup_delete_None. by left.
Qed.

(** What the loop leaves: the best tier, with every other tier
    recorded as bettered. *)
Lemma drop_worse_sources_spec (sd sd' : src_dict) (acc' : gset tpl) :
  drop_worse_sources (size sd) sd ∅ = Ok (sd', acc') ->
  (forall src tcd, sd !! src = Some tcd ->
     (sd' !! src = Some tcd /\ best_key text_content_sources sd src) \/
     (sd' !! src = None /\ bettered_key text_content_sources sd src /\
      leaves_tc tcd ⊆ acc')) /\
  (forall t, t ∈ acc' ->
     exists src tcd, sd !! src = Some tcd /\
       bettered_key text_content_sources sd src /\ t ∈ leaves_tc tcd) /\
  sd' ⊆ sd.
Proof.
  intros Hrun.
  destruct (drop_worse_sources_inv sd (size sd) sd ∅ sd' acc')
    as (Hsize & Hsub & Hne & Hrem & Hacc); [lia|done|done| | |done|].
  { intros src tcd Hs Hn. by rewrite Hs in Hn. }
  { intros t Ht. set_solver. }
  assert (forall src tcd, sd !! src = Some tcd -> sd' !! src = None ->
            bettered_key text_content_sources sd src) as Hbet.
  { intros src tcd Hs Hn. destruct (Hrem _ _ Hs Hn) as [_ Hr].
    assert (sd' <> ∅) as Hne' by (apply Hne; intros ->; by rewrite lookup_empty in Hs).
    apply map_size_non_empty_iff, map_size_ne_0_lookup in Hne'
      as [y Hy]. exists y. split.
    - destruct Hy as [v Hv]. apply elem_of_dom. exists v.
      by eapply lookup_weaken.
    - apply Hr. by apply elem_of_dom. }
  split_and!; [|intros t Ht|done].
  - intros src tcd Hs. destruct (sd' !! src) as [tcd'|] eqn:Hs'.
    + left. assert (tcd' = tcd) as ->.
      { pose proof (lookup_weaken _ _ _ _ Hs' Hsub) as Hw.
        rewrite Hs in Hw. by injection Hw. }
      split; [done|]. split; [by apply elem_of_dom|].
      intros k' [v Hk']%elem_of_dom Hneq.
      destruct (sd' !! k') as [v'|] eqn:Hk''.
      * destruct Hneq. by eapply map_size_le_1.
      * destruct (Hrem _ _ Hk' Hk'') as [_ Hr]. apply Hr.
        by apply elem_of_dom.
    + right. split; [done|]. split; [by eapply Hbet|].
      by destruct (Hrem _ _ Hs Hs').
  - destruct (Hacc t Ht) as (src & tcd & Hs & Hn & Hl).
    exists src, tcd. split_and!; [done| |done]. by eapply Hbet.
Qed.

(** *** Leaves and [gets] *)
Lemma elem_of_leaves_with {K V : Type} `{Countable K}
    (f : V -> gset tpl) (d : gmap K V) (t : tpl) :
  t ∈ leaves_with f d <-> exists k v, d !! k = Some v /\ t ∈ f v.
Proof.
  unfold leaves_with. rewrite elem_of_union_list. split.
  - intros (X & (v & -> & [k Hk]%elem_of_values)%list_elem_of_fmap & Ht).
    eauto.
  - intros (k & v & Hk & Ht). exists (f v). split; [|done].
    apply list_elem_of_fmap. exists v. split; [done|].
    apply elem_of_values. eauto.
Qed.

Lemma elem_of_leaves_tc (tcd : tc_dict) (t : tpl) :
  t ∈ leaves_tc tcd <->
  exists tcid rd reader rvd rv r_d,
    tcd !! tcid = Some rd /\ rd !! reader = Some rvd /\
    rvd !! rv = Some r_d /\ t ∈ leaves_r r_d.
Proof.
  unfold leaves_tc, leaves_reader, leaves_rv.
  rewrite elem_of_leaves_with. split.
  - intros (tcid & rd & H1 & (reader & rvd & H2 &
              (rv & r_d & H3 & Ht)%elem_of_leaves_with)%elem_of_leaves_with).
    eauto 10.
  - intros (tcid & rd & reader & rvd & rv & r_d & H1 & H2 & H3 & Ht).
    exists tcid, rd. split; [done|]. apply elem_of_leaves_with.
    exists reader, rvd. split; [done|]. apply elem_of_leaves_with. eauto.
Qed.

Lemma elem_of_gets (reader : string) (sd : src_dict) (rvd : rv_dict) :
  rvd ∈ gets reader sd <->
  exists src tcd tcid rd,
    sd !! src = Some tcd /\ tcd !! tcid = Some rd /\
    rd !! reader = Some rvd.
Proof.
  unfold gets. rewrite list_elem_of_bind. split.
  - intros (tcd & (rd & Hrvd & [tcid Hrd]%elem_of_values)%list_elem_of_bind
                & [src Htcd]%elem_of_values).
    destruct (rd !! reader) as [rvd'|] eqn:Hr; [|by apply elem_of_nil in Hrvd].
    apply list_elem_of_singleton in Hrvd as ->. eauto 8.
  - intros (src & tcd & tcid & rd & H1 & H2 & H3).
    exists tcd. split; [|apply elem_of_values; eauto].
    apply list_elem_of_bind. exists rd.
    split; [|apply elem_of_values; eauto]. rewrite H3. by left.
Qed.

(** *** One reader on one text content *)
Lemma foldl_bettered (best : string)
    (l : list (string * gmap Z (gmap Z (gset tpl)))) (b : gset tpl)
    (t : tpl) :
  t ∈ foldl (fun b '(rv, rd) =>
               if decide (rv ≠ best) then b ∪ leaves_r rd else b) b l
  <-> t ∈ b \/ exists rv rd, (rv, rd) ∈ l /\ rv <> best /\ t ∈ leaves_r rd.
Proof.
  revert b. induction l as [|[rv rd] l IH]; intros b; simpl.
  - split; [by left|]. intros [?|(? & ? & []%elem_of_nil & _)]. done.
  - rewrite IH. split.
    + intros [Hb|(rv' & rd' & Hin & Hne & Ht)].
      * case_decide as Hrv; [|by left].
        apply elem_of_union in Hb as [?|?]; [by left|].
        right. exists rv, rd. split; [by left|done].
      * right. exists rv', rd'. split; [by right|done].
    + intros [Hb|(rv' & rd' & [[= -> ->]|Hin]%elem_of_cons & Hne & Ht)].
      * left. case_decide; set_solver.
      * left. rewrite decide_True by done. set_solver.
      * right. eauto.
Qed.

Lemma detect_step_kept (linked : gset Z) (kept dups g kept' dups' : gset tpl) :
  detect_step pick_tpl linked (kept, dups) g = Ok (kept', dups') ->
  kept ⊆ kept' /\ forall t, t ∈ kept' -> t ∈ kept \/ t ∈ g.
Proof.
  unfold detect_step. intros Hstep.
  case_decide as H0; [injection Hstep as <- <-; set_solver|].
  case_decide as H1; [injection Hstep as <- <-; set_solver|].
  case_decide as HL0.
  - apply bind_Ok in Hstep as ([t0 rest] & Hpop & [= <- <-]).
    destruct (pop_spec pick_tpl g) as (t1 & Ht1 & Hpop');
      [by apply size_ge_2_nonempty|].
    rewrite Hpop' in Hpop. injection Hpop as <- <-. set_solver.
  - case_decide as HL1; [|done]. injection Hstep as <- <-.
    split; [set_solver|]. intros t [?|[_ ?]%elem_of_filter]%elem_of_union;
      auto.
Qed.

Lemma detect_kept_from_groups (groups : list (gset tpl)) (linked : gset Z)
    (kept dups : gset tpl) :
  _detect_exact_duplicates pick_tpl groups linked = Ok (kept, dups) ->
  forall t, t ∈ kept -> exists g, g ∈ groups /\ t ∈ g.
Proof.
  unfold _detect_exact_duplicates. intros Hrun.
  refine (for_each_inv _
            (fun st => forall t, t ∈ st.1 -> exists g, g ∈ groups /\ t ∈ g)
            _ _ _ _ _ Hrun).
  - simpl. set_solver.
  - intros [k d] g [k' d'] Hg IH Hstep t Ht. simpl in *.
    destruct (detect_step_kept _ _ _ _ _ _ Hstep) as [_ Hk].
    destruct (Hk t Ht) as [?|?]; eauto.
Qed.

Lemma filter_rv_dict_spec (linked : gset Z) (ign : bool)
    (rv_list : list string) (tpls : gset tpl) (dsids : gset Z)
    (bett : gset tpl) (rvd : rv_dict) (tpls' : gset tpl)
    (dsids' : gset Z) (bett' : gset tpl) :
  filter_rv_dict pick_tpl linked ign rv_list (tpls, dsids, bett) rvd
    = Ok (tpls', dsids', bett') ->
  exists best,
    best_key rv_list rvd best /\
    (forall t, t ∈ bett' <->
       t ∈ bett \/ exists rv rd, rvd !! rv = Some rd /\ rv <> best /\
                                 t ∈ leaves_r rd) /\
    tpls ⊆ tpls' /\
    (forall t, t ∈ tpls' ->
       t ∈ tpls \/ exists rd, rvd !! best = Some rd /\ t ∈ leaves_r rd).
Proof.
  unfold filter_rv_dict. intros (best & Hbest & Hrest)%bind_Ok.
  apply py_max_best in Hbest. exists best. split; [done|].
  destruct Hbest as [[rdb Hrdb]%elem_of_dom _]. rewrite Hrdb in Hrest.
  simpl in Hrest.
  assert (forall g, g ∈ (rd ← values rdb; values rd) ->
            forall t, t ∈ g -> t ∈ leaves_r rdb) as Hgroups.
  { intros g (sd & [h Hg]%elem_of_values & [rid Hsd]%elem_of_values)
             %list_elem_of_bind t Ht.
    apply elem_of_leaves_with. exists rid, sd. split; [done|].
    apply elem_of_leaves_with. exists h, g. done. }
  assert (bett' =
          foldl (fun b '(rv, rd) =>
                   if decide (rv ≠ best) then b ∪ leaves_r rd else b)
                bett (map_to_list rvd) /\
          tpls ⊆ tpls' /\
          forall t, t ∈ tpls' -> t ∈ tpls \/ t ∈ leaves_r rdb)
    as (-> & Hsub & Horigin).
  { destruct ign.
    - injection Hrest as <- <- <-. split; [done|]. split; [set_solver|].
      intros t [?|(g & Hg & Ht)%elem_of_union_list]%elem_of_union; eauto.
    - apply bind_Ok in Hrest as ([some dup] & Hdet & [= <- <- <-]).
      split; [done|]. split; [set_solver|].
      intros t [?|Ht]%elem_of_union; [by left|right].
      destruct (detect_kept_from_groups _ _ _ _ Hdet t Ht) as (g & ? & ?).
      eauto. }
  split_and!; [|done|].
  - intros t. rewrite foldl_bettered.
    by setoid_rewrite elem_of_map_to_list.
  - intros t Ht. destruct (Horigin t Ht); eauto.
Qed.

(** *** One text ref *)

Lemma filter_reader_spec (linked : gset Z) (ign : bool) (sd : src_dict)
    (st : gset tpl * gset Z * gset tpl) (reader : string)
    (rv_list : list string) (st' : gset tpl * gset Z * gset tpl) :
  filter_reader pick_tpl linked ign sd st (reader, rv_list) = Ok st' ->
  grows st st' /\
  (forall rvd rv rd t,
     rvd ∈ gets reader sd -> rvd !! rv = Some rd ->
     bettered_key rv_list rvd rv -> t ∈ leaves_r rd -> t ∈ st'.2) /\
  (forall t, t ∈ st'.1.1 ->
     t ∈ st.1.1 \/
     exists rvd rv rd,
       rvd ∈ gets reader sd /\ rvd !! rv = Some rd /\
       best_key rv_list rvd rv /\ t ∈ leaves_r rd).
Proof.
  unfold filter_reader. intros Hrun.
  assert (forall (s : gset tpl * gset Z * gset tpl) rvd s',
            filter_rv_dict pick_tpl linked ign rv_list s rvd = Ok s' ->
            grows s s' /\
            (forall rv rd t, rvd !! rv = Some rd ->
               bettered_key rv_list rvd rv -> t ∈ leaves_r rd -> t ∈ s'.2) /\
            (forall t, t ∈ s'.1.1 ->
               t ∈ s.1.1 \/
               exists rv rd, rvd !! rv = Some rd /\
                 best_key rv_list rvd rv /\ t ∈ leaves_r rd)) as Hbody.
  { intros [[a b] c] rvd [[a' b'] c']
           (best & Hbest & Hbett & Hsub & Horigin)%filter_rv_dict_spec.
    simpl. split_and!.
    - split; [done|]. intros t Ht. apply Hbett. by left.
    - intros rv rd t Hrv Hb Ht. apply Hbett. right.
      exists rv, rd. split_and!; [done| |done]. intros ->.
      by eapply best_not_bettered.
    - intros t Ht. destruct (Horigin t Ht) as [?|(rd & ? & ?)]; eauto 6. }
  split_and!.
  - eapply (for_each_mono _ grows); [| | |done].
    + by intros s.
    + intros s1 s2 s3 [? ?] [? ?]. split; by etrans.
    + intros s rvd s' _ Hs. by destruct (Hbody _ _ _ Hs).
  - intros rvd rv rd t Hin. revert rv rd t.
    eapply (for_each_member _ grows
              (fun rvd s => forall rv rd t, rvd !! rv = Some rd ->
                 bettered_key rv_list rvd rv -> t ∈ leaves_r rd -> t ∈ s.2));
      [| | | |done|done].
    + by intros s.
    + intros s1 s2 s3 [? ?] [? ?]. split; by etrans.
    + intros s x s' _ Hs. destruct (Hbody _ _ _ Hs) as (? & ? & _). done.
    + intros a s s' [_ Hg] Hq rv rd t ? ? ?. apply Hg. by eapply Hq.
  - refine (for_each_inv _
      (fun s => forall t, t ∈ s.1.1 ->
         t ∈ st.1.1 \/
         exists rvd rv rd,
           rvd ∈ gets reader sd /\ rvd !! rv = Some rd /\
           best_key rv_list rvd rv /\ t ∈ leaves_r rd) _ _ _ _ _ Hrun).
    + by left.
    + intros s rvd s' Hin IH Hs t Ht.
      destruct (Hbody _ _ _ Hs) as (_ & _ & Ho).
      destruct (Ho t Ht) as [?|(rv & rd & ? & ? & ?)]; [by apply IH|].
      right. eauto 8.
Qed.

Lemma filter_text_ref_spec (linked : gset Z) (ign : bool)
    (tpls : gset tpl) (dsids bsids : gset Z) (sd : src_dict)
    (tpls' : gset tpl) (dsids' bsids' : gset Z) :
  filter_text_ref pick_tpl linked ign (tpls, dsids, bsids) sd
    = Ok (tpls', dsids', bsids') ->
  (tpls ⊆ tpls' /\ bsids ⊆ bsids') /\
  (forall src tcd t,
     sd !! src = Some tcd -> bettered_key text_content_sources sd src ->
     t ∈ leaves_tc tcd -> t.1 ∈ bsids') /\
  (forall src tcd tcid rd reader rv_list rvd rv r_d t,
     sd !! src = Some tcd -> best_key text_content_sources sd src ->
     tcd !! tcid = Some rd -> (reader, rv_list) ∈ reader_versions ->
     rd !! reader = Some rvd -> rvd !! rv = Some r_d ->
     bettered_key rv_list rvd rv -> t ∈ leaves_r r_d -> t.1 ∈ bsids') /\
  (forall t, t ∈ tpls' ->
     t ∈ tpls \/
     exists src tcd tcid rd reader rv_list rvd rv r_d,
       sd !! src = Some tcd /\ best_key text_content_sources sd src /\
       tcd !! tcid = Some rd /\ (reader, rv_list) ∈ reader_versions /\
       rd !! reader = Some rvd /\ rvd !! rv = Some r_d /\
       best_key rv_list rvd rv /\ t ∈ leaves_r r_d).
Proof.
  unfold filter_text_ref.
  intros ([sd' some0] & Hdrop & Hrest)%bind_Ok.
  apply bind_Ok in Hrest as ([[tpls1 dsids1] some1] & Hloop & [= <- <- <-]).
  apply drop_worse_sources_spec in Hdrop as (Hsrc & _ & Hsub).
  assert (grows (tpls, dsids, some0) (tpls1, dsids1, some1)) as [Hg1 Hg2].
  { eapply (for_each_mono _ grows); [| | |done].
    - by intros s.
    - intros s1 s2 s3 [? ?] [? ?]. split; by etrans.
    - intros s [reader rv_list] s' _ Hs.
      by destruct (filter_reader_spec _ _ _ _ _ _ _ Hs). }
  simpl in Hg1, Hg2.
  assert (forall t, t ∈ some1 -> t.1 ∈ bsids ∪ sids_of some1) as Hsid.
  { intros t Ht. apply elem_of_union. right. unfold sids_of.
    apply elem_of_map. eauto. }
  split_and!.
  - exact Hg1.
  - set_solver.
  - intros src tcd t Hs Hb Ht.
    destruct (Hsrc _ _ Hs) as [[_ Hbest]|(_ & _ & Hl)].
    + by destruct (best_not_bettered _ _ _ Hbest).
    + apply Hsid. set_solver.
  - intros src tcd tcid rd reader rv_list rvd rv r_d t
           Hs Hbest Htc Hrl Hrd Hrv Hb Ht.
    destruct (Hsrc _ _ Hs) as [[Hs' _]|(_ & Hbet & _)];
      [|by destruct (best_not_bettered _ _ _ Hbest)].
    apply Hsid.
    assert (rvd ∈ gets reader sd') as Hgets
      by (apply elem_of_gets; eauto 8).
    assert (forall rl, rl ∈ reader_versions ->
              forall (rvd : rv_dict) rv r_d t,
                rvd ∈ gets rl.1 sd' -> rvd !! rv = Some r_d ->
                bettered_key rl.2 rvd rv -> t ∈ leaves_r r_d ->
                t ∈ (tpls1, dsids1, some1).2) as Hmem.
    { eapply (for_each_member _ grows
        (fun (rl : string * list string) s =>
           forall (rvd : rv_dict) rv r_d t,
             rvd ∈ gets rl.1 sd' -> rvd !! rv = Some r_d ->
             bettered_key rl.2 rvd rv -> t ∈ leaves_r r_d -> t ∈ s.2));
        [| | | |exact Hloop].
      - by intros s.
      - intros s1 s2 s3 [? ?] [? ?]. split; by etrans.
      - intros s [rdr rvl] s' _ Hbody.
        destruct (filter_reader_spec _ _ _ _ _ _ _ Hbody) as (Hg & Hm & _).
        split; [done|]. intros rvd0 rv0 r_d0 t0. simpl. apply Hm.
      - intros a s s' [_ Hg] Hq rvd0 rv0 r_d0 t0 ? ? ? ?.
        apply Hg. by eapply Hq. }
    apply (Hmem (reader, rv_list) Hrl rvd rv r_d t Hgets Hrv Hb Ht).
  - intros t Ht.
    assert (t ∈ tpls \/
            exists reader rv_list rvd rv rd,
              (reader, rv_list) ∈ reader_versions /\
              rvd ∈ gets reader sd' /\ rvd !! rv = Some rd /\
              best_key rv_list rvd rv /\ t ∈ leaves_r rd)
      as [?|(reader & rv_list & rvd & rv & r_d & Hrl & Hgets & Hrv & Hb & Hl)];
      [|by left|].
    { revert t Ht.
      change (forall t, t ∈ (tpls1, dsids1, some1).1.1 ->
                t ∈ tpls \/
                exists reader rv_list rvd rv rd,
                  (reader, rv_list) ∈ reader_versions /\
                  rvd ∈ gets reader sd' /\ rvd !! rv = Some rd /\
                  best_key rv_list rvd rv /\ t ∈ leaves_r rd).
      refine (for_each_inv _ (fun s => forall t, t ∈ s.1.1 -> _)
                _ _ _ _ _ Hloop); [by left|].
      intros s [reader rv_list] s' Hin IH Hs t Ht.
      destruct (filter_reader_spec _ _ _ _ _ _ _ Hs) as (_ & _ & Ho).
      destruct (Ho t Ht) as [?|(rvd & rv & rd & ? & ? & ? & ?)];
        [by apply IH|]. right. eauto 10. }
    right. apply elem_of_gets in Hgets
      as (src & tcd & tcid & rd & Hs' & Htc & Hrd).
    assert (sd !! src = Some tcd) as Hs by (by eapply lookup_weaken).
    destruct (Hsrc _ _ Hs) as [[_ Hbest]|(Hnone & _)];
      [|by rewrite Hs' in Hnone].
    exists src, tcd, tcid, rd, reader, rv_list, rvd, rv, r_d. done.
Qed.

(** *** Positions in the tree *)
Abbreviation position := (Z * string * Z * string * string)%type.
Abbreviation stmt_nd :=
  (gmap Z (gmap string
     (gmap Z (gmap string (gmap string (gmap Z (gmap Z (gset tpl)))))))).

Lemma subtree_Some (nd : stmt_nd) (trid : Z) (src : string) (tcid : Z)
    (reader rv : string) (r_d : gmap Z (gmap Z (gset tpl))) :
  subtree nd (trid, src, tcid, reader, rv) = Some r_d <->
  exists sd tcd rd rvd,
    nd !! trid = Some sd /\ sd !! src = Some tcd /\
    tcd !! tcid = Some rd /\ rd !! reader = Some rvd /\
    rvd !! rv = Some r_d.
Proof.
  unfold subtree. split.
  - destruct (nd !! trid) as [sd|]; simpl; [|done].
    destruct (sd !! src) as [tcd|] eqn:?; simpl; [|done].
    destruct (tcd !! tcid) as [rd|] eqn:?; simpl; [|done].
    destruct (rd !! reader) as [rvd|] eqn:?; simpl; [|done].
    intros Hrv. by exists sd, tcd, rd, rvd.
  - intros (sd & tcd & rd & rvd & -> & H2 & H3 & H4 & H5). simpl.
    rewrite H2. simpl. rewrite H3. simpl. rewrite H4. done.
Qed.

Lemma versions_at_Some (nd : stmt_nd) (trid : Z) (src : string)
    (tcid : Z) (reader rv : string) (rvd : rv_dict) :
  versions_at nd (trid, src, tcid, reader, rv) = Some rvd <->
  exists sd tcd rd,
    nd !! trid = Some sd /\ sd !! src = Some tcd /\
    tcd !! tcid = Some rd /\ rd !! reader = Some rvd.
Proof.
  unfold versions_at. split.
  - destruct (nd !! trid) as [sd|]; simpl; [|done].
    destruct (sd !! src) as [tcd|] eqn:?; simpl; [|done].
    destruct (tcd !! tcid) as [rd|] eqn:?; simpl; [|done].
    intros Hrv. by exists sd, tcd, rd.
  - intros (sd & tcd & rd & -> & H2 & H3 & H4). simpl.
    rewrite H2. simpl. rewrite H3. done.
Qed.

Lemma elem_of_occurrences (nd : stmt_nd) (p : position) (t : tpl) :
  (p, t) ∈ occurrences nd <-> occurs nd p t.
Proof.
  destruct p as [[[[trid src] tcid] reader] rv].
  unfold occurs, occurrences. setoid_rewrite subtree_Some. split.
  - intros ([trid' sd] & Hin & H1%elem_of_map_to_list)%list_elem_of_bind.
    apply list_elem_of_bind in Hin
      as ([src' tcd] & Hin & H2%elem_of_map_to_list).
    apply list_elem_of_bind in Hin
      as ([tcid' rd] & Hin & H3%elem_of_map_to_list).
    apply list_elem_of_bind in Hin
      as ([reader' rvd] & Hin & H4%elem_of_map_to_list).
    apply list_elem_of_bind in Hin
      as ([rv' r_d] & Hin & H5%elem_of_map_to_list).
    apply list_elem_of_bind in Hin as (t' & Hin & Ht%elem_of_elements).
    apply list_elem_of_singleton in Hin. injection Hin as -> -> -> -> -> ->.
    exists r_d. split; [|done]. by exists sd, tcd, rd, rvd.
  - intros (r_d & (sd & tcd & rd & rvd & H1 & H2 & H3 & H4 & H5) & Ht).
    apply list_elem_of_bind. exists (trid, sd).
    split; [|by apply elem_of_map_to_list].
    apply list_elem_of_bind. exists (src, tcd).
    split; [|by apply elem_of_map_to_list].
    apply list_elem_of_bind. exists (tcid, rd).
    split; [|by apply elem_of_map_to_list].
    apply list_elem_of_bind. exists (reader, rvd).
    split; [|by apply elem_of_map_to_list].
    apply list_elem_of_bind. exists (rv, r_d).
    split; [|by apply elem_of_map_to_list].
    apply list_elem_of_bind. exists t.
    split; [by left|by apply elem_of_elements].
Qed.

Lemma NoDup_fmap_eq {A B : Type} (f : A -> B) (l : list A) x y :
  NoDup (f <$> l) -> x ∈ l -> y ∈ l -> f x = f y -> x = y.
Proof.
  induction l as [|a l IH]; simpl; [by intros _ ?%elem_of_nil|].
  intros [Ha Hl]%NoDup_cons [->|Hx]%elem_of_cons [->|Hy]%elem_of_cons Hf.
  - done.
  - destruct Ha. rewrite Hf. by apply list_elem_of_fmap_2.
  - destruct Ha. rewrite <- Hf. by apply list_elem_of_fmap_2.
  - by apply IH.
Qed.

Lemma unique_sids_position (nd : stmt_nd) (p p' : position) (t t' : tpl) :
  unique_sids nd -> occurs nd p t -> occurs nd p' t' -> t.1 = t'.1 ->
  p = p'.
Proof.
  intros Hnd Ho%elem_of_occurrences Ho'%elem_of_occurrences Hsid.
  by injection (NoDup_fmap_eq _ _ _ _ Hnd Ho Ho' Hsid).
Qed.

(** *** The whole tree *)
Lemma reader_versions_functional (reader : string) (l l' : list string) :
  (reader, l) ∈ reader_versions -> (reader, l') ∈ reader_versions -> l = l'.
Proof.
  unfold reader_versions.
  intros [[= -> ->]|[[= -> ->]|[]%elem_of_nil]%elem_of_cons]%elem_of_cons
         [[= ->]|[[= ->]|[]%elem_of_nil]%elem_of_cons]%elem_of_cons; done.
Qed.

Lemma filter_rdg_tpls_spec (nd : stmt_nd) (linked : gset Z) (ign : bool)
    (tpls : gset tpl) (dsids bsids : gset Z) :
  filter_rdg_tpls pick_tpl nd linked ign = Ok (tpls, dsids, bsids) ->
  (forall p t, occurs nd p t -> in_bettered_source nd p -> t.1 ∈ bsids) /\
  (forall p t rv_list rvd,
     occurs nd p t -> in_surviving_tier nd p rv_list ->
     versions_at nd p = Some rvd ->
     bettered_key rv_list rvd (version_of p) -> t.1 ∈ bsids) /\
  (forall t, t ∈ tpls ->
     exists p rv_list rvd,
       occurs nd p t /\ in_surviving_tier nd p rv_list /\
       versions_at nd p = Some rvd /\
       best_key rv_list rvd (version_of p)).
Proof.
  unfold filter_rdg_tpls. intros Hrun.
  assert (forall sd : src_dict, sd ∈ values nd ->
            (forall src tcd t,
               sd !! src = Some tcd ->
               bettered_key text_content_sources sd src ->
               t ∈ leaves_tc tcd -> t.1 ∈ (tpls, dsids, bsids).2) /\
            (forall src tcd tcid rd reader rv_list rvd rv r_d t,
               sd !! src = Some tcd ->
               best_key text_content_sources sd src ->
               tcd !! tcid = Some rd ->
               (reader, rv_list) ∈ reader_versions ->
               rd !! reader = Some rvd -> rvd !! rv = Some r_d ->
               bettered_key rv_list rvd rv -> t ∈ leaves_r r_d ->
               t.1 ∈ (tpls, dsids, bsids).2)) as Hmem.
  { eapply (for_each_member _ grows
      (fun (sd : src_dict) (s : gset tpl * gset Z * gset Z) =>
         (forall src tcd t,
            sd !! src = Some tcd ->
            bettered_key text_content_sources sd src ->
            t ∈ leaves_tc tcd -> t.1 ∈ s.2) /\
         (forall src tcd tcid rd reader rv_list rvd rv r_d t,
            sd !! src = Some tcd ->
            best_key text_content_sources sd src ->
            tcd !! tcid = Some rd ->
            (reader, rv_list) ∈ reader_versions ->
            rd !! reader = Some rvd -> rvd !! rv = Some r_d ->
            bettered_key rv_list rvd rv -> t ∈ leaves_r r_d ->
            t.1 ∈ s.2))); [| | | |exact Hrun].
    - by intros s.
    - intros s1 s2 s3 [? ?] [? ?]. split; by etrans.
    - intros [[a b] c] sd [[a' b'] c'] _ Hbody.
      destruct (filter_text_ref_spec _ _ _ _ _ _ _ _ _ Hbody)
        as ([? ?] & HA & HB & _). done.
    - intros sd s s' [_ Hg] [HA HB]. split.
      + intros src tcd t ? ? ?. apply Hg. by eapply HA.
      + intros src tcd tcid rd reader rv_list rvd rv r_d t ? ? ? ? ? ? ? ?.
        apply Hg. by eapply HB. }
  simpl in Hmem. split_and!.
  - intros [[[[trid src] tcid] reader] rv] t
           (r_d & (sd & tcd & rd & rvd & H1 & H2 & H3 & H4 & H5)%subtree_Some
                & Ht) (sd' & H1' & Hbet).
    rewrite H1 in H1'. injection H1' as <-.
    destruct (Hmem sd) as [HA _]; [apply elem_of_values; eauto|].
    eapply HA; [done|done|]. apply elem_of_leaves_tc. eauto 10.
  - intros [[[[trid src] tcid] reader] rv] t rv_list rvd'
           (r_d & (sd & tcd & rd & rvd & H1 & H2 & H3 & H4 & H5)%subtree_Some
                & Ht) (Hrl & sd' & H1' & Hbest)
           (sd2 & tcd2 & rd2 & G1 & G2 & G3 & G4)%versions_at_Some Hbet.
    rewrite H1 in H1', G1. injection H1' as <-. injection G1 as <-.
    rewrite H2 in G2. injection G2 as <-.
    rewrite H3 in G3. injection G3 as <-.
    rewrite H4 in G4. injection G4 as <-.
    destruct (Hmem sd) as [_ HB]; [apply elem_of_values; eauto|].
    by eapply (HB src tcd tcid rd reader rv_list rvd rv r_d t).
  - intros t Ht.
    assert (exists sd : src_dict, sd ∈ values nd /\
              exists src tcd tcid rd reader rv_list rvd rv r_d,
                sd !! src = Some tcd /\
                best_key text_content_sources sd src /\
                tcd !! tcid = Some rd /\
                (reader, rv_list) ∈ reader_versions /\
                rd !! reader = Some rvd /\ rvd !! rv = Some r_d /\
                best_key rv_list rvd rv /\ t ∈ leaves_r r_d)
      as (sd & [trid Htr]%elem_of_values & src & tcd & tcid & rd & reader &
          rv_list & rvd & rv & r_d & H2 & Hbs & H3 & Hrl & H4 & H5 & Hbv & Hl).
    { revert t Ht.
      change (forall t, t ∈ (tpls, dsids, bsids).1.1 ->
                exists sd : src_dict, sd ∈ values nd /\
                  exists src tcd tcid rd reader rv_list rvd rv r_d,
                    sd !! src = Some tcd /\
                    best_key text_content_sources sd src /\
                    tcd !! tcid = Some rd /\
                    (reader, rv_list) ∈ reader_versions /\
                    rd !! reader = Some rvd /\ rvd !! rv = Some r_d /\
                    best_key rv_list rvd rv /\ t ∈ leaves_r r_d).
      refine (for_each_inv _ (fun s => forall t, t ∈ s.1.1 -> _)
                _ _ _ _ _ Hrun); [simpl; set_solver|].
      intros [[a b] c] sd [[a' b'] c'] Hin IH Hbody t Ht.
      destruct (filter_text_ref_spec _ _ _ _ _ _ _ _ _ Hbody)
        as (_ & _ & _ & Ho).
      destruct (Ho t Ht) as [?|Hpath]; [by apply IH|]. eauto. }
    exists (trid, src, tcid, reader, rv), rv_list, rvd. split_and!.
    + exists r_d. split; [|done]. apply subtree_Some. eauto 10.
    + split; [done|]. eauto.
    + apply versions_at_Some. eauto 10.
    + done.
Qed.

(** C2 (as amended): when [get_filtered_rdg_stmts] returns, every
    statement id under a source tier that another tier of the same text
    ref betters is among the bettered duplicates; in the surviving
    tier, for each text content and each reader of [reader_versions],
    every statement id under a version that another version of that
    reader on that text content betters is among them too; every kept
    statement comes from the best version of a reader on a text content
    of the surviving tier; and when no statement id occurs twice in the
    tree, none of the bettered ids above is among the kept ids. *)
Theorem better_sources_and_versions (nd : stmt_nd) (get_full_stmts : bool)
    (linked_sids : option (gset Z)) (ignore_duplicates : bool)
    (stmts : gset (Stmt + Z)) (dsids bsids : gset Z) :
  get_filtered_rdg_stmts pick_tpl nd get_full_stmts linked_sids
    ignore_duplicates = Ok (stmts, dsids, bsids) ->
  (forall p t, occurs nd p t -> in_bettered_source nd p -> t.1 ∈ bsids) /\
  (forall p t rv_list rvd,
     occurs nd p t -> in_surviving_tier nd p rv_list ->
     versions_at nd p = Some rvd ->
     bettered_key rv_list rvd (version_of p) -> t.1 ∈ bsids) /\
  (forall x, x ∈ stmts ->
     exists p t rv_list rvd,
       occurs nd p t /\
       (x = inr t.1 \/ exists s, t.2 = Some s /\ x = inl s) /\
       in_surviving_tier nd p rv_list /\
       versions_at nd p = Some rvd /\
       best_key rv_list rvd (version_of p)) /\
  (get_full_stmts = false -> unique_sids nd ->
   forall p t,
     occurs nd p t ->
     in_bettered_source nd p \/
     (exists rv_list rvd,
        in_surviving_tier nd p rv_list /\ versions_at nd p = Some rvd /\
        bettered_key rv_list rvd (version_of p)) ->
     inr t.1 ∉ stmts).
Proof.
  unfold get_filtered_rdg_stmts.
  intros ([[tpls d] b] & Hrun & Hrest)%bind_Ok.
  apply bind_Ok in Hrest as (s & Hstmts & [= <- <- <-]).
  destruct (filter_rdg_tpls_spec _ _ _ _ _ _ Hrun) as (HA & HB & HC).
  assert (forall x, x ∈ s ->
            exists t, t ∈ tpls /\
              (x = inr t.1 \/ exists s0, t.2 = Some s0 /\ x = inl s0))
    as Hfrom.
  { unfold stmts_of in Hstmts. destruct get_full_stmts.
    - case_decide; [|done]. injection Hstmts as <-.
      intros x (t & Ht%elem_of_elements & Hx)%elem_of_list_to_set
               %list_elem_of_omap.
      exists t. split; [done|]. right.
      destruct (t.2) as [s0|]; [|done]. injection Hx as <-. eauto.
    - injection Hstmts as <-. intros x (t & -> & Ht)%elem_of_map. eauto. }
  split_and!; [done|done| |].
  - intros x Hx. destruct (Hfrom x Hx) as (t & Ht & Hxt).
    destruct (HC t Ht) as (p & rv_list & rvd & ? & ? & ? & ?).
    exists p, t, rv_list, rvd. done.
  - intros -> Huniq p t Ho Hbet Hin.
    injection Hstmts as <-.
    apply elem_of_map in Hin as (t' & [= Hsid] & Ht').
    destruct (HC t' Ht') as (p' & rv_list' & rvd' & Ho' & Hs' & Hv' & Hb').
    assert (p = p') as <- by (by eapply unique_sids_position).
    destruct p as [[[[trid src] tcid] reader] rv].
    destruct Hs' as (Hrl' & sd' & Hsd' & Hbest').
    destruct Hbet as [(sd & Hsd & Hbet)|
                      (rv_list & rvd & (Hrl & _) & Hv & Hbet)].
    + rewrite Hsd' in Hsd. injection Hsd as <-.
      by eapply best_not_bettered.
    + rewrite Hv' in Hv. injection Hv as <-.
      rewrite (reader_versions_functional _ _ _ Hrl Hrl') in Hbet.
      exact (best_not_bettered _ _ _ Hb' Hbet).
Qed.

End Engine.

Lemma better_sources_and_versions_witness :
  exists stmts dsids bsids,
    get_filtered_rdg_stmts first_member two_tiers_tree false
      (Some {[ 13%Z ]}) false = Ok (stmts, dsids, bsids) /\
    1%Z ∈ bsids /\ 11%Z ∈ bsids.
Proof.
  destruct (get_filtered_rdg_stmts first_member two_tiers_tree false
              (Some {[ 13%Z ]}) false)
    as [[[stmts dsids] bsids]|e] eqn:E; [|by vm_compute in E].
  exists stmts, dsids, bsids. split; [done|].
  destruct (better_sources_and_versions _ _ _ _ _ _ _ _ E)
    as (HA & HB & _). clear E. split.
  - apply (HA (1%Z, "pubmed", 10%Z, "reach", "61059a-biores-e9ee36")
              (1%Z, None)).
    + exists {[ 100%Z := example_leaf 7 [1%Z] ]}.
      split; vm_compute; reflexivity.
    + exists two_tiers_text_ref. split; [reflexivity|]. exists "pmc_oa".
      split; [vm_compute; reflexivity|]. exists 0%nat, 3%nat.
      split_and!; [reflexivity|reflexivity|lia].
  - apply (HB (1%Z, "pmc_oa", 12%Z, "reach", "61059a-biores-e9ee36")
              (11%Z, None)
              ["61059a-biores-e9ee36"; "1.3.3-61059a-biores-"]
              (reach_versions_of 102 [11%Z] [12%Z; 13%Z])).
    + exists {[ 102%Z := example_leaf 7 [11%Z] ]}.
      split; vm_compute; reflexivity.
    + split; [unfold reader_versions; apply elem_of_cons; right;
              apply elem_of_cons; by left|].
      exists two_tiers_text_ref. split; [reflexivity|].
      split; [vm_compute; reflexivity|].
      intros k' Hk' Hne. exists 0%nat, 3%nat.
      assert (k' = "pubmed") as ->;
        [|split_and!; [reflexivity|reflexivity|lia]].
      unfold two_tiers_text_ref in Hk'.
      apply elem_of_dom in Hk' as [v Hv].
      apply lookup_insert_Some in Hv as [[<- _]|[_ Hv]]; [done|].
      apply lookup_singleton_Some in Hv as [<- _]. done.
    + vm_compute. reflexivity.
    + exists "1.3.3-61059a-biores-". split; [vm_compute; reflexivity|].
      exists 0%nat, 1%nat. split_and!; [reflexivity|reflexivity|lia].
Defined.

(** The claim fails when the surviving tier holds two text contents read
    by different versions of one reader: the statement under the older
    version is kept, and it is not a bettered duplicate. *)
Lemma versions_compared_per_text_content :
  get_filtered_rdg_stmts first_member two_contents_tree false None false
    = Ok ({[ inr 1%Z; inr 2%Z ]}, ∅, ∅) /\
  occurs two_contents_tree
    (1%Z, "pubmed", 10%Z, "reach", "61059a-biores-e9ee36") (1%Z, None) /\
  occurs two_contents_tree
    (1%Z, "pubmed", 11%Z, "reach", "1.3.3-61059a-biores-") (2%Z, None) /\
  ranks_below ["61059a-biores-e9ee36"; "1.3.3-61059a-biores-"]
    "61059a-biores-e9ee36" "1.3.3-61059a-biores-".
Proof.
  split_and!.
  - vm_compute. reflexivity.
  - exists {[ 100%Z := example_leaf 7 [1%Z] ]}.
    split; vm_compute; reflexivity.
  - exists {[ 101%Z := example_leaf 8 [2%Z] ]}.
    split; vm_compute; reflexivity.
  - exists 0%nat, 1%nat. split_and!; [reflexivity|reflexivity|lia].
Qed.

End BetteredFacts.

(** ** More on [submit_curation], [get_curations] and the groundings *)

Module CurationMore.
Import PyStr PyStrFacts Re ReFacts Curation CurationSpec GroundingSpec
       GroundingFacts.

Lemma splitlines_go_one_line cur s :
  all_chars (fun c => negb (is_linebreak c)) s = true ->
  (length (splitlines_go cur s) <= 1)%nat.
Proof.
  revert cur. induction s as [|c s IH]; intros cur Hs; simpl.
  - destruct cur; simpl; lia.
  - simpl in Hs. apply andb_true_iff in Hs as [Hc Hs].
    apply negb_true_iff in Hc. rewrite Hc. by apply IH.
Qed.

(** An integrity error whose message is a single line: the detail line is
    looked up at index 1, which raises [IndexError]; the integrity error
    itself is lost and no bad hash is reported. *)
Theorem submit_curation_one_line_message
    (hash_val : Z) (tag curator ip : string) (text : option string)
    (ev_hash : option Z) (source : string) (db : database) (msg : string) :
  db_insert db (CurationRow tag text curator ip source hash_val ev_hash)
    = Raise (IntegrityError msg) ->
  all_chars (fun c => negb (is_linebreak c)) msg = true ->
  submit_curation hash_val tag curator ip text ev_hash source db
    = Raise IndexError.
Proof.
  intros Hins Hmsg. unfold submit_curation. rewrite Hins.
  pose proof (splitlines_go_one_line "" msg Hmsg) as Hlen.
  unfold splitlines.
  destruct (splitlines_go "" msg !! 1%nat) as [l|] eqn:E; [|done].
  apply lookup_lt_Some in E. lia.
Qed.

Lemma submit_curation_one_line_message_witness :
  submit_curation 12345 "wrong_relation" "curator" "127.0.0.1" None None
    "direct_client"
    (Database (fun _ => Raise (IntegrityError "duplicate key value")) [])
  = Raise IndexError.
Proof.
  apply (submit_curation_one_line_message 12345 "wrong_relation" "curator"
           "127.0.0.1" None None "direct_client" _ "duplicate key value");
    reflexivity.
Defined.

Lemma rename_idemp key : rename (rename key) = rename key.
Proof.
  unfold rename. repeat case_decide; congruence.
Qed.

Lemma constraints_rename params :
  constraints (prod_map rename id <$> params) = constraints params.
Proof.
  induction params as [|[key val] params IH]; [done|].
  rewrite fmap_cons. cbn [prod_map fst snd constraints id].
  rewrite rename_idemp, IH. done.
Qed.

(** The keywords [hash_val] and [ev_hash] are other names of the columns
    [pa_hash] and [source_hash]: renaming the keywords of a query
    beforehand changes nothing. *)
Theorem get_curations_keyword_aliases (db : database)
    (params : list (string * param)) (p : param) :
  get_curations db (prod_map rename id <$> params) = get_curations db params /\
  get_curations db (("hash_val", p) :: params)
    = get_curations db (("pa_hash", p) :: params) /\
  get_curations db (("ev_hash", p) :: params)
    = get_curations db (("source_hash", p) :: params).
Proof.
  split; [|split].
  - unfold get_curations. by rewrite constraints_rename.
  - reflexivity.
  - reflexivity.
Qed.





Lemma no_char_join x sep parts :
  no_char x (join sep parts) -> Forall (no_char x) parts.
Proof.
  induction parts as [|p [|q parts] IH]; intros Hj.
  - constructor.
  - by repeat constructor.
  - rewrite join_cons in Hj. apply no_char_app in Hj as [Hp Hj].
    apply no_char_cons in Hj as [_ Hj]. constructor; [done|by apply IH].
Qed.

Lemma dbids_of_lookup entries ns i :
  dbids_of entries !! ns = Some i -> (ns, i) ∈ entries.
Proof.
  unfold dbids_of.
  assert (forall acc : gmap string string,
            foldl (fun acc e => <[e.1 := e.2]> acc) acc entries !! ns
              = Some i ->
            acc !! ns = Some i \/ (ns, i) ∈ entries) as Hgen.
  { induction entries as [|[k v] entries IH]; intros acc; simpl; [by left|].
    intros [Hacc|Hin]%IH.
    - apply lookup_insert_Some in Hacc as [[<- <-]|[_ Hacc]].
      + right. by left.
      + by left.
    - right. by right. }
  intros [Hacc|Hin]%Hgen; [by rewrite lookup_empty in Hacc|done].
Qed.

Lemma last_omap_Some {A B : Type} (f : A -> option B) (l : list A) (b : B) :
  last (omap f l) = Some b -> exists a, a ∈ l /\ f a = Some b.
Proof.
  intros Hl. assert (b ∈ omap f l) as Hb.
  { destruct (omap f l) as [|y ys] using rev_ind; [done|].
    rewrite last_snoc in Hl. injection Hl as ->.
    apply elem_of_app. right. by left. }
  by apply list_elem_of_omap in Hb.
Qed.

(** What the returned groundings never hold: a mention with a newline, an
    empty namespace dict, a namespace with a colon, or a namespace or an
    identifier with a bar or a space. *)
Theorem grounding_curations_well_formed (db : database) :
  exists g,
    get_grounding_curations db = Ok g /\
    forall m d,
      g !! m = Some d ->
      no_char "010" m /\ d <> ∅ /\
      forall ns i,
        d !! ns = Some i ->
        no_char ":" ns /\ no_char "|" ns /\ no_char " " ns /\
        no_char "|" i /\ no_char " " i.
Proof.
  unfold get_grounding_curations. rewrite get_curations_grounding. simpl.
  eexists. split; [done|]. intros m d Hm.
  rewrite foldl_grounding_step, lookup_empty in Hm.
  destruct (last_contribution m _) as [d'|] eqn:El; [|done].
  injection Hm as ->.
  apply last_omap_Some in El as (cur & _ & Hcur).
  destruct (grounding_entry cur) as [[m' d']|] eqn:Ecur; [|done].
  case_decide; [|done]. subst m'. injection Hcur as ->.
  apply grounding_entry_spec in Ecur
    as (t & ids & entries & _ & (_ & Hm & _ & Hsp) & (Hne & Hids & Hent) & ->).
  split; [done|]. split.
  - destruct entries as [|e entries] using rev_ind; [done|].
    unfold dbids_of. rewrite foldl_app. simpl. intros Hd.
    apply (f_equal (fun d : gmap string string => d !! e.1)) in Hd.
    by rewrite lookup_insert_eq, lookup_empty in Hd.
  - intros ns i Hin%dbids_of_lookup.
    rewrite Forall_forall in Hent. destruct (Hent _ Hin) as (H1 & H2 & H3).
    rewrite Hids in Hsp. apply no_char_join in Hsp.
    rewrite Forall_forall in Hsp.
    specialize (Hsp (ns +:+ String ":" i)).
    rewrite no_char_app, no_char_cons in Hsp.
    destruct Hsp as (? & _ & ?); [|done].
    apply list_elem_of_fmap. by exists (ns, i).
Qed.

End CurationMore.

(** ** More on the preassembly submitter *)

Module SubmitterMore.
Import PyStr PyStrFacts PreassemblySubmitter.

(** A submitter is only built for the tasks create and update, and each
    such submitter is served by the queue run_db_reading_queue; any other
    task is refused with [ValueError] and would select no queue. *)
Theorem init_selects_reading_queue (job_base s3_base task : string) :
  (task = "create" \/ task = "update" ->
   init job_base s3_base task = Ok (Submitter job_base s3_base task) /\
   _iter_over_select_queues (Submitter job_base s3_base task)
     = ["run_db_reading_queue"]) /\
  (task <> "create" -> task <> "update" ->
   init job_base s3_base task = Raise ValueError /\
   _iter_over_select_queues (Submitter job_base s3_base task) = []).
Proof.
  split.
  - by intros [-> | ->].
  - intros H1 H2. unfold init, _iter_over_select_queues, _job_queue_dict.
    rewrite bool_decide_eq_false_2 by set_solver.
    split; [done|]. simpl. rewrite filter_cons, decide_False; [done|].
    simpl. set_solver.
Qed.

(** [_get_command] takes a statement type and a batch size, with or
    without the continuation flag: any other number of arguments fails
    with [ValueError] while they are unpacked, before the task is looked
    at. *)
Theorem get_command_wrong_arity (bucket_name : string) (self : submitter)
    (job_type_set : list string) (args : list pyval) :
  length args <> 2%nat -> length args <> 3%nat ->
  _get_command bucket_name self job_type_set args = Raise ValueError.
Proof.
  intros H2 H3. by destruct args as [|a [|b [|c [|d args]]]].
Qed.

Lemma get_command_wrong_arity_witness :
  _get_command "bigmech" (Submitter "run1" "preassembly/run1" "update")
    ["create"] [PStr "Phosphorylation"] = Raise ValueError.
Proof.
  apply get_command_wrong_arity; simpl; lia.
Defined.

Lemma get_command_Ok bucket_name self job_type_set t rest name cmd :
  _get_command bucket_name self job_type_set (PStr t :: rest)
    = Ok (Some name, Some cmd) ->
  name = job_base self +:+ "_" +:+ task self +:+ "_" +:+ t /\
  cmd !! 7%nat
    = Some ("s3://" +:+ bucket_name +:+ "/" +:+ s3_base self +:+ "/" +:+ name)
  /\ cmd !! 9%nat = Some t.
Proof.
  unfold _get_command. intros Hc.
  destruct rest as [|b [|c [|d rest]]]; try done; simpl in Hc;
    destruct (bool_decide (task self ∈ job_type_set)); simpl in Hc;
    try done; injection Hc as <- <-.
  - done.
  - by destruct (truthy c).
Qed.

(** One submitter never gives the jobs of two statement types the same
    name or the same cache path. *)
Theorem job_names_distinct (bucket_name : string) (self : submitter)
    (job_type_set : list string) (t1 t2 : string) (rest1 rest2 : list pyval)
    (name1 name2 : string) (cmd1 cmd2 : list string) :
  _get_command bucket_name self job_type_set (PStr t1 :: rest1)
    = Ok (Some name1, Some cmd1) ->
  _get_command bucket_name self job_type_set (PStr t2 :: rest2)
    = Ok (Some name2, Some cmd2) ->
  t1 <> t2 ->
  name1 <> name2 /\ cmd1 !! 7%nat <> cmd2 !! 7%nat.
Proof.
  intros (-> & -> & _)%get_command_Ok (-> & -> & _)%get_command_Ok Hne.
  split.
  - intros E. by repeat apply app_inv_head in E.
  - intros [= E]. by repeat apply app_inv_head in E.
Qed.

Lemma job_names_distinct_witness :
  "run1_update_Phosphorylation" <> "run1_update_Complex" /\
  Some "s3://bigmech/preassembly/run1/run1_update_Phosphorylation"
  <> Some "s3://bigmech/preassembly/run1/run1_update_Complex".
Proof.
  pose (self := Submitter "run1" "preassembly/run1" "update").
  refine (job_names_distinct "bigmech" self ["update"]
            "Phosphorylation" "Complex" [PInt 2000] [PInt 100; PBool true]
            _ _
            ["python3"; "-m"; "indra_db.preassembly.preassemble_db";
             "update"; "-n"; "32"; "-C";
             "s3://bigmech/preassembly/run1/run1_update_Phosphorylation";
             "-T"; "Phosphorylation"; "-Y"; "-b"; "2000"]
            ["python3"; "-m"; "indra_db.preassembly.preassemble_db";
             "update"; "-n"; "32"; "-C";
             "s3://bigmech/preassembly/run1/run1_update_Complex";
             "-T"; "Complex"; "-Y"; "-b"; "100"; "-c"]
            _ _ _); [reflexivity|reflexivity|done].
Defined.

Section Statements.
Variable statement_classes : list string.

Lemma invalid_types_empty (type_list : list string) :
  (list_to_set type_list ∖ list_to_set (VALID_STATEMENTS statement_classes)
     : gset string) = ∅
  <-> Forall (fun t => t ∈ statement_classes /\
                       t ∉ DEFAULT_AVOID_STATEMENTS) type_list.
Proof.
  rewrite Forall_forall. unfold VALID_STATEMENTS. split.
  - intros Hs t Ht.
    assert (t ∈ filter (fun name => name ∉ DEFAULT_AVOID_STATEMENTS)
                       statement_classes) as Hin.
    { destruct (decide (t ∈ filter (fun name => name ∉ DEFAULT_AVOID_STATEMENTS)
                               statement_classes)) as [|Hn]; [done|].
      assert (t ∈ (∅ : gset string)) as Hbad; [|set_solver].
      rewrite <- Hs. apply elem_of_difference.
      by rewrite !elem_of_list_to_set. }
    apply list_elem_of_filter in Hin. tauto.
  - intros Hall. apply set_eq. intros t.
    rewrite elem_of_difference, !elem_of_list_to_set, list_elem_of_filter.
    split; [|set_solver]. intros [Ht Hn]. destruct Hn.
    destruct (Hall t Ht). done.
Qed.

(** Which statement types give jobs: a list of names of statement
    classes none of which is Event, Influence or Unresolved gives one
    argument tuple per name, in order; a list with any other name is
    refused with [ValueError]; no list at all stands for every valid
    statement class. *)
Theorem iter_job_args_validity (type_list : list string)
    (rest : list pyval) :
  (Forall (fun t => t ∈ statement_classes /\
                    t ∉ DEFAULT_AVOID_STATEMENTS) type_list ->
   _iter_job_args statement_classes (Some type_list) rest
   = Ok ((fun t => PStr t :: rest) <$> type_list)) /\
  (Exists (fun t => t ∉ statement_classes \/
                    t ∈ DEFAULT_AVOID_STATEMENTS) type_list ->
   _iter_job_args statement_classes (Some type_list) rest
   = Raise ValueError) /\
  _iter_job_args statement_classes None rest
  = Ok ((fun t => PStr t :: rest) <$> VALID_STATEMENTS statement_classes).
Proof.
  unfold _iter_job_args. simpl. split; [|split].
  - intros Hall%invalid_types_empty.
    by rewrite bool_decide_eq_true_2.
  - intros Hex. rewrite bool_decide_eq_false_2; [done|].
    intros Hall%invalid_types_empty. rewrite Forall_forall in Hall.
    apply Exists_exists in Hex as (t & Ht & Hbad).
    destruct (Hall t Ht). tauto.
  - rewrite bool_decide_eq_true_2; [done|]. set_solver.
Qed.

(** Every argument tuple made from a type list and a batch size is
    accepted by [_get_command]: its job is named, and the statement type
    on its command line is a statement class other than Event, Influence
    and Unresolved. *)
Theorem iter_job_args_commands (bucket_name : string) (self : submitter)
    (job_type_set : list string) (type_list : option (list string))
    (batch_size : Z) (jobs : list (list pyval)) :
  task self ∈ job_type_set ->
  _iter_job_args statement_classes type_list [PInt batch_size] = Ok jobs ->
  length jobs
    = length (default (VALID_STATEMENTS statement_classes) type_list) /\
  Forall (fun args =>
            exists name cmd t,
              _get_command bucket_name self job_type_set args
                = Ok (Some name, Some cmd) /\
              cmd !! 9%nat = Some t /\ t ∈ statement_classes /\
              t ∉ DEFAULT_AVOID_STATEMENTS) jobs.
Proof.
  intros Htask. unfold _iter_job_args.
  set (tl := default (VALID_STATEMENTS statement_classes) type_list).
  destruct (bool_decide _) eqn:Hv; [|done]. simpl.
  intros [= <-]. split; [by rewrite length_fmap|].
  apply bool_decide_eq_true_1, invalid_types_empty in Hv.
  apply Forall_fmap. eapply Forall_impl; [exact Hv|].
  intros t [Ht Hn]. simpl. do 2 eexists. exists t.
  unfold _get_command. simpl.
  rewrite bool_decide_eq_true_2 by done. simpl. done.
Qed.

End Statements.

Lemma iter_job_args_validity_witness :
  _iter_job_args ["Phosphorylation"; "Complex"; "Influence"]
    (Some ["Complex"; "Influence"]) [PInt 2000]
  = Raise ValueError.
Proof.
  apply (iter_job_args_validity ["Phosphorylation"; "Complex"; "Influence"]).
  apply Exists_cons_tl, Exists_cons_hd. right.
  apply elem_of_cons. right. apply elem_of_cons. by left.
Defined.

Lemma iter_job_args_commands_witness :
  length [[PStr "Phosphorylation"; PInt 2000]; [PStr "Complex"; PInt 2000]]
  = length (VALID_STATEMENTS ["Phosphorylation"; "Complex"; "Influence"]) /\
  Forall (fun args =>
            exists name cmd t,
              _get_command "bigmech"
                (Submitter "run1" "preassembly/run1" "update") ["update"] args
                = Ok (Some name, Some cmd) /\
              cmd !! 9%nat = Some t /\
              t ∈ ["Phosphorylation"; "Complex"; "Influence"] /\
              t ∉ DEFAULT_AVOID_STATEMENTS)
         [[PStr "Phosphorylation"; PInt 2000]; [PStr "Complex"; PInt 2000]].
Proof.
  apply (iter_job_args_commands
           ["Phosphorylation"; "Complex"; "Influence"] "bigmech"
           (Submitter "run1" "preassembly/run1" "update") ["update"]
           None 2000).
  - apply elem_of_cons. by left.
  - vm_compute. reflexivity.
Defined.

End SubmitterMore.

(** ** More on the TAS manager *)

Module TasMore.
Import TasManager TasSpec TasFacts TasOrder.

Lemma collect_app xs ys d :
  collect (xs ++ ys) d = collect xs d ≫= collect ys.
Proof.
  revert d. induction xs as [|x xs IH]; intros d; [done|].
  simpl. destruct (choose_better _) as [best|]; [|done]. simpl. apply IH.
Qed.

Lemma choose_better_raise s o e :
  get_order_value s = Raise e -> choose_better [Some s; o] = Raise e.
Proof. intros Hs. unfold choose_better. simpl. by rewrite Hs. Qed.

Lemma collect_Ok_values stmts d d' :
  collect stmts d = Ok d' ->
  forall s, s ∈ stmts -> exists i, get_order_value s = Ok i.
Proof.
  revert d. induction stmts as [|x stmts IH]; intros d Hc s Hs.
  - by apply elem_of_nil in Hs.
  - simpl in Hc.
    destruct (get_order_value x) as [i|e] eqn:Hx.
    + apply elem_of_cons in Hs as [->|Hs]; [by eauto|].
      destruct (choose_better _) as [best|]; [|done]. simpl in Hc.
      by eapply IH.
    + by rewrite (choose_better_raise _ _ _ Hx) in Hc.
Qed.

Lemma collected_nil : collected [] [].
Proof.
  split; [constructor|]. split; [done|]. by intros s ?%elem_of_nil.
Qed.

(** The first statement whose class cannot be ranked stops the
    retrieval with its error: [IndexError] without evidence, [KeyError]
    without a [class_min] annotation, [ValueError] for a class that is
    not in the preference order. Nothing is returned for the statements
    before it. *)
Theorem tas_first_unranked_statement_raises
    (pre post : list statement) (s : statement) (e : exn) :
  (forall x, x ∈ pre -> exists i, get_order_value x = Ok i) ->
  get_order_value s = Raise e ->
  _get_statements (pre ++ s :: post) = Raise e /\
  (evidence s = [] -> e = IndexError) /\
  (forall ev rest, evidence s = ev :: rest ->
     annotations ev !! "class_min" = None -> e = KeyError) /\
  (forall ev rest cm, evidence s = ev :: rest ->
     annotations ev !! "class_min" = Some cm -> e = ValueError).
Proof.
  intros Hpre Hs. split.
  - unfold _get_statements. rewrite collect_app.
    destruct (collect_spec pre [] [] Hpre) as (d & -> & _).
    { by intros x ?%elem_of_nil. }
    { apply collected_nil. }
    simpl. by rewrite (choose_better_raise _ _ _ Hs).
  - unfold get_order_value in Hs. split; [|split].
    + intros E. rewrite E in Hs. congruence.
    + intros ev rest E Ha. rewrite E, Ha in Hs. congruence.
    + intros ev rest cm E Ha. rewrite E, Ha in Hs.
      destruct (index_of cm class_min_order); congruence.
Qed.

Lemma tas_first_unranked_statement_raises_witness :
  let a := Statement "Complex(drug, target)"
             [Evidence {[ "class_min" := "Kd < 100nM" ]}] in
  let b := Statement "Inhibition(drug, target)"
             [Evidence {[ "class_min" := "1uM < Kd < 10uM" ]}] in
  _get_statements [a; b; a] = Raise ValueError.
Proof.
  intros a b.
  refine (proj1 (tas_first_unranked_statement_raises [a] [a] b ValueError
                   _ _)).
  - intros x ->%list_elem_of_singleton. exists 0%nat. reflexivity.
  - reflexivity.
Defined.


Lemma last_of_best_snoc_other l s v :
  last_of_best l v -> matches_key s <> matches_key v ->
  last_of_best (l ++ [s]) v.
Proof.
  intros (i & a & Hi & Ha & Hall) Hne. exists i, a.
  split; [by apply lookup_app_l_Some|]. split; [done|].
  intros j s' [[_ Hj]|[_ <-]]%lookup_snoc_Some Hk; [by eapply Hall|done].
Qed.

Lemma collect_last_of_best l d :
  (forall s, s ∈ l -> exists i, get_order_value s = Ok i) ->
  collect l [] = Ok d ->
  forall k v, dict_get k d = Some v -> last_of_best l v.
Proof.
  revert d. induction l as [|s l IH] using rev_ind; intros d Hv Hc k v Hg.
  { simpl in Hc. injection Hc as <-. done. }
  assert (forall x, x ∈ l -> exists i, get_order_value x = Ok i) as Hvl.
  { intros x Hx. apply Hv. apply elem_of_app. by left. }
  rewrite collect_app in Hc.
  destruct (collect_spec l [] [] Hvl) as (d0 & Hd0 & Hcol).
  { by intros x ?%elem_of_nil. }
  { apply collected_nil. }
  rewrite Hd0 in Hc. simpl in Hc.
  destruct Hcol as (Hnd & Hkeys & Hbest). simpl in Hkeys, Hbest.
  destruct (Hv s) as [i Hi]; [apply elem_of_app; right; by left|].
  specialize (IH d0 Hvl Hd0).
  assert (forall k v, dict_get k d0 = Some v -> k <> matches_key s ->
                      last_of_best (l ++ [s]) v) as Hother.
  { intros k' v' Hg' Hk'. apply last_of_best_snoc_other; [by eapply IH|].
    destruct (Hkeys _ _ Hg') as [-> _]. done. }
  destruct (dict_get (matches_key s) d0) as [old|] eqn:Hold.
  - destruct (Hkeys _ _ Hold) as [Hmk Hoin].
    destruct (Hvl old Hoin) as [j Hj].
    rewrite (choose_better_two _ _ _ _ Hi Hj) in Hc. simpl in Hc.
    injection Hc as <-. rewrite dict_get_set in Hg.
    destruct (IH _ _ Hold) as (io & a & Hio & Ha & Hall).
    rewrite Hj in Ha. injection Ha as <-.
    case_decide as Hk.
    + subst k. injection Hg as <-. destruct (Nat.ltb_spec j i) as [Hlt|Hge].
      * exists io, j. split; [by apply lookup_app_l_Some|]. split; [done|].
        intros jj s' [[_ Hjj]|[_ <-]]%lookup_snoc_Some Hks.
        -- by eapply Hall.
        -- exists i. split; [done|]. lia.
      * exists (length l), i. split; [by apply list_lookup_middle|].
        split; [done|].
        intros jj s' [[Hlen Hjj]|[-> <-]]%lookup_snoc_Some Hks.
        -- destruct (Hall jj s' Hjj) as (b & Hb & Hord); [congruence|].
           exists b. split; [done|]. lia.
        -- exists i. split; [done|]. lia.
    + by eapply Hother.
  - rewrite (choose_better_new _ _ Hi) in Hc. simpl in Hc.
    injection Hc as <-. rewrite dict_get_set in Hg.
    assert (last_of_best (l ++ [s]) s) as Hs.
    { exists (length l), i. split; [by apply list_lookup_middle|].
      split; [done|].
      intros jj s' [[Hlen Hjj]|[-> <-]]%lookup_snoc_Some Hks.
      - apply list_elem_of_lookup_2 in Hjj.
        destruct (Hbest s' Hjj) as (v' & Hv' & _).
        rewrite Hks, Hold in Hv'. done.
      - exists i. split; [done|]. lia. }
    case_decide as Hk.
    + by injection Hg as <-.
    + by eapply Hother.
Qed.

Lemma get_statements_Ok statements kept :
  _get_statements statements = Ok kept ->
  exists d, collect statements [] = Ok d /\ kept = d.*2 /\
            collected statements d /\
            forall s, s ∈ statements -> exists i, get_order_value s = Ok i.
Proof.
  unfold _get_statements. intros Hk.
  destruct (collect statements []) as [d|] eqn:Hd; [|done].
  simpl in Hk. injection Hk as <-.
  pose proof (collect_Ok_values _ _ _ Hd) as Hv.
  destruct (collect_spec statements [] [] Hv) as (d' & Hd' & Hc).
  { by intros x ?%elem_of_nil. }
  { apply collected_nil. }
  rewrite Hd in Hd'. injection Hd' as <-. by exists d.
Qed.

Lemma collected_keys seen d :
  collected seen d -> matches_key <$> d.*2 = d.*1.
Proof.
  intros (Hnd & Hkeys & _).
  assert (forall k v, (k, v) ∈ d -> matches_key v = k) as Hd.
  { intros k v Hkv. apply dict_get_elem in Hkv; [|done].
    by destruct (Hkeys _ _ Hkv). }
  clear -Hd. induction d as [|[k v] d IH]; [done|]. simpl. f_equal.
  - apply Hd. by left.
  - apply IH. intros k' v' Hin. apply Hd. by right.
Qed.

(** Of the candidates with one matching key the manager keeps the last
    of those that rank earliest: a later candidate replaces the kept one
    when it ranks as early or earlier. Of two candidates of one key and
    one class, the second is kept. *)
Theorem tas_keeps_last_of_best (statements : list statement) :
  (forall s, s ∈ statements -> exists i, get_order_value s = Ok i) ->
  (exists kept,
     _get_statements statements = Ok kept /\
     forall v, v ∈ kept -> last_of_best statements v) /\
  (forall a b,
     statements = [a; b] -> matches_key a = matches_key b ->
     get_order_value a = get_order_value b ->
     _get_statements statements = Ok [b]).
Proof.
  intros Hv. split.
  - destruct (collect_spec statements [] [] Hv) as (d & Hd & Hc).
    { by intros x ?%elem_of_nil. }
    { apply collected_nil. }
    exists d.*2. unfold _get_statements. rewrite Hd. split; [done|].
    intros v ([k v'] & -> & Hin)%list_elem_of_fmap. simpl.
    apply (collect_last_of_best statements d Hv Hd k).
    apply dict_get_elem; [|done]. by destruct Hc.
  - intros a b -> Hk Hab.
    destruct (Hv a) as [i Ha]; [by left|].
    assert (get_order_value b = Ok i) as Hb by congruence.
    unfold _get_statements. simpl.
    rewrite (choose_better_new _ _ Ha). simpl.
    rewrite Hk, decide_True by done.
    rewrite (choose_better_two _ _ _ _ Hb Ha), Nat.ltb_irrefl. simpl.
    by rewrite decide_True.
Qed.

Lemma tas_keeps_last_of_best_witness :
  let a := Statement "Complex(drug, target)"
             [Evidence {[ "class_min" := "Kd < 100nM"; "ref" := "first" ]}] in
  let b := Statement "Complex(drug, target)"
             [Evidence {[ "class_min" := "Kd < 100nM"; "ref" := "second" ]}] in
  _get_statements [a; b] = Ok [b].
Proof.
  intros a b.
  refine (proj2 (tas_keeps_last_of_best [a; b] _) a b eq_refl eq_refl _).
  - intros s [->|[->|[]%elem_of_nil]%elem_of_cons]%elem_of_cons;
      exists 0%nat; reflexivity.
  - reflexivity.
Defined.

Lemma dict_set_keys_list {V : Type} k (v : V) d :
  (dict_set k v d).*1 = if decide (k ∈ d.*1) then d.*1 else d.*1 ++ [k].
Proof.
  induction d as [|[k0 v0] d IH]; [done|]. cbn [dict_set].
  destruct (decide (k = k0)) as [->|Hk]; rewrite !fmap_cons; cbn [fst].
  - rewrite decide_True; [done|by left].
  - rewrite IH. destruct (decide (k ∈ d.*1)) as [Hin|Hin].
    + rewrite decide_True; [done|by right].
    + rewrite decide_False; [done|]. by intros [?|?]%elem_of_cons.
Qed.

Lemma collect_keys stmts d d' :
  collect stmts d = Ok d' ->
  d'.*1 = foldl (fun acc k => if decide (k ∈ acc) then acc else acc ++ [k])
                d.*1 (matches_key <$> stmts).
Proof.
  revert d. induction stmts as [|s stmts IH]; intros d Hc; simpl in *.
  - by injection Hc as <-.
  - destruct (choose_better _) as [best|]; [|done]. simpl in Hc.
    rewrite (IH _ Hc). by rewrite dict_set_keys_list.
Qed.

(** The statements come out in the order in which their matching keys
    first occur among the candidates, also when a later candidate has
    replaced the first one of its key. *)
Theorem tas_output_in_order_of_first_occurrence
    (statements kept : list statement) :
  _get_statements statements = Ok kept ->
  matches_key <$> kept = first_occurrences (matches_key <$> statements).
Proof.
  intros (d & Hd & -> & Hc & _)%get_statements_Ok.
  rewrite (collected_keys _ _ Hc). by rewrite (collect_keys _ _ _ Hd).
Qed.

Lemma tas_output_in_order_of_first_occurrence_witness :
  let a := Statement "Complex(drug, target)"
             [Evidence {[ "class_min" := "100nM < Kd < 1uM" ]}] in
  let b := Statement "Inhibition(drug, target)"
             [Evidence {[ "class_min" := "Kd < 100nM" ]}] in
  let c := Statement "Complex(drug, target)"
             [Evidence {[ "class_min" := "Kd < 100nM" ]}] in
  _get_statements [a; b; c] = Ok [c; b] /\
  matches_key <$> [c; b]
  = first_occurrences ["Complex(drug, target)"; "Inhibition(drug, target)";
                       "Complex(drug, target)"].
Proof.
  intros a b c. split; [reflexivity|].
  apply (tas_output_in_order_of_first_occurrence [a; b; c] [c; b]).
  reflexivity.
Defined.

Lemma collect_fresh l d :
  NoDup (d.*1 ++ (matches_key <$> l)) ->
  (forall s, s ∈ l -> exists i, get_order_value s = Ok i) ->
  collect l d = Ok (d ++ ((fun s => (matches_key s, s)) <$> l)).
Proof.
  revert d. induction l as [|s l IH]; intros d Hnd Hv.
  - simpl. by rewrite List.app_nil_r.
  - destruct (Hv s) as [i Hi]; [by left|].
    assert (matches_key s ∉ d.*1) as Hs.
    { apply NoDup_app in Hnd as (_ & Hnd & _). intros Hin.
      apply (Hnd _ Hin). by left. }
    assert (dict_get (matches_key s) d = None) as Hg.
    { destruct (dict_get (matches_key s) d) as [v|] eqn:E; [|done].
      destruct Hs. apply list_elem_of_fmap. exists (matches_key s, v).
      split; [done|]. apply dict_get_elem; [|done].
      by apply NoDup_app in Hnd as (? & _). }
    assert (dict_set (matches_key s) s d = d ++ [(matches_key s, s)]) as Hset.
    { clear -Hs. induction d as [|[k0 v0] d IH]; [done|]. simpl in *.
      rewrite decide_False by set_solver. f_equal. apply IH. set_solver. }
    simpl. rewrite Hg, (choose_better_new _ _ Hi). simpl. rewrite Hset.
    rewrite IH.
    + by rewrite <- app_assoc.
    + rewrite fmap_app. simpl. rewrite <- app_assoc. done.
    + intros x Hx. apply Hv. by right.
Qed.

(** Retrieval is idempotent: run on its own output, the choice returns
    that output unchanged. *)
Theorem tas_get_statements_idempotent (statements kept : list statement) :
  _get_statements statements = Ok kept -> _get_statements kept = Ok kept.
Proof.
  intros (d & Hd & -> & Hc & Hv)%get_statements_Ok.
  pose proof (collected_keys _ _ Hc) as Hkeys.
  destruct Hc as (Hnd & Hin & _).
  unfold _get_statements. rewrite collect_fresh.
  - simpl. f_equal. rewrite <- list_fmap_compose. apply list_fmap_id.
  - simpl. by rewrite Hkeys.
  - intros s ([k v] & -> & Hkv)%list_elem_of_fmap. apply Hv.
    apply dict_get_elem in Hkv; [|done]. by destruct (Hin _ _ Hkv).
Qed.

Lemma tas_get_statements_idempotent_witness :
  let a := Statement "Complex(drug, target)"
             [Evidence {[ "class_min" := "100nM < Kd < 1uM" ]}] in
  let b := Statement "Inhibition(drug, target)"
             [Evidence {[ "class_min" := "Kd < 100nM" ]}] in
  let c := Statement "Complex(drug, target)"
             [Evidence {[ "class_min" := "Kd < 100nM" ]}] in
  _get_statements [c; b] = Ok [c; b].
Proof.
  intros a b c.
  apply (tas_get_statements_idempotent [a; b; c] [c; b]). reflexivity.
Defined.

End TasMore.

(** ** Statement distillation: the tables *)

Module DistillTablesFacts.
Import Distill DistillSpec DistillFacts DistillTables.

Lemma delete_all (db : database) (sids : gset Z) :
  delete_raw_statements_by_id db sids None = without sids db.
Proof. reflexivity. Qed.

Lemma without_without (A B : gset Z) (db : database) :
  without B (without A db) = without (A ∪ B) db.
Proof.
  unfold without. simpl. rewrite !list_filter_filter.
  f_equal; apply list_filter_iff; intros x; set_solver.
Qed.

Lemma filter_all {A : Type} (P : A -> Prop) `{forall x, Decision (P x)}
    (l : list A) :
  Forall P l -> filter P l = l.
Proof.
  induction 1 as [|x l Hx _ IH]; [done|].
  by rewrite filter_cons_True, IH.
Qed.

Lemma without_disjoint (sids : gset Z) (db : database) :
  (forall rs, rs ∈ raw_statements db -> rs_id rs ∉ sids) ->
  (forall i, i ∈ raw_agents db -> i ∉ sids) ->
  (forall i, i ∈ raw_unique_links db -> i ∉ sids) ->
  without sids db = db.
Proof.
  intros H1 H2 H3. destruct db as [rs ag ln]. unfold without. simpl in *.
  f_equal; apply filter_all, Forall_forall; auto.
Qed.

Lemma elem_of_concat {A : Type} (x : A) (ls : list (list A)) :
  x ∈ concat ls <-> exists l, x ∈ l /\ l ∈ ls.
Proof.
  induction ls as [|l ls IH]; simpl.
  - split; [by intros ?%elem_of_nil|]. by intros (? & _ & ?%elem_of_nil).
  - rewrite elem_of_app, IH. split.
    + intros [Hx|(l' & Hx & Hl')]; [exists l; split; [done|by left]|].
      exists l'. split; [done|by right].
    + intros (l' & Hx & [->|Hl']%elem_of_cons); [by left|right; eauto].
Qed.

Lemma batch_iter_go_concat {A : Type} (fuel n : nat) (xs : list A) :
  (0 < n)%nat -> (length xs <= fuel)%nat ->
  concat (batch_iter_go fuel xs n) = xs.
Proof.
  intros Hn. revert xs. induction fuel as [|fuel IH]; intros xs Hlen.
  - destruct xs; [done|simpl in Hlen; lia].
  - destruct xs as [|x xs]; [done|].
    cbn [batch_iter_go concat]. rewrite IH.
    + apply take_drop.
    + rewrite length_drop. simpl in *. lia.
Qed.

Lemma batch_iter_concat {A : Type} (xs : list A) (batch_size : Z) :
  (0 < batch_size)%Z -> concat (batch_iter xs batch_size) = xs.
Proof.
  intros Hb. unfold batch_iter.
  rewrite (proj2 (Z.leb_gt _ _)) by lia.
  apply batch_iter_go_concat; lia.
Qed.

Lemma batch_iter_go_elem {A : Type} (fuel n : nat) (xs b : list A) (x : A) :
  b ∈ batch_iter_go fuel xs n -> x ∈ b -> x ∈ xs.
Proof.
  revert xs. induction fuel as [|fuel IH]; intros xs; [by intros ?%elem_of_nil|].
  destruct xs as [|y xs]; [by intros ?%elem_of_nil|].
  cbn [batch_iter_go]. intros [->|Hb]%elem_of_cons Hx.
  - by eapply subseteq_take.
  - eapply subseteq_drop. by eapply IH.
Qed.

Lemma batch_iter_elem {A : Type} (xs b : list A) (batch_size : Z) (x : A) :
  b ∈ batch_iter xs batch_size -> x ∈ b -> x ∈ xs.
Proof.
  unfold batch_iter. destruct (batch_size <=? 0)%Z; [by intros ?%elem_of_nil|].
  apply batch_iter_go_elem.
Qed.

Lemma foldl_delete (batches : list (list Z)) (db : database) :
  foldl (fun db dup_id_batch =>
           delete_raw_statements_by_id db (list_to_set dup_id_batch) None)
        db batches
  = without (list_to_set (concat batches)) db.
Proof.
  revert db. induction batches as [|b batches IH]; intros db.
  - simpl. symmetry. apply without_disjoint; set_solver.
  - cbn [foldl concat]. rewrite IH, delete_all, without_without.
    f_equal. set_solver.
Qed.

(** Deleting raw statements with all that hangs on them keeps the tables
    consistent: when every agent and every link referred to a raw
    statement before, they still do afterwards; no row of a deleted
    statement is left; and deleting in two steps is deleting the union. *)
Theorem delete_keeps_references_valid (db : database) (raw_sids : gset Z) :
  references_valid db ->
  let db' := delete_raw_statements_by_id db raw_sids None in
  references_valid db' /\
  (forall rs, rs ∈ raw_statements db' -> rs_id rs ∉ raw_sids) /\
  (forall i, i ∈ raw_agents db' ++ raw_unique_links db' -> i ∉ raw_sids) /\
  (forall more : gset Z,
     delete_raw_statements_by_id db' more None
     = delete_raw_statements_by_id db (raw_sids ∪ more) None).
Proof.
  intros Hv db'. subst db'. rewrite delete_all. split_and!.
  - intros i Hi. unfold without in *. simpl in *.
    assert (i ∈ raw_agents db ++ raw_unique_links db /\ i ∉ raw_sids)
      as [Hin Hn].
    { apply elem_of_app in Hi as [Hi|Hi]; apply list_elem_of_filter in Hi;
        rewrite elem_of_app; tauto. }
    destruct (Hv i Hin) as (rs & Hrs & <-). exists rs. split; [|done].
    by apply list_elem_of_filter.
  - intros rs Hrs. by apply list_elem_of_filter in Hrs as [? _].
  - intros i [Hi|Hi]%elem_of_app; by apply list_elem_of_filter in Hi as [? _].
  - intros more. by rewrite !delete_all, without_without.
Qed.

Lemma delete_keeps_references_valid_witness :
  references_valid two_duplicates_one_linked /\
  references_valid
    (delete_raw_statements_by_id two_duplicates_one_linked {[ 2%Z ]} None).
Proof.
  assert (references_valid two_duplicates_one_linked) as Hv.
  { intros i Hi. simpl in Hi.
    assert (i = 1%Z \/ i = 2%Z) as [-> | ->] by set_solver.
    - eexists. split; [by left|done].
    - eexists. split; [right; by left|done]. }
  split; [exact Hv|].
  exact (proj1 (delete_keeps_references_valid two_duplicates_one_linked
                  {[ 2%Z ]} Hv)).
Defined.

Section Engine.
Context {Stmt : Type} `{Countable Stmt}.
Variable from_json : string -> Stmt.
Variable _set_evidence_text_ref : Stmt -> Z -> Stmt.
Variable get_hash : Stmt -> Z.
Variable pick_tpl : gset (Z * option Stmt) -> nat.
Variable pick_row : gset (Z * Z * option string) -> nat.

(** A run of [distill_stmts] that returns, stage by stage. *)
Lemma distill_stmts_Ok (db : database) (get_full_stmts : bool)
    (clauses : option (raw_statement -> bool)) (num_procs : Z)
    (handle_duplicates : string) (weed_evidence : bool) (batch_size : Z)
    (ret : gset (Stmt + Z) * database * option (gset Z)) :
  distill_stmts from_json _set_evidence_text_ref get_hash pick_tpl pick_row
    db get_full_stmts clauses num_procs handle_duplicates weed_evidence
    batch_size = Ok ret ->
  let linked : gset Z :=
    if bool_decide (handle_duplicates = "ignore") then ∅
    else list_to_set (raw_unique_links db) in
  exists nd stmts dsids bsids db_stmts db_dups,
    get_reading_stmt_dict from_json _set_evidence_text_ref get_hash db
      clauses get_full_stmts = Ok nd /\
    get_filtered_rdg_stmts pick_tpl nd get_full_stmts (Some linked) false
      = Ok (stmts, dsids, bsids) /\
    get_filtered_db_stmts from_json pick_row db get_full_stmts clauses
      (Some linked) num_procs = Ok (db_stmts, db_dups) /\
    linked ∩ (dsids ∪ db_dups) = ∅ /\
    let db1 :=
      if weed_evidence
      then Database (raw_statements db) (raw_agents db)
             (filter (fun i => i ∉ bsids ∩ linked) (raw_unique_links db))
      else db in
    ret =
    (stmts ∪ db_stmts,
     (if bool_decide (handle_duplicates = "delete")
      then foldl (fun db dup_id_batch =>
                    delete_raw_statements_by_id db
                      (list_to_set dup_id_batch) None)
                 db1 (batch_iter (elements (dsids ∪ db_dups)) batch_size)
      else db1),
     (if bool_decide (handle_duplicates = "delete")
         || bool_decide (handle_duplicates = "ignore")
         || bool_decide (dsids ∪ db_dups = ∅)
      then None else Some (dsids ∪ db_dups))).
Proof.
  intros Hrun linked. unfold distill_stmts in Hrun.
  assert ((if bool_decide (handle_duplicates = "delete")
              || negb (bool_decide (handle_duplicates = "ignore"))
           then list_to_set (raw_unique_links db) else (∅ : gset Z))
          = linked) as Hlinked.
  { subst linked. do 2 case_bool_decide; simpl; try done. by subst. }
  rewrite Hlinked in Hrun. clear Hlinked.
  apply bind_Ok in Hrun as (nd & Hnd & Hrun).
  apply bind_Ok in Hrun as ([[stmts dsids] bsids] & Hrdg & Hrun).
  apply bind_Ok in Hrun as ([] & _ & Hrun).
  apply bind_Ok in Hrun as ([db_stmts db_dups] & Hdb & Hrun).
  apply bind_Ok in Hrun as ([] & Hassert & Hrun).
  exists nd, stmts, dsids, bsids, db_stmts, db_dups.
  split_and!; [done..| |].
  { unfold assert_disjoint in Hassert. by case_decide. }
  cbv zeta in Hrun |- *.
  set (dups := dsids ∪ db_dups) in *.
  set (bad := bsids ∩ linked) in *.
  assert ((if negb (size bad =? 0)%nat && weed_evidence
           then Database (raw_statements db) (raw_agents db)
                  (filter (fun i => i ∉ bad) (raw_unique_links db))
           else db)
          = (if weed_evidence
             then Database (raw_statements db) (raw_agents db)
                    (filter (fun i => i ∉ bad) (raw_unique_links db))
             else db)) as Hdb1.
  { destruct weed_evidence; [|by rewrite andb_false_r].
    rewrite andb_true_r. destruct (size bad =? 0)%nat eqn:Hsz; [|done].
    simpl. apply Nat.eqb_eq, size_empty_iff, leibniz_equiv in Hsz.
    rewrite Hsz. destruct db as [rs ag ln]. simpl. f_equal.
    symmetry. apply filter_all, Forall_forall. set_solver. }
  rewrite Hdb1 in Hrun. clear Hdb1.
  destruct (size dups =? 0)%nat eqn:Hsz.
  - apply Nat.eqb_eq, size_empty_iff, leibniz_equiv in Hsz.
    simpl in Hrun. injection Hrun as <-. rewrite Hsz.
    rewrite (bool_decide_eq_true_2 (∅ = ∅)) by done.
    rewrite !orb_true_r. rewrite elements_empty.
    f_equal. f_equal. case_bool_decide; [|done].
    unfold batch_iter. by destruct (batch_size <=? 0)%Z.
  - apply Nat.eqb_neq in Hsz.
    rewrite (bool_decide_eq_false_2 (dups = ∅)), orb_false_r
      by (intros E; by rewrite E, size_empty in Hsz).
    simpl in Hrun. do 2 case_bool_decide; simpl in *;
      by injection Hrun as <-.
Qed.

(** With [handle_duplicates='ignore'] the tables are left as they were
    and no duplicate ids are written out. *)
Theorem distill_ignore_changes_nothing (db : database)
    (get_full_stmts : bool) (clauses : option (raw_statement -> bool))
    (num_procs : Z) (weed_evidence : bool) (batch_size : Z)
    (ret : gset (Stmt + Z) * database * option (gset Z)) :
  distill_stmts from_json _set_evidence_text_ref get_hash pick_tpl pick_row
    db get_full_stmts clauses num_procs "ignore" weed_evidence batch_size
    = Ok ret ->
  ret.1.2 = db /\ ret.2 = None.
Proof.
  intros (nd & stmts & dsids & bsids & db_stmts & db_dups & _ & _ & _ & _ & ->)
    %distill_stmts_Ok.
  cbv zeta. simpl. split; [|done].
  destruct weed_evidence; [|done]. destruct db as [rs ag ln]. simpl.
  f_equal. apply filter_all, Forall_forall. set_solver.
Qed.


Lemma filter_ext_elem {A : Type} (P Q : A -> Prop)
    `{forall x, Decision (P x)} `{forall x, Decision (Q x)} (l : list A) :
  (forall x, x ∈ l -> P x <-> Q x) -> filter P l = filter Q l.
Proof.
  induction l as [|x l IH]; intros HPQ; [done|].
  rewrite !filter_cons, IH by (intros y Hy; apply HPQ; by right).
  destruct (decide (P x)) as [HP|HP], (decide (Q x)) as [HQ|HQ];
    try done; [apply HPQ in HP|apply HPQ in HQ]; first [done|by left].
Qed.

(** Whatever the mode, a raw statement that has a link is never deleted,
    nor is any of its agents. *)
Theorem distill_never_deletes_linked (db : database)
    (get_full_stmts : bool) (clauses : option (raw_statement -> bool))
    (num_procs : Z) (handle_duplicates : string) (weed_evidence : bool)
    (batch_size : Z) (ret : gset (Stmt + Z) * database * option (gset Z)) :
  distill_stmts from_json _set_evidence_text_ref get_hash pick_tpl pick_row
    db get_full_stmts clauses num_procs handle_duplicates weed_evidence
    batch_size = Ok ret ->
  (forall rs, rs ∈ raw_statements db -> rs_id rs ∈ raw_unique_links db ->
              rs ∈ raw_statements ret.1.2) /\
  (forall i, i ∈ raw_agents db -> i ∈ raw_unique_links db ->
             i ∈ raw_agents ret.1.2).
Proof.
  intros (nd & stmts & dsids & bsids & db_stmts & db_dups & _ & _ & _ & Hdis
          & ->)%distill_stmts_Ok.
  cbv zeta in *. cbn [fst snd].
  set (db1 := if weed_evidence then _ else _).
  assert (raw_statements db1 = raw_statements db /\
          raw_agents db1 = raw_agents db) as [Hrs Hag].
  { subst db1. by destruct weed_evidence. }
  destruct (decide (handle_duplicates = "delete")) as [->|Hd];
    [|rewrite (bool_decide_eq_false_2 (handle_duplicates = "delete")) by done;
      rewrite Hrs, Hag; by split].
  rewrite bool_decide_eq_false_2 in Hdis by done.
  rewrite (bool_decide_eq_true_2 ("delete" = "delete")) by done.
  rewrite foldl_delete. unfold without. cbn [raw_statements raw_agents].
  rewrite Hrs, Hag.
  assert (forall i, i ∈ raw_unique_links db ->
            i ∉ (list_to_set (concat (batch_iter (elements (dsids ∪ db_dups))
                                        batch_size)) : gset Z)) as Hkeep.
  { intros i Hi. rewrite elem_of_list_to_set.
    intros (b & Hib & Hb)%elem_of_concat.
    apply (batch_iter_elem _ _ _ _ Hb), elem_of_elements in Hib.
    rewrite <- (elem_of_list_to_set (C := gset Z)) in Hi. set_solver. }
  split.
  - intros rs Hin Hl. apply list_elem_of_filter. split; [|done]. by apply Hkeep.
  - intros i Hin Hl. apply list_elem_of_filter. split; [|done]. by apply Hkeep.
Qed.

(** With [handle_duplicates='delete'] and a positive batch size, the
    tables afterwards are the tables before without the rows of the
    exact duplicates of both stages, deleted batch by batch; the links
    of the bettered statements are gone too when [weed_evidence] is set;
    nothing is written out. *)
Theorem distill_delete_removes_duplicates (db : database)
    (get_full_stmts : bool) (clauses : option (raw_statement -> bool))
    (num_procs : Z) (weed_evidence : bool) (batch_size : Z)
    (ret : gset (Stmt + Z) * database * option (gset Z)) :
  (0 < batch_size)%Z ->
  distill_stmts from_json _set_evidence_text_ref get_hash pick_tpl pick_row
    db get_full_stmts clauses num_procs "delete" weed_evidence batch_size
    = Ok ret ->
  let linked : gset Z := list_to_set (raw_unique_links db) in
  exists nd stmts dsids bsids db_stmts db_dups,
    get_reading_stmt_dict from_json _set_evidence_text_ref get_hash db
      clauses get_full_stmts = Ok nd /\
    get_filtered_rdg_stmts pick_tpl nd get_full_stmts (Some linked) false
      = Ok (stmts, dsids, bsids) /\
    get_filtered_db_stmts from_json pick_row db get_full_stmts clauses
      (Some linked) num_procs = Ok (db_stmts, db_dups) /\
    ret.2 = None /\
    raw_statements ret.1.2
      = filter (fun rs => rs_id rs ∉ dsids ∪ db_dups) (raw_statements db) /\
    raw_agents ret.1.2
      = filter (fun i => i ∉ dsids ∪ db_dups) (raw_agents db) /\
    raw_unique_links ret.1.2
      = if weed_evidence
        then filter (fun i => i ∉ bsids) (raw_unique_links db)
        else raw_unique_links db.
Proof.
  intros Hb (nd & stmts & dsids & bsids & db_stmts & db_dups & Hnd & Hrdg &
             Hdb & Hdis & ->)%distill_stmts_Ok linked.
  rewrite bool_decide_eq_false_2 in Hrdg, Hdb, Hdis by done.
  exists nd, stmts, dsids, bsids, db_stmts, db_dups.
  split_and!; [done..| | |]; cbv zeta; cbn [fst snd];
    rewrite bool_decide_eq_true_2 by done;
    rewrite foldl_delete, batch_iter_concat, list_to_set_elements_L by done;
    unfold without; cbn [raw_statements raw_agents raw_unique_links].
  - by destruct weed_evidence.
  - by destruct weed_evidence.
  - rewrite (bool_decide_eq_false_2 ("delete" = "ignore")) by done.
    fold linked.
    assert (forall i, i ∈ raw_unique_links db -> i ∉ dsids ∪ db_dups) as Hl.
    { intros i Hi. rewrite <- (elem_of_list_to_set (C := gset Z)) in Hi.
      set_solver. }
    destruct weed_evidence; cbn [raw_unique_links].
    + rewrite list_filter_filter. apply filter_ext_elem.
      intros i Hi. specialize (Hl i Hi).
      rewrite <- (elem_of_list_to_set (C := gset Z)) in Hi. set_solver.
    + apply filter_all, Forall_forall, Hl.
Qed.

End Engine.

Lemma distill_ignore_changes_nothing_witness :
  distill_stmts (Stmt := string) id (fun s _ => s) (fun _ => 0%Z)
    (fun _ => 0%nat) (fun _ => 0%nat) two_distinct_rows false None 1
    "ignore" true 1000
  = Ok ({[ inr 1%Z; inr 2%Z ]}, two_distinct_rows, None) /\
  two_distinct_rows = two_distinct_rows /\ (None : option (gset Z)) = None.
Proof.
  assert (distill_stmts (Stmt := string) id (fun s _ => s) (fun _ => 0%Z)
            (fun _ => 0%nat) (fun _ => 0%nat) two_distinct_rows false None 1
            "ignore" true 1000
          = Ok ({[ inr 1%Z; inr 2%Z ]}, two_distinct_rows, None)) as Hrun
    by (vm_compute; reflexivity).
  split; [exact Hrun|].
  exact (distill_ignore_changes_nothing id (fun s _ => s) (fun _ => 0%Z)
           (fun _ => 0%nat) (fun _ => 0%nat) two_distinct_rows false None 1
           true 1000 _ Hrun).
Defined.

Lemma distill_never_deletes_linked_witness :
  distill_stmts (Stmt := string) id (fun s _ => s) (fun _ => 0%Z)
    (fun _ => 0%nat) (fun _ => 0%nat) two_duplicates_one_linked false None 1
    "delete" true 1000
  = Ok ({[ inr 1%Z ]},
        Database [RawStatement 1 70 "{}" (Some 1%Z) None] [1%Z] [1%Z],
        None) /\
  RawStatement 1 70 "{}" (Some 1%Z) None
  ∈ [RawStatement 1 70 "{}" (Some 1%Z) None].
Proof.
  assert (distill_stmts (Stmt := string) id (fun s _ => s) (fun _ => 0%Z)
            (fun _ => 0%nat) (fun _ => 0%nat) two_duplicates_one_linked false
            None 1 "delete" true 1000
          = Ok ({[ inr 1%Z ]},
                Database [RawStatement 1 70 "{}" (Some 1%Z) None] [1%Z] [1%Z],
                None)) as Hrun
    by (vm_compute; reflexivity).
  split; [exact Hrun|].
  refine (proj1 (distill_never_deletes_linked id (fun s _ => s)
                   (fun _ => 0%Z) (fun _ => 0%nat) (fun _ => 0%nat)
                   two_duplicates_one_linked false None 1 "delete" true 1000
                   _ Hrun) _ _ _).
  - by left.
  - by left.
Defined.

Lemma distill_delete_removes_duplicates_witness :
  distill_stmts (Stmt := string) id (fun s _ => s) (fun _ => 0%Z)
    (fun _ => 0%nat) (fun _ => 0%nat) two_duplicates_one_linked false None 1
    "delete" true 1000
  = Ok ({[ inr 1%Z ]},
        Database [RawStatement 1 70 "{}" (Some 1%Z) None] [1%Z] [1%Z],
        None) /\
  exists dsids db_dups : gset Z,
    [RawStatement 1 70 "{}" (Some 1%Z) None]
    = filter (fun rs => rs_id rs ∉ dsids ∪ db_dups)
             (raw_statements two_duplicates_one_linked).
Proof.
  assert (distill_stmts (Stmt := string) id (fun s _ => s) (fun _ => 0%Z)
            (fun _ => 0%nat) (fun _ => 0%nat) two_duplicates_one_linked false
            None 1 "delete" true 1000
          = Ok ({[ inr 1%Z ]},
                Database [RawStatement 1 70 "{}" (Some 1%Z) None] [1%Z] [1%Z],
                None)) as Hrun
    by (vm_compute; reflexivity).
  split; [exact Hrun|].
  destruct (distill_delete_removes_duplicates id (fun s _ => s)
              (fun _ => 0%Z) (fun _ => 0%nat) (fun _ => 0%nat)
              two_duplicates_one_linked false None 1 true 1000 _
              eq_refl Hrun)
    as (nd & stmts & dsids & bsids & db_stmts & db_dups & _ & _ & _ & _ &
        Hrs & _).
  by exists dsids, db_dups.
Defined.

End DistillTablesFacts.

(** ** Statement distillation: the database-derived path *)

Module DbPathFacts.
Import Distill DistillSpec DistillFacts DbPathSpec.

Section Groupby.
Context {A : Type} (key : A -> Z).

Lemma groupby_concat (l : list A) : concat (groupby key l) = l.
Proof.
  induction l as [|x l IH]; [done|]. cbn [groupby].
  destruct (groupby key l) as [|[|y g] gs]; simpl in *;
    [by rewrite <- IH..|].
  case_decide; simpl; by rewrite <- IH.
Qed.

Lemma groupby_groups (l : list A) :
  Forall (fun g => g <> [] /\ forall x y, x ∈ g -> y ∈ g -> key x = key y)
         (groupby key l).
Proof.
  induction l as [|x l IH]; [constructor|]. cbn [groupby].
  assert (forall g : list A, g = [x] ->
            g <> [] /\ forall a b, a ∈ g -> b ∈ g -> key a = key b) as Hone.
  { intros g ->. split; [done|].
    by intros a b ->%list_elem_of_singleton ->%list_elem_of_singleton. }
  destruct (groupby key l) as [|[|y g] gs];
    [by constructor; [apply Hone|]..|].
  case_decide as Hk; [|by constructor; [apply Hone|]].
  apply Forall_cons in IH as [[_ Hg] Hgs].
  constructor; [|done]. split; [done|].
  assert (forall a, a ∈ x :: y :: g -> key a = key y) as Hy.
  { intros a [->|Ha]%elem_of_cons; [done|]. apply Hg; [done|by left]. }
  intros a b Ha Hb. by rewrite (Hy a), (Hy b).
Qed.

Lemma groupby_sorted (l : list A) :
  StronglySorted (fun a b => (key a <= key b)%Z) l ->
  StronglySorted (groups_lt key) (groupby key l).
Proof.
  induction l as [|x l IH]; [constructor|].
  intros [Hx Hl]%StronglySorted_cons. specialize (IH Hl).
  rewrite Forall_forall in Hx.
  pose proof (groupby_concat l) as Hc. pose proof (groupby_groups l) as Hg.
  cbn [groupby].
  destruct (groupby key l) as [|[|y g] gs];
    [by repeat constructor|by apply Forall_cons in Hg as [[? _] _]|].
  apply StronglySorted_cons in IH as [Hlt IH].
  apply Forall_cons in Hg as [[_ Hg] _].
  assert (y ∈ l) as Hyl.
  { rewrite <- Hc. simpl. by left. }
  rewrite Forall_forall in Hlt.
  case_decide as Hk.
  - constructor; [done|]. apply Forall_forall. intros g' Hg' a b Ha Hb.
    assert (key a = key y) as ->.
    { apply elem_of_cons in Ha as [->|Ha]; [done|]. apply Hg; [done|by left]. }
    apply (Hlt g' Hg'); [by left|done].
  - constructor; [by constructor; [|apply Forall_forall]|].
    apply Forall_forall.
    intros g' [->|Hg']%elem_of_cons a b ->%list_elem_of_singleton Hb.
    + assert (key b = key y) as -> by (apply Hg; [done|by left]).
      specialize (Hx y Hyl). simpl in Hx. lia.
    + specialize (Hx y Hyl). simpl in Hx.
      assert (key y < key b)%Z; [|lia]. apply (Hlt g' Hg'); [by left|done].
Qed.

Lemma StronglySorted_lookup_lt {B : Type} (R : relation B) (l : list B)
    (i j : nat) (a b : B) :
  StronglySorted R l -> l !! i = Some a -> l !! j = Some b -> (i < j)%nat ->
  R a b.
Proof.
  intros Hs. revert i j. induction Hs as [|x l Hs IH Hx]; intros i j Hi Hj Hij.
  - done.
  - destruct j as [|j]; [lia|]. simpl in Hj. destruct i as [|i].
    + injection Hi as <-. rewrite Forall_forall in Hx. apply Hx.
      by eapply list_elem_of_lookup_2.
    + simpl in Hi. apply (IH i j); [done..|lia].
Qed.

(** In sorted input, items of equal key lie in the same group. *)
Lemma groupby_same_group (l : list A) (i j : nat) (g g' : list A) (x y : A) :
  StronglySorted (fun a b => (key a <= key b)%Z) l ->
  groupby key l !! i = Some g -> groupby key l !! j = Some g' ->
  x ∈ g -> y ∈ g' -> key x = key y -> i = j.
Proof.
  intros Hs%groupby_sorted Hi Hj Hx Hy Hk.
  destruct (Nat.lt_total i j) as [Hlt|[?|Hlt]]; [|done|].
  - pose proof (StronglySorted_lookup_lt _ _ _ _ _ _ Hs Hi Hj Hlt x y Hx Hy).
    lia.
  - pose proof (StronglySorted_lookup_lt _ _ _ _ _ _ Hs Hj Hi Hlt y x Hy Hx).
    lia.
Qed.

End Groupby.

Lemma elem_of_db_rows (db : database) (gfs : bool)
    (clauses : option (raw_statement -> bool)) (r : Z * Z * option string) :
  r ∈ db_rows db gfs clauses <->
  exists rs, db_selected db clauses rs /\
             r = (rs_mk_hash rs, rs_id rs,
                  if gfs then Some (rs_json rs) else None).
Proof.
  unfold db_rows, db_selected. rewrite list_elem_of_fmap.
  setoid_rewrite merge_sort_Permutation.
  setoid_rewrite list_elem_of_filter. naive_solver.
Qed.

Lemma db_rows_sorted (db : database) (gfs : bool)
    (clauses : option (raw_statement -> bool)) :
  StronglySorted (fun a b : Z * Z * option string => (a.1.1 <= b.1.1)%Z)
                 (db_rows db gfs clauses).
Proof.
  unfold db_rows. eapply StronglySorted_fmap;
    [|apply (StronglySorted_merge_sort mk_hash_le)].
  intros x y Hxy. exact Hxy.
Qed.



Lemma elem_of_groups {A : Type} (key : A -> Z) (l : list A) (x : A) :
  x ∈ l <-> exists i g, groupby key l !! i = Some g /\ x ∈ g.
Proof.
  rewrite <- (groupby_concat key l) at 1. induction (groupby key l) as [|g gs IH].
  - simpl. split; [by intros ?%elem_of_nil|]. by intros (i & g & ? & _).
  - simpl. rewrite elem_of_app, IH. split.
    + intros [Hx|(i & g' & Hi & Hx)]; [by exists 0%nat, g|].
      by exists (S i), g'.
    + intros ([|i] & g' & Hi & Hx); simpl in Hi;
        [injection Hi as <-; by left|right; eauto].
Qed.

Section Engine.
Context {Stmt : Type} `{Countable Stmt}.
Variable from_json : string -> Stmt.
Variable pick_row : gset (Z * Z * option string) -> nat.

Abbreviation row := (Z * Z * option string)%type.

Lemma choose_unique_Ok (not_duplicates : gset Z) (gfs : bool)
    (grp : list row) (s : Stmt + Z) (d : gset Z) :
  _choose_unique from_json pick_row not_duplicates gfs grp = Ok (s, d) ->
  exists r : row,
    r ∈ grp /\ row_stmt from_json gfs r = Ok s /\
    d = row_ids (list_to_set grp ∖ {[r]}) /\
    forall r' : row, r' ∈ grp -> r'.1.2 ∈ not_duplicates -> r' = r.
Proof.
  intros Hc.
  assert (grp <> []) as Hne by (by intros ->).
  set (F := filter (fun t : row => t.1.2 ∈ not_duplicates)
                   (list_to_set grp : gset row)).
  destruct (decide (size F = 0)%nat) as [H0|H0];
    [|destruct (decide (size F = 1)%nat) as [H1|H1]].
  - apply size_empty_iff, leibniz_equiv in H0.
    destruct (choose_unique_none_linked from_json pick_row not_duplicates gfs
                grp Hne H0) as (r & Hr & Heq).
    rewrite Heq in Hc. apply bind_Ok in Hc as (s' & Hs & [= <- <-]).
    exists r. split_and!; [done..|].
    intros r' Hr' Hl. assert (r' ∈ F) as Hin; [|by rewrite H0 in Hin].
    apply elem_of_filter. by rewrite elem_of_list_to_set.
  - apply size_1_elem_of in H1 as [r Hr%leibniz_equiv].
    destruct (choose_unique_one_linked from_json pick_row not_duplicates gfs
                grp r Hr) as (Hin & Heq).
    rewrite Heq in Hc. apply bind_Ok in Hc as (s' & Hs & [= <- <-]).
    exists r. split_and!; [done..|].
    intros r' Hr' Hl. assert (r' ∈ F) as Hin'; [|set_solver].
    apply elem_of_filter. by rewrite elem_of_list_to_set.
  - rewrite choose_unique_many_linked in Hc; [done|]. fold F. lia.
Qed.



Lemma db_stmts_Ok (db : database) (gfs : bool)
    (clauses : option (raw_statement -> bool)) (not_duplicates : gset Z)
    (num_procs : Z) (stmts : gset (Stmt + Z)) (dups : gset Z) :
  get_filtered_db_stmts from_json pick_row db gfs clauses
    (Some not_duplicates) num_procs = Ok (stmts, dups) ->
  exists res,
    Forall2 (fun grp y =>
               _choose_unique from_json pick_row not_duplicates gfs grp
               = Ok y)
            (groupby (fun x : row => x.1.1) (db_rows db gfs clauses)) res /\
    stmts = list_to_set res.*1 /\ dups = ⋃ res.*2.
Proof.
  unfold get_filtered_db_stmts. cbn [default]. case_decide as Hn.
  - rewrite for_each_pool_map.
    intros (res & Hres%pool_map_Ok & [= <- <-])%bind_Ok.
    exists res. split; [done|]. split; set_solver.
  - intros (res & Hres%pool_map_Ok & Hrest)%bind_Ok.
    apply bind_Ok in Hrest as ([sl ds] & Hunzip & [= <- <-]).
    exists res. split; [done|].
    destruct res; [done|]. by injection Hunzip as <- <-.
Qed.

Lemma db_row_id_inj (db : database) (gfs : bool)
    (clauses : option (raw_statement -> bool)) (r r' : row) :
  NoDup (rs_id <$> raw_statements db) ->
  r ∈ db_rows db gfs clauses -> r' ∈ db_rows db gfs clauses ->
  r.1.2 = r'.1.2 -> r = r'.
Proof.
  intros Hnd (rs & (Hrs & _) & ->)%elem_of_db_rows
         (rs' & (Hrs' & _) & ->)%elem_of_db_rows Hid.
  simpl in Hid.
  assert (rs = rs') as ->; [|done].
  apply list_elem_of_lookup in Hrs as [i Hi].
  apply list_elem_of_lookup in Hrs' as [j Hj].
  assert (i = j) as ->; [|congruence].
  eapply NoDup_lookup; [exact Hnd| |];
    rewrite list_lookup_fmap; [by rewrite Hi|by rewrite Hj, Hid].
Qed.

(** What the database-derived stage returns when it is asked for ids:
    the kept ids are ids of selected raw statements; every selected raw
    statement is kept or reported as a duplicate, one of each hash is
    kept, a linked one is always kept; and when ids are unique, none is
    both kept and reported, and two kept ones never share a hash. *)
Theorem db_stage_keeps_one_per_hash (db : database)
    (clauses : option (raw_statement -> bool)) (linked : gset Z)
    (num_procs : Z) (stmts : gset (Stmt + Z)) (dups : gset Z) :
  get_filtered_db_stmts from_json pick_row db false clauses (Some linked)
    num_procs = Ok (stmts, dups) ->
  (forall x, x ∈ stmts ->
     exists rs, db_selected db clauses rs /\ x = inr (rs_id rs)) /\
  (forall rs, db_selected db clauses rs ->
     (inr (rs_id rs) ∈ stmts \/ rs_id rs ∈ dups) /\
     (rs_id rs ∈ linked -> inr (rs_id rs) ∈ stmts) /\
     exists rs', db_selected db clauses rs' /\
                 rs_mk_hash rs' = rs_mk_hash rs /\ inr (rs_id rs') ∈ stmts) /\
  (NoDup (rs_id <$> raw_statements db) ->
   forall rs, db_selected db clauses rs -> inr (rs_id rs) ∈ stmts ->
     (rs_id rs ∉ dups) /\
     (forall rs', db_selected db clauses rs' -> inr (rs_id rs') ∈ stmts ->
                  rs_mk_hash rs' = rs_mk_hash rs -> rs' = rs)).
Proof.
  intros (res & Hres & -> & ->)%db_stmts_Ok.
  set (rows := db_rows db false clauses) in *.
  set (groups := groupby (fun x : row => x.1.1) rows) in *.
  pose proof (db_rows_sorted db false clauses) as Hsorted. fold rows in Hsorted.
  (* the outcome of the group at each position *)
  assert (forall i grp, groups !! i = Some grp ->
            exists r : row, r ∈ grp /\ r ∈ rows /\
              res !! i
              = Some (inr r.1.2, row_ids (list_to_set grp ∖ {[r]})) /\
              (forall r' : row, r' ∈ grp -> r'.1.1 = r.1.1) /\
              forall r' : row, r' ∈ grp -> r'.1.2 ∈ linked -> r' = r)
    as Hgroup.
  { intros i grp Hi.
    destruct (Forall2_lookup_l _ _ _ _ _ Hres Hi) as ([s d] & Hy & Hc).
    apply choose_unique_Ok in Hc as (r & Hr & Hs & -> & Hl).
    injection Hs as <-. exists r. split_and!; [done| |done| |done].
    - apply (elem_of_groups (fun x : row => x.1.1)). eauto.
    - intros r' Hr'.
      pose proof (groupby_groups (fun x : row => x.1.1) rows) as Hg.
      rewrite Forall_forall in Hg.
      apply (Hg grp); [by eapply list_elem_of_lookup_2|done..]. }
  assert (forall x, x ∈ (list_to_set res.*1 : gset (Stmt + Z)) ->
            exists i grp (r : row),
              groups !! i = Some grp /\ r ∈ grp /\ r ∈ rows /\ x = inr r.1.2 /\
              res !! i = Some (x, row_ids (list_to_set grp ∖ {[r]})))
    as Hkept.
  { intros x ([s d] & -> & Hin)%elem_of_list_to_set%list_elem_of_fmap.
    apply list_elem_of_lookup in Hin as [i Hi].
    destruct (Forall2_lookup_r _ _ _ _ _ Hres Hi) as (grp & Hg & _).
    destruct (Hgroup i grp Hg) as (r & Hr & Hrows & Hi' & _).
    rewrite Hi in Hi'. injection Hi' as -> ->. by exists i, grp, r. }
  assert (forall i y, res !! i = Some y ->
            y.1 ∈ (list_to_set res.*1 : gset (Stmt + Z)) /\
            y.2 ⊆ (⋃ res.*2 : gset Z)) as Hres_in.
  { intros i y Hi. apply list_elem_of_lookup_2 in Hi. split.
    - apply elem_of_list_to_set, list_elem_of_fmap. eauto.
    - intros z Hz. apply elem_of_union_list. exists y.2. split; [|done].
      apply list_elem_of_fmap. eauto. }
  split_and!.
  - intros x (i & grp & r & _ & _ & Hr & -> & _)%Hkept.
    apply elem_of_db_rows in Hr as (rs & Hsel & ->). by exists rs.
  - intros rs Hsel.
    assert ((rs_mk_hash rs, rs_id rs, None) ∈ rows) as Hrow
      by (apply elem_of_db_rows; by exists rs).
    apply (elem_of_groups (fun x : row => x.1.1)) in Hrow
      as (i & grp & Hi & Hin).
    destruct (Hgroup i grp Hi) as (r & Hr & Hrows & Hy & Hkey & Hl).
    destruct (Hres_in _ _ Hy) as [Hs Hd]. simpl in Hs, Hd.
    split_and!.
    + destruct (decide ((rs_mk_hash rs, rs_id rs, None) = r)) as [<-|Hne];
        [by left|right].
      apply Hd. unfold row_ids. apply elem_of_map.
      exists (rs_mk_hash rs, rs_id rs, None). split; [done|].
      apply elem_of_difference. rewrite elem_of_list_to_set. set_solver.
    + intros Hlinked. by rewrite <- (Hl _ Hin Hlinked) in Hs.
    + apply elem_of_db_rows in Hrows as (rs' & Hsel' & ->).
      exists rs'. split; [done|]. split; [|done].
      symmetry. apply (Hkey _ Hin).
  - intros Hnd rs Hsel Hin.
    assert ((rs_mk_hash rs, rs_id rs, None) ∈ rows) as Hrow
      by (apply elem_of_db_rows; by exists rs).
    apply Hkept in Hin as (i & grp & r & Hi & Hr & Hrows & [= Hid] & Hy).
    assert (r = (rs_mk_hash rs, rs_id rs, None)) as ->
      by (by apply (db_row_id_inj db false clauses)).
    split.
    + intros (D & ([s d] & -> & Hin)%list_elem_of_fmap & Hd)%elem_of_union_list.
      apply list_elem_of_lookup in Hin as [j Hj].
      destruct (Forall2_lookup_r _ _ _ _ _ Hres Hj) as (grp' & Hg' & _).
      destruct (Hgroup j grp' Hg') as (r' & Hr' & Hrows' & Hy' & _).
      rewrite Hj in Hy'. injection Hy' as -> ->. simpl in Hd.
      apply elem_of_map in Hd as (r1 & Hid1 & [Hr1 Hne]%elem_of_difference).
      apply elem_of_list_to_set in Hr1.
      assert (r1 ∈ rows) as Hrows1
        by (apply (elem_of_groups (fun x : row => x.1.1)); eauto).
      assert (r1 = (rs_mk_hash rs, rs_id rs, None)) as ->
        by (by apply (db_row_id_inj db false clauses)).
      assert (j = i) as ->
        by (by apply (groupby_same_group (fun x : row => x.1.1) rows j i
                        grp' grp (rs_mk_hash rs, rs_id rs, None)
                        (rs_mk_hash rs, rs_id rs, None))).
      rewrite Hi in Hg'. injection Hg' as <-.
      rewrite Hy in Hj. injection Hj as Hj _.
      apply Hne, elem_of_singleton. symmetry.
      by apply (db_row_id_inj db false clauses).
    + intros rs' Hsel' Hin' Hhash.
      assert ((rs_mk_hash rs', rs_id rs', None) ∈ rows) as Hrow'
        by (apply elem_of_db_rows; by exists rs').
      apply Hkept in Hin' as (j & grp' & r' & Hj & Hr' & Hrows' & [= Hid'] & Hy').
      assert (r' = (rs_mk_hash rs', rs_id rs', None)) as ->
        by (by apply (db_row_id_inj db false clauses)).
      assert (j = i) as ->
        by (by apply (groupby_same_group (fun x : row => x.1.1) rows j i
                        grp' grp (rs_mk_hash rs', rs_id rs', None)
                        (rs_mk_hash rs, rs_id rs, None))).
      rewrite Hy in Hy'. injection Hy' as Hid2 _.
      destruct Hsel as (Hrs & _), Hsel' as (Hrs' & _).
      apply list_elem_of_lookup in Hrs as [a Ha].
      apply list_elem_of_lookup in Hrs' as [b Hb].
      assert (b = a) as ->; [|congruence].
      eapply NoDup_lookup; [exact Hnd| |];
        rewrite list_lookup_fmap; [by rewrite Hb|rewrite Ha; simpl; congruence].
Qed.





End Engine.

Lemma db_stage_keeps_one_per_hash_witness :
  get_filtered_db_stmts (Stmt := string) id (fun _ => 0%nat)
    three_rows_two_hashes false None (Some {[ 3%Z ]}) 1
  = Ok ({[ inr 3%Z; inr 2%Z ]}, {[ 1%Z ]}) /\
  exists rs,
    db_selected three_rows_two_hashes None rs /\
    (inr 3%Z : string + Z) = inr (rs_id rs).
Proof.
  assert (get_filtered_db_stmts (Stmt := string) id (fun _ => 0%nat)
            three_rows_two_hashes false None (Some {[ 3%Z ]}) 1
          = Ok ({[ inr 3%Z; inr 2%Z ]}, {[ 1%Z ]})) as Hrun
    by (vm_compute; reflexivity).
  split; [exact Hrun|].
  refine (proj1 (db_stage_keeps_one_per_hash (Stmt := string) id
                   (fun _ => 0%nat) three_rows_two_hashes None {[ 3%Z ]} 1
                   {[ inr 3%Z; inr 2%Z ]} {[ 1%Z ]} Hrun) (inr 3%Z) _).
  apply elem_of_union. left. by apply elem_of_singleton.
Defined.


End DbPathFacts.

(** ** Statement distillation: the reading-derived path *)

Module ReadingFacts.
Import Distill DistillSpec DistillFacts BetteredFacts ReadingSpec.

Lemma for_each_hist {A S : Type} (body : S -> A -> result S)
    (P : list A -> S -> Prop) (xs : list A) (st st' : S) :
  P [] st ->
  (forall pre x s s', P pre s -> body s x = Ok s' -> P (pre ++ [x]) s') ->
  for_each body xs st = Ok st' -> P xs st'.
Proof.
  intros H0 Hstep.
  assert (forall pre s, P pre s -> for_each body xs s = Ok st' ->
                        P (pre ++ xs) st') as Hgen.
  { induction xs as [|x xs IH]; intros pre s Hs; simpl.
    - intros [= <-]. by rewrite List.app_nil_r.
    - intros (s1 & H1 & H2)%bind_Ok.
      replace (pre ++ x :: xs) with ((pre ++ [x]) ++ xs)
        by (by rewrite <- app_assoc).
      eapply IH; [|done]. by eapply Hstep. }
  apply (Hgen [] st H0).
Qed.

Section Engine.
Context {Stmt : Type} `{Countable Stmt}.
Variable pick_tpl : gset (Z * option Stmt) -> nat.

Abbreviation tpl := (Z * option Stmt)%type.
Abbreviation rv_dict := (gmap string (gmap Z (gmap Z (gset tpl)))).
Abbreviation src_dict :=
  (gmap string
     (gmap Z (gmap string (gmap string (gmap Z (gmap Z (gset tpl))))))).
Abbreviation stmt_nd :=
  (gmap Z (gmap string
     (gmap Z (gmap string (gmap string (gmap Z (gmap Z (gset tpl)))))))).
Abbreviation position := (Z * string * Z * string * string)%type.

(** *** Exact duplicates: one step, then the loop *)
Lemma detect_step_exact (linked : gset Z) (kept dups g kept' dups' : gset tpl) :
  detect_step pick_tpl linked (kept, dups) g = Ok (kept', dups') ->
  (g = ∅ /\ kept' = kept /\ dups' = dups) \/
  exists t, t ∈ g /\ kept' = kept ∪ {[t]} /\ dups' = dups ∪ (g ∖ {[t]}).
Proof.
  intros Hstep. destruct (decide (g = ∅)) as [->|Hg].
  { left. unfold detect_step in Hstep. rewrite size_empty in Hstep.
    rewrite decide_True in Hstep by done. by injection Hstep as <- <-. }
  right.
  set (F := filter (fun t : tpl => t.1 ∈ linked) g).
  destruct (decide (size F = 0)%nat) as [H0|H0];
    [|destruct (decide (size F = 1)%nat) as [H1|H1]].
  - apply size_empty_iff, leibniz_equiv in H0.
    destruct (detect_step_none_linked pick_tpl linked kept dups g Hg H0)
      as (t & Ht & Heq).
    rewrite Heq in Hstep. injection Hstep as <- <-. by exists t.
  - apply size_1_elem_of in H1 as [t Ht%leibniz_equiv].
    rewrite (detect_step_one_linked pick_tpl linked kept dups g t Ht) in Hstep.
    injection Hstep as <- <-. exists t. split; [|done].
    assert (t ∈ F) as Hin by (rewrite Ht; by apply elem_of_singleton).
    by apply elem_of_filter in Hin as [_ ?].
  - rewrite detect_step_many_linked in Hstep; [done|]. fold F. lia.
Qed.

Lemma pairwise_disjoint_snoc (pre : list (gset tpl)) (g : gset tpl) :
  pairwise_disjoint (pre ++ [g]) ->
  pairwise_disjoint pre /\ g ## ⋃ pre.
Proof.
  intros Hpd. split.
  - intros i j a b Hi Hj Hij.
    apply (Hpd i j); [by apply lookup_app_l_Some..|done].
  - intros t Ht (a & Ha & Hta)%elem_of_union_list.
    apply list_elem_of_lookup in Ha as [i Hi].
    assert (a ## g) as Hag.
    { apply (Hpd i (length pre)).
      - by apply lookup_app_l_Some.
      - by apply list_lookup_middle.
      - apply lookup_lt_Some in Hi. lia. }
    by apply (Hag t).
Qed.

Lemma detect_exact (groups : list (gset tpl)) (linked : gset Z)
    (kept dups : gset tpl) :
  _detect_exact_duplicates pick_tpl groups linked = Ok (kept, dups) ->
  kept ∪ dups = ⋃ groups /\
  (pairwise_disjoint groups ->
   kept ## dups /\
   forall g, g ∈ groups -> g <> ∅ -> exists t, kept ∩ g = {[t]}).
Proof.
  unfold _detect_exact_duplicates. intros Hrun.
  refine (for_each_hist _
            (fun pre st =>
               st.1 ∪ st.2 = ⋃ pre /\
               (pairwise_disjoint pre ->
                st.1 ## st.2 /\
                forall g, g ∈ pre -> g <> ∅ -> exists t, st.1 ∩ g = {[t]}))
            _ _ _ _ _ Hrun).
  - simpl. split; [set_solver|]. intros _. split; [set_solver|].
    by intros g ?%elem_of_nil.
  - intros pre g [k d] [k' d'] [Hun Hpd] Hstep. simpl in *.
    assert (⋃ (pre ++ [g]) = ⋃ pre ∪ g) as Hsnoc.
    { rewrite union_list_app_L. simpl. set_solver. }
    rewrite Hsnoc.
    destruct (detect_step_exact _ _ _ _ _ _ Hstep)
      as [(-> & -> & ->)|(t & Ht & -> & ->)].
    + split; [set_solver|]. intros [Hpre Hdis]%pairwise_disjoint_snoc.
      destruct (Hpd Hpre) as [Hkd Hone]. split; [done|].
      intros g [Hg| ->%list_elem_of_singleton]%elem_of_app Hne;
        [by apply Hone|done].
    + split.
      { apply set_eq. intros x. rewrite <- Hun.
        destruct (decide (x = t)) as [->|Hx]; set_solver. }
      intros [Hpre Hdis]%pairwise_disjoint_snoc.
      destruct (Hpd Hpre) as [Hkd Hone].
      assert (g ## k ∪ d) as Hgkd by (by rewrite Hun).
      split; [set_solver|].
      intros g' [Hg'| ->%list_elem_of_singleton]%elem_of_app Hne.
      * destruct (Hone g' Hg' Hne) as [t' Ht'].
        exists t'. rewrite <- Ht'.
        assert (t ∉ g'); [|set_solver].
        intros Htg'. apply (Hdis t Ht). apply elem_of_union_list. eauto.
      * exists t. set_solver.
Qed.


(** *** Every tuple of the tree is accounted for *)
Lemma grows_all_refl {B : Type} `{SubsetEq B} `{!Reflexive (⊆@{B})}
    (s : gset tpl * gset Z * B) : grows_all s s.
Proof. by split_and!. Qed.

Lemma grows_all_trans {B : Type} `{SubsetEq B} `{!Transitive (⊆@{B})}
    (s1 s2 s3 : gset tpl * gset Z * B) :
  grows_all s1 s2 -> grows_all s2 s3 -> grows_all s1 s3.
Proof. intros (? & ? & ?) (? & ? & ?). split_and!; by etrans. Qed.

Lemma filter_rv_dict_covers (linked : gset Z) (ign : bool)
    (rv_list : list string) (st : gset tpl * gset Z * gset tpl)
    (rvd : rv_dict) (st' : gset tpl * gset Z * gset tpl) :
  filter_rv_dict pick_tpl linked ign rv_list st rvd = Ok st' ->
  grows_all st st' /\
  forall rv rd t, rvd !! rv = Some rd -> t ∈ leaves_r rd ->
                  t ∈ st'.1.1 \/ t.1 ∈ st'.1.2 \/ t ∈ st'.2.
Proof.
  destruct st as [[tpls dsids] bett], st' as [[tpls' dsids'] bett'].
  unfold filter_rv_dict. intros (best & Hbest & Hrest)%bind_Ok.
  apply py_max_best in Hbest.
  destruct Hbest as [[rdb Hrdb]%elem_of_dom _]. rewrite Hrdb in Hrest.
  simpl in Hrest.
  assert (forall t, t ∈ leaves_r rdb ->
            exists g, g ∈ (rd ← values rdb; values rd) /\ t ∈ g) as Hgroups.
  { intros t (rid & sd & Hsd & (h & g & Hg & Ht)%elem_of_leaves_with)
             %elem_of_leaves_with.
    exists g. split; [|done]. apply list_elem_of_bind. exists sd.
    split; apply elem_of_values; eauto. }
  assert (bett' =
          foldl (fun b '(rv, rd) =>
                   if decide (rv ≠ best) then b ∪ leaves_r rd else b)
                bett (map_to_list rvd) /\
          tpls ⊆ tpls' /\ dsids ⊆ dsids' /\
          forall t, t ∈ leaves_r rdb -> t ∈ tpls' \/ t.1 ∈ dsids')
    as (-> & Hsub & Hdsub & Hcov).
  { destruct ign.
    - injection Hrest as <- <- <-. split_and!; [done|set_solver|done|].
      intros t (g & Hg & Ht)%Hgroups. left. apply elem_of_union. right.
      apply elem_of_union_list. eauto.
    - apply bind_Ok in Hrest as ([some dup] & Hdet & [= <- <- <-]).
      apply detect_exact in Hdet as [Hun _].
      split_and!; [done|set_solver|set_solver|].
      intros t (g & Hg & Ht)%Hgroups.
      assert (t ∈ some ∪ dup) as [?|Hd]%elem_of_union.
      { rewrite Hun. apply elem_of_union_list. eauto. }
      + left. set_solver.
      + right. apply elem_of_union. right. apply elem_of_map. eauto. }
  split.
  - unfold grows_all. simpl. split; [done|]. split; [done|]. intros t Ht.
    rewrite (foldl_bettered pick_tpl). by left.
  - intros rv rd t Hrv Ht. simpl.
    destruct (decide (rv = best)) as [->|Hne].
    + rewrite Hrdb in Hrv. injection Hrv as <-.
      destruct (Hcov t Ht); auto.
    + right. right. rewrite (foldl_bettered pick_tpl). right. exists rv, rd.
      split; [by apply elem_of_map_to_list|done].
Qed.

Lemma filter_reader_covers (linked : gset Z) (ign : bool) (sd : src_dict)
    (st : gset tpl * gset Z * gset tpl) (rl : string * list string)
    (st' : gset tpl * gset Z * gset tpl) :
  filter_reader pick_tpl linked ign sd st rl = Ok st' ->
  grows_all st st' /\
  forall rvd rv rd t,
    rvd ∈ gets rl.1 sd -> rvd !! rv = Some rd -> t ∈ leaves_r rd ->
    t ∈ st'.1.1 \/ t.1 ∈ st'.1.2 \/ t ∈ st'.2.
Proof.
  destruct rl as [reader rv_list]. unfold filter_reader. intros Hrun. split.
  - eapply (for_each_mono _ grows_all); [| | |exact Hrun].
    + intros s. apply grows_all_refl.
    + intros s1 s2 s3. apply grows_all_trans.
    + intros s rvd s' _ Hs. by destruct (filter_rv_dict_covers _ _ _ _ _ _ Hs).
  - intros rvd rv rd t Hin. revert rv rd t. simpl in Hin.
    eapply (for_each_member _ grows_all
              (fun (rvd : rv_dict) s =>
                 forall rv rd t, rvd !! rv = Some rd -> t ∈ leaves_r rd ->
                   t ∈ s.1.1 \/ t.1 ∈ s.1.2 \/ t ∈ s.2));
      [| | | |exact Hrun|exact Hin].
    + intros s. apply grows_all_refl.
    + intros s1 s2 s3. apply grows_all_trans.
    + intros s x s' _ Hs. by apply filter_rv_dict_covers in Hs.
    + intros a s s' (H1 & H2 & H3) Hq rv rd t Hrv Ht.
      destruct (Hq rv rd t Hrv Ht) as [?|[?|?]]; auto.
Qed.

Lemma filter_text_ref_covers (linked : gset Z) (ign : bool)
    (st : gset tpl * gset Z * gset Z) (sd : src_dict)
    (st' : gset tpl * gset Z * gset Z) :
  filter_text_ref pick_tpl linked ign st sd = Ok st' ->
  grows_all st st' /\
  forall src tcd tcid rd reader rv_list rvd rv r_d t,
    sd !! src = Some tcd -> tcd !! tcid = Some rd ->
    rd !! reader = Some rvd -> rvd !! rv = Some r_d -> t ∈ leaves_r r_d ->
    (reader, rv_list) ∈ reader_versions ->
    t ∈ st'.1.1 \/ t.1 ∈ st'.1.2 \/ t.1 ∈ st'.2.
Proof.
  destruct st as [[tpls dsids] bsids]. unfold filter_text_ref.
  intros ([sd' some0] & Hdrop & Hrest)%bind_Ok.
  apply bind_Ok in Hrest as ([[tpls1 dsids1] some1] & Hloop & [= <-]).
  apply (drop_worse_sources_spec pick_tpl) in Hdrop as (Hsrc & _ & Hsub).
  assert (grows_all (tpls, dsids, some0) (tpls1, dsids1, some1))
    as (Hg1 & Hg2 & Hg3).
  { eapply (for_each_mono _ grows_all); [| | |exact Hloop].
    - intros s. apply grows_all_refl.
    - intros s1 s2 s3. apply grows_all_trans.
    - intros s rl s' _ Hs. by destruct (filter_reader_covers _ _ _ _ _ _ Hs). }
  simpl in Hg1, Hg2, Hg3.
  assert (forall t, t ∈ some1 -> t.1 ∈ bsids ∪ sids_of some1) as Hsid.
  { intros t Ht. apply elem_of_union. right. apply elem_of_map. eauto. }
  split; [split_and!; simpl; [done|done|set_solver]|].
  intros src tcd tcid rd reader rv_list rvd rv r_d t Hs Htc Hrd Hrv Ht Hrl.
  simpl.
  destruct (Hsrc _ _ Hs) as [[Hs' _]|(_ & _ & Hl)].
  - assert (rvd ∈ gets reader sd') as Hgets
      by (apply elem_of_gets; eauto 8).
    assert (forall rl, rl ∈ reader_versions ->
              forall (rvd : rv_dict) rv r_d t,
                rvd ∈ gets rl.1 sd' -> rvd !! rv = Some r_d ->
                t ∈ leaves_r r_d ->
                t ∈ (tpls1, dsids1, some1).1.1 \/
                t.1 ∈ (tpls1, dsids1, some1).1.2 \/
                t ∈ (tpls1, dsids1, some1).2) as Hmem.
    { eapply (for_each_member _ grows_all
        (fun (rl : string * list string) s =>
           forall (rvd : rv_dict) rv r_d t,
             rvd ∈ gets rl.1 sd' -> rvd !! rv = Some r_d ->
             t ∈ leaves_r r_d ->
             t ∈ s.1.1 \/ t.1 ∈ s.1.2 \/ t ∈ s.2));
        [| | | |exact Hloop].
      - intros s. apply grows_all_refl.
      - intros s1 s2 s3. apply grows_all_trans.
      - intros s rl s' _ Hbody. by apply filter_reader_covers in Hbody.
      - intros a s s' (H1 & H2 & H3) Hq rvd0 rv0 r_d0 t0 ? ? ?.
        destruct (Hq rvd0 rv0 r_d0 t0) as [?|[?|?]]; auto. }
    destruct (Hmem (reader, rv_list) Hrl rvd rv r_d t Hgets Hrv Ht)
      as [?|[?|?]]; simpl in *; auto.
  - right. right. apply Hsid, Hg3, Hl. apply elem_of_leaves_tc. eauto 10.
Qed.

Lemma filter_rdg_tpls_covers (nd : stmt_nd) (linked : gset Z) (ign : bool)
    (st' : gset tpl * gset Z * gset Z) :
  filter_rdg_tpls pick_tpl nd linked ign = Ok st' ->
  forall (p : position) (t : tpl),
    occurs nd p t -> known_reader p ->
    t ∈ st'.1.1 \/ t.1 ∈ st'.1.2 \/ t.1 ∈ st'.2.
Proof.
  unfold filter_rdg_tpls. intros Hrun [[[[trid src] tcid] reader] rv] t
    (r_d & (sd & tcd & rd & rvd & Hsd & Htcd & Hrd & Hrvd & Hr_d)%subtree_Some
         & Ht) [rv_list Hrl].
  simpl in Hrl.
  assert (sd ∈ values nd) as Hin by (apply elem_of_values; eauto).
  revert src tcd tcid rd reader rv_list rvd rv r_d t Htcd Hrd Hrvd Hr_d Ht Hrl.
  eapply (for_each_member _ grows_all
            (fun (sd : src_dict) (s : gset tpl * gset Z * gset Z) =>
               forall src tcd tcid rd reader rv_list rvd rv r_d t,
                 sd !! src = Some tcd -> tcd !! tcid = Some rd ->
                 rd !! reader = Some rvd -> rvd !! rv = Some r_d ->
                 t ∈ leaves_r r_d -> (reader, rv_list) ∈ reader_versions ->
                 t ∈ s.1.1 \/ t.1 ∈ s.1.2 \/ t.1 ∈ s.2));
    [| | | |exact Hrun|exact Hin].
  - intros s. apply grows_all_refl.
  - intros s1 s2 s3. apply grows_all_trans.
  - intros s x s' _ Hs. by apply filter_text_ref_covers in Hs.
  - intros a s s' (H1 & H2 & H3) Hq src tcd tcid rd reader rv_list rvd rv
           r_d t ? ? ? ? ? ?.
    destruct (Hq src tcd tcid rd reader rv_list rvd rv r_d t)
      as [?|[?|?]]; auto.
Qed.

Lemma stmts_of_kept (gfs : bool) (tpls : gset tpl) (stmts : gset (Stmt + Z))
    (t : tpl) :
  stmts_of gfs tpls = Ok stmts -> t ∈ tpls -> kept_in gfs t stmts.
Proof.
  unfold stmts_of, kept_in. destruct gfs.
  - case_decide; [|done]. intros [= <-] Ht s Hs.
    apply elem_of_list_to_set, list_elem_of_omap. exists t.
    split; [by apply elem_of_elements|]. by rewrite Hs.
  - intros [= <-] Ht. apply elem_of_map. by exists t.
Qed.

Lemma rdg_stmts_covers (nd : stmt_nd) (gfs : bool)
    (linked_sids : option (gset Z)) (ign : bool) (stmts : gset (Stmt + Z))
    (dsids bsids : gset Z) (p : position) (t : tpl) :
  get_filtered_rdg_stmts pick_tpl nd gfs linked_sids ign
    = Ok (stmts, dsids, bsids) ->
  occurs nd p t -> known_reader p ->
  kept_in gfs t stmts \/ t.1 ∈ dsids \/ t.1 ∈ bsids.
Proof.
  unfold get_filtered_rdg_stmts.
  intros ([[tpls d] b] & Hrun & Hrest)%bind_Ok Hocc Hknown.
  apply bind_Ok in Hrest as (s & Hs & [= <- <- <-]).
  destruct (filter_rdg_tpls_covers _ _ _ _ Hrun p t Hocc Hknown)
    as [Ht|[?|?]]; auto.
  left. by eapply stmts_of_kept.
Qed.

(** No statement of the tree is dropped silently: whatever lies under a
    reader of [reader_versions] is kept, reported as an exact duplicate,
    or reported as bettered. *)
Theorem reading_stage_accounts_for_every_statement (nd : stmt_nd)
    (get_full_stmts : bool) (linked_sids : option (gset Z))
    (ignore_duplicates : bool) (stmts : gset (Stmt + Z))
    (dsids bsids : gset Z) :
  get_filtered_rdg_stmts pick_tpl nd get_full_stmts linked_sids
    ignore_duplicates = Ok (stmts, dsids, bsids) ->
  forall (p : position) (t : tpl),
    occurs nd p t -> known_reader p ->
    kept_in get_full_stmts t stmts \/ t.1 ∈ dsids \/ t.1 ∈ bsids.
Proof. intros Hrun p t. by eapply rdg_stmts_covers. Qed.

(** *** The tree that [get_reading_stmt_dict] builds *)
Lemma node_at_empty {K V : Type} `{Countable K} `{Empty V} (k : K) :
  node_at k (∅ : gmap K V) = ∅.
Proof. unfold node_at. by rewrite lookup_empty. Qed.

Lemma node_at_Some {K V : Type} `{Countable K} `{Empty V} (k : K)
    (d : gmap K V) (v : V) :
  d !! k = Some v -> node_at k d = v.
Proof. unfold node_at. by intros ->. Qed.

Lemma node_at_at_key {K V : Type} `{Countable K} `{Empty V}
    (k k' : K) (f : V -> V) (d : gmap K V) :
  node_at k' (at_key k f d)
  = if decide (k' = k) then f (node_at k d) else node_at k' d.
Proof.
  unfold node_at, at_key. case_decide as Hk.
  - subst. by rewrite lookup_insert_eq.
  - by rewrite lookup_insert_ne.
Qed.

Lemma occurs_leaf_at (nd : stmt_nd) (p : position) (t : tpl) :
  occurs nd p t <-> exists rid h, t ∈ leaf_at nd p rid h.
Proof.
  destruct p as [[[[trid src] tcid] reader] rv]. unfold occurs. split.
  - intros (r_d & (sd & tcd & rd & rvd & H1 & H2 & H3 & H4 & H5)%subtree_Some
            & (rid & s_d & H6 & (h & g & H7 & Ht)%elem_of_leaves_with)
              %elem_of_leaves_with).
    exists rid, h. unfold leaf_at.
    by rewrite (node_at_Some _ _ _ H1), (node_at_Some _ _ _ H2),
      (node_at_Some _ _ _ H3), (node_at_Some _ _ _ H4),
      (node_at_Some _ _ _ H5), (node_at_Some _ _ _ H6),
      (node_at_Some _ _ _ H7).
  - intros (rid & h & Ht). unfold leaf_at in Ht.
    destruct (nd !! trid) as [sd|] eqn:H1; unfold node_at at 7 in Ht;
      rewrite H1 in Ht; simpl in Ht;
      [|by rewrite !node_at_empty in Ht].
    destruct (sd !! src) as [tcd|] eqn:H2; unfold node_at at 6 in Ht;
      rewrite H2 in Ht; simpl in Ht;
      [|by rewrite !node_at_empty in Ht].
    destruct (tcd !! tcid) as [rd|] eqn:H3; unfold node_at at 5 in Ht;
      rewrite H3 in Ht; simpl in Ht;
      [|by rewrite !node_at_empty in Ht].
    destruct (rd !! reader) as [rvd|] eqn:H4; unfold node_at at 4 in Ht;
      rewrite H4 in Ht; simpl in Ht;
      [|by rewrite !node_at_empty in Ht].
    destruct (rvd !! rv) as [r_d|] eqn:H5; unfold node_at at 3 in Ht;
      rewrite H5 in Ht; simpl in Ht;
      [|by rewrite !node_at_empty in Ht].
    destruct (r_d !! rid) as [s_d|] eqn:H6; unfold node_at at 2 in Ht;
      rewrite H6 in Ht; simpl in Ht;
      [|by rewrite !node_at_empty in Ht].
    destruct (s_d !! h) as [g|] eqn:H7; unfold node_at in Ht;
      rewrite H7 in Ht; simpl in Ht; [|done].
    exists r_d. split; [apply subtree_Some; eauto 10|].
    apply elem_of_leaves_with. exists rid, s_d. split; [done|].
    apply elem_of_leaves_with. eauto.
Qed.

End Engine.

Lemma for_each_Ok_all {A S : Type} (body : S -> A -> result S)
    (xs : list A) (st st' : S) :
  for_each body xs st = Ok st' ->
  forall x, x ∈ xs -> exists s s', body s x = Ok s'.
Proof.
  revert st. induction xs as [|y xs IH]; intros st; simpl.
  - by intros _ x ?%elem_of_nil.
  - intros (s1 & H1 & H2)%bind_Ok x [->|Hx]%elem_of_cons; eauto.
Qed.


Lemma reader_of_Ok (rv reader : string) :
  reader_of rv = Ok reader ->
  exists rv_list, (reader, rv_list) ∈ reader_versions /\ rv ∈ rv_list.
Proof.
  unfold reader_of.
  destruct (list_find _ reader_versions) as [[i [r l]]|] eqn:Hf; [|done].
  intros [= <-]. apply list_find_Some in Hf as (Hi & Hrv & _).
  exists l. split; [by eapply list_elem_of_lookup_2|done].
Qed.


Section Build.
Context {Stmt : Type} `{Countable Stmt}.
Variable from_json : string -> Stmt.
Variable _set_evidence_text_ref : Stmt -> Z -> Stmt.
Variable get_hash : Stmt -> Z.

Abbreviation tpl' := (Z * option Stmt)%type.
Abbreviation stmt_nd' :=
  (gmap Z (gmap string
     (gmap Z (gmap string (gmap string (gmap Z (gmap Z (gset tpl')))))))).
Abbreviation position' := (Z * string * Z * string * string)%type.

Lemma elem_of_reading_rows (db : database)
    (clauses : option (raw_statement -> bool)) (rs : raw_statement)
    (ri : reading_info) :
  (rs, ri) ∈ reading_rows db clauses <-> reading_selected db clauses rs ri.
Proof.
  unfold reading_rows, reading_selected. rewrite list_elem_of_omap. split.
  - intros (rs' & Hin & Hsel). destruct (rs_reading rs') as [ri'|] eqn:Hr;
      [|done].
    destruct (default _ clauses rs') eqn:Hc; [|done].
    injection Hsel as <- <-. done.
  - intros (Hin & Hr & Hc). exists rs. split; [done|].
    by rewrite Hr, Hc.
Qed.

Lemma add_reading_row_leaf (gfs : bool) (nd nd' : stmt_nd')
    (rs : raw_statement) (ri : reading_info) :
  add_reading_row from_json _set_evidence_text_ref get_hash gfs nd (rs, ri)
    = Ok nd' ->
  exists reader,
    reader_of (ri_reader_version ri) = Ok reader /\
    forall (p : position') (rid h : Z) (t : tpl'),
      t ∈ leaf_at nd' p rid h <->
      t ∈ leaf_at nd p rid h \/
      filed_at from_json _set_evidence_text_ref get_hash gfs rs ri reader
        p rid h t.
Proof.
  unfold add_reading_row. intros (reader & Hreader & [= <-])%bind_Ok.
  exists reader. split; [done|].
  intros [[[[a b] c] d] e] rid h t. unfold leaf_at, filed_at, row_statement.
  rewrite node_at_at_key.
  destruct (decide (a = ri_trid ri)) as [->|Ha]; [|naive_solver].
  rewrite node_at_at_key.
  destruct (decide (b = ri_source ri)) as [->|Hb]; [|naive_solver].
  rewrite node_at_at_key.
  destruct (decide (c = ri_tcid ri)) as [->|Hc]; [|naive_solver].
  rewrite node_at_at_key.
  destruct (decide (d = reader)) as [->|Hd]; [|naive_solver].
  rewrite node_at_at_key.
  destruct (decide (e = ri_reader_version ri)) as [->|He]; [|naive_solver].
  rewrite node_at_at_key.
  destruct (decide (rid = ri_rid ri)) as [->|Hrid]; [|naive_solver].
  rewrite node_at_at_key.
  case_decide as Hh; [|naive_solver]. subst h.
  rewrite elem_of_union, elem_of_singleton. naive_solver.
Qed.

Lemma reading_dict_leaves (db : database)
    (clauses : option (raw_statement -> bool)) (gfs : bool)
    (nd : stmt_nd') :
  get_reading_stmt_dict from_json _set_evidence_text_ref get_hash db clauses
    gfs = Ok nd ->
  forall (p : position') (rid h : Z) (t : tpl'),
    t ∈ leaf_at nd p rid h <->
    exists rs ri reader,
      reading_selected db clauses rs ri /\
      reader_of (ri_reader_version ri) = Ok reader /\
      filed_at from_json _set_evidence_text_ref get_hash gfs rs ri reader
        p rid h t.
Proof.
  unfold get_reading_stmt_dict. intros Hrun.
  assert (forall (p : position') (rid h : Z) (t : tpl'),
            t ∈ leaf_at nd p rid h <->
            exists rs ri reader,
              (rs, ri) ∈ reading_rows db clauses /\
              reader_of (ri_reader_version ri) = Ok reader /\
              filed_at from_json _set_evidence_text_ref get_hash gfs rs ri
                reader p rid h t) as Hleaf.
  { refine (for_each_hist _
              (fun pre (nd : stmt_nd') =>
                 forall (p : position') (rid h : Z) (t : tpl'),
                   t ∈ leaf_at nd p rid h <->
                   exists rs ri reader,
                     (rs, ri) ∈ pre /\
                     reader_of (ri_reader_version ri) = Ok reader /\
                     filed_at from_json _set_evidence_text_ref get_hash gfs
                       rs ri reader p rid h t) _ _ _ _ _ Hrun).
    - intros [[[[a b] c] d] e] rid h t. unfold leaf_at.
      rewrite !node_at_empty. split; [by intros ?%not_elem_of_empty|].
      by intros (? & ? & ? & ?%elem_of_nil & _).
    - intros pre [rs ri] s s' IH (reader & Hreader & Hstep)%add_reading_row_leaf
             p rid h t.
      rewrite Hstep, IH. split.
      + intros [(rs' & ri' & rd' & Hin & ? & ?)|Hf].
        * exists rs', ri', rd'. split; [|done]. apply elem_of_app. by left.
        * exists rs, ri, reader. split; [|done].
          apply elem_of_app. right. by left.
      + intros (rs' & ri' & rd' & [Hin|Hin%list_elem_of_singleton]%elem_of_app
                & Hrd' & Hf).
        * left. eauto 8.
        * injection Hin as -> ->. right.
          rewrite Hreader in Hrd'. by injection Hrd' as <-. }
  intros p rid h t. rewrite Hleaf.
  by setoid_rewrite elem_of_reading_rows.
Qed.


Lemma raw_statement_by_id (db : database) (rs rs' : raw_statement) :
  NoDup (rs_id <$> raw_statements db) ->
  rs ∈ raw_statements db -> rs' ∈ raw_statements db ->
  rs_id rs = rs_id rs' -> rs = rs'.
Proof. intros Hnd Hrs Hrs' Hid. by eapply (NoDup_fmap_eq rs_id). Qed.

Lemma reading_dict_leaf_unique (db : database)
    (clauses : option (raw_statement -> bool)) (gfs : bool)
    (nd : stmt_nd') :
  get_reading_stmt_dict from_json _set_evidence_text_ref get_hash db clauses
    gfs = Ok nd ->
  NoDup (rs_id <$> raw_statements db) ->
  forall (p p' : position') (rid h rid' h' : Z) (t t' : tpl'),
    t ∈ leaf_at nd p rid h -> t' ∈ leaf_at nd p' rid' h' -> t.1 = t'.1 ->
    p = p' /\ rid = rid' /\ h = h' /\ t = t'.
Proof.
  intros Hrun Hnd p p' rid h rid' h' t t'
    (rs & ri & reader & (Hrs & Hri & _) & Hreader & -> & -> & -> & ->)
      %(reading_dict_leaves _ _ _ _ Hrun)
    (rs' & ri' & reader' & (Hrs' & Hri' & _) & Hreader' & -> & -> & -> & ->)
      %(reading_dict_leaves _ _ _ _ Hrun) Hid.
  simpl in Hid.
  assert (rs' = rs) as -> by (symmetry; by eapply raw_statement_by_id).
  rewrite Hri in Hri'. injection Hri' as <-.
  rewrite Hreader in Hreader'. by injection Hreader' as <-.
Qed.

(** The tree holds the selected rows and nothing else: a tuple is filed
    at a position, reading and statement hash exactly when some selected
    raw statement with a recognised reader version belongs there; and if
    the ids of the raw statements are unique, no id is filed twice. *)
Theorem reading_dict_holds_the_selected_rows (db : database)
    (clauses : option (raw_statement -> bool)) (get_full_stmts : bool)
    (nd : stmt_nd') :
  get_reading_stmt_dict from_json _set_evidence_text_ref get_hash db clauses
    get_full_stmts = Ok nd ->
  (forall (p : position') (rid h : Z) (t : tpl'),
     t ∈ leaf_at nd p rid h <->
     exists rs ri reader,
       reading_selected db clauses rs ri /\
       reader_of (ri_reader_version ri) = Ok reader /\
       filed_at from_json _set_evidence_text_ref get_hash get_full_stmts
         rs ri reader p rid h t) /\
  (forall (p : position') (t : tpl'),
     occurs nd p t <-> exists rid h, t ∈ leaf_at nd p rid h) /\
  (NoDup (rs_id <$> raw_statements db) ->
   forall (p p' : position') (rid h rid' h' : Z) (t t' : tpl'),
     t ∈ leaf_at nd p rid h -> t' ∈ leaf_at nd p' rid' h' -> t.1 = t'.1 ->
     p = p' /\ rid = rid' /\ h = h' /\ t = t').
Proof.
  intros Hrun. split_and!.
  - by apply reading_dict_leaves.
  - apply occurs_leaf_at.
  - by apply (reading_dict_leaf_unique db clauses get_full_stmts).
Qed.


Variable pick_tpl : gset (Z * option Stmt) -> nat.

(** From the rows to the result: every selected raw statement of a
    reading is kept, reported as an exact duplicate, or reported as
    bettered; none is lost between the two functions. *)
Theorem every_reading_statement_is_accounted_for (db : database)
    (clauses : option (raw_statement -> bool)) (get_full_stmts : bool)
    (linked_sids : option (gset Z)) (ignore_duplicates : bool)
    (nd : stmt_nd') (stmts : gset (Stmt + Z)) (dsids bsids : gset Z) :
  get_reading_stmt_dict from_json _set_evidence_text_ref get_hash db clauses
    get_full_stmts = Ok nd ->
  get_filtered_rdg_stmts pick_tpl nd get_full_stmts linked_sids
    ignore_duplicates = Ok (stmts, dsids, bsids) ->
  forall rs ri,
    reading_selected db clauses rs ri ->
    (if get_full_stmts
     then inl (row_statement from_json _set_evidence_text_ref rs ri) ∈ stmts
     else inr (rs_id rs) ∈ stmts) \/
    rs_id rs ∈ dsids \/ rs_id rs ∈ bsids.
Proof.
  intros Hnd Hrun rs ri Hsel.
  assert (exists reader, reader_of (ri_reader_version ri) = Ok reader)
    as [reader Hreader].
  { unfold get_reading_stmt_dict in Hnd.
    destruct (for_each_Ok_all _ _ _ _ Hnd (rs, ri)) as (s & s' & Hs);
      [by apply elem_of_reading_rows|].
    apply add_reading_row_leaf in Hs as (reader & ? & _). eauto. }
  set (p := (ri_trid ri, ri_source ri, ri_tcid ri, reader,
             ri_reader_version ri)).
  set (t := (rs_id rs,
             if get_full_stmts
             then Some (row_statement from_json _set_evidence_text_ref rs ri)
             else None) : tpl').
  assert (occurs nd p t) as Hocc.
  { apply occurs_leaf_at.
    exists (ri_rid ri),
      (get_hash (row_statement from_json _set_evidence_text_ref rs ri)).
    apply (reading_dict_leaves _ _ _ _ Hnd). by exists rs, ri, reader. }
  assert (known_reader p) as Hknown.
  { apply reader_of_Ok in Hreader as (rv_list & Hin & _). by exists rv_list. }
  destruct (rdg_stmts_covers pick_tpl nd get_full_stmts linked_sids
              ignore_duplicates stmts dsids bsids p t Hrun Hocc Hknown)
    as [Hkept|[?|?]]; auto.
  left. unfold kept_in in Hkept. subst t. destruct get_full_stmts; [|done].
  by apply Hkept.
Qed.

End Build.

(** *** The loops as a whole *)
Lemma for_each_ext {A S : Type} (body body' : S -> A -> result S)
    (xs : list A) (st : S) :
  (forall s x, body s x = body' s x) ->
  for_each body xs st = for_each body' xs st.
Proof.
  intros Hext. revert st. induction xs as [|x xs IH]; intros st; simpl;
    [done|].
  rewrite Hext. destruct (body' st x); simpl; [apply IH|done].
Qed.

Lemma for_each_raise {A S : Type} (body : S -> A -> result S)
    (xs : list A) (x : A) (st : S) :
  x ∈ xs -> (forall s, is_raise (body s x)) -> is_raise (for_each body xs st).
Proof.
  intros Hx Hbad. revert st. induction xs as [|y xs IH]; intros st;
    [by apply elem_of_nil in Hx|].
  simpl. apply elem_of_cons in Hx as [<-|Hx].
  - specialize (Hbad st). by destruct (body st x).
  - destruct (body st y); simpl; [by apply IH|done].
Qed.

Lemma keyed_raise {A : Type} (f : A -> result nat) (xs : list A) (x : A) :
  x ∈ xs -> is_raise (f x) -> is_raise (keyed f xs).
Proof.
  intros Hx Hbad. induction xs as [|y xs IH]; [by apply elem_of_nil in Hx|].
  simpl. apply elem_of_cons in Hx as [<-|Hx].
  - by destruct (f x).
  - destruct (f y); simpl; [|done].
    specialize (IH Hx). by destruct (keyed f xs).
Qed.

Lemma index_of_None (x : string) (l : list string) :
  x ∉ l -> index_of x l = None.
Proof.
  induction l as [|y l IH]; [done|]. intros Hx. simpl.
  rewrite decide_False by (intros ->; apply Hx; by left).
  rewrite IH; [done|]. intros ?. apply Hx. by right.
Qed.

Section Loops.
Context {Stmt : Type} `{Countable Stmt}.
Variable pick_tpl : gset (Z * option Stmt) -> nat.

Abbreviation tpl'' := (Z * option Stmt)%type.
Abbreviation src_dict'' :=
  (gmap string
     (gmap Z (gmap string (gmap string (gmap Z (gmap Z (gset tpl''))))))).
Abbreviation stmt_nd'' :=
  (gmap Z (gmap string
     (gmap Z (gmap string (gmap string (gmap Z (gmap Z (gset tpl'')))))))).

(** Over any number of groups the loop splits the members into kept and
    duplicates: together they are all the members, a linked member is
    always kept, and when the groups share no member the two sets are
    disjoint and exactly one member of each non-empty group is kept. *)
Theorem exact_duplicates_partition (groups : list (gset tpl''))
    (linked : gset Z) (kept dups : gset tpl'') :
  _detect_exact_duplicates pick_tpl groups linked = Ok (kept, dups) ->
  kept ∪ dups = ⋃ groups /\
  (forall t, t ∈ ⋃ groups -> t.1 ∈ linked -> t ∈ kept) /\
  (pairwise_disjoint groups ->
   kept ## dups /\
   forall g, g ∈ groups -> g <> ∅ -> exists t, kept ∩ g = {[t]}).
Proof.
  intros Hrun. destruct (detect_exact pick_tpl _ _ _ _ Hrun) as [Hun Hpd].
  split_and!; [done| |done].
  intros t Ht Hl. rewrite <- Hun in Ht.
  apply elem_of_union in Ht as [?|Hd]; [done|].
  destruct (detect_dups_not_linked pick_tpl _ _ _ _ Hrun t.1); [|done].
  apply elem_of_map. eauto.
Qed.

Lemma drop_worse_sources_raise (sd : src_dict'') (acc : gset tpl'')
    (src : string) :
  (1 < size sd)%nat -> src ∈ dom sd -> src ∉ text_content_sources ->
  is_raise (drop_worse_sources (size sd) sd acc).
Proof.
  intros Hsz Hsrc Hnot. destruct (size sd) as [|n] eqn:Hn; [lia|].
  simpl. rewrite Hn. rewrite decide_True by done.
  assert (is_raise (keyed better_func (keys sd))) as Hk.
  { apply (keyed_raise _ _ src); [by apply elem_of_keys|].
    unfold better_func, py_index. by rewrite index_of_None. }
  unfold py_min. by destruct (keyed better_func (keys sd)).
Qed.

(** A text ref with several source tiers has them ranked by their place
    in [text_content_sources]: a tier under an unlisted name stops the
    whole filtering with an exception. *)
Theorem unlisted_source_among_several_raises (nd : stmt_nd'')
    (get_full_stmts : bool) (linked_sids : option (gset Z))
    (ignore_duplicates : bool) (trid : Z) (sd : src_dict'') (src : string) :
  nd !! trid = Some sd -> (1 < size sd)%nat -> src ∈ dom sd ->
  src ∉ text_content_sources ->
  is_raise (get_filtered_rdg_stmts pick_tpl nd get_full_stmts linked_sids
              ignore_duplicates).
Proof.
  intros Hsd Hsz Hsrc Hnot. unfold get_filtered_rdg_stmts, filter_rdg_tpls.
  assert (is_raise
            (for_each (filter_text_ref pick_tpl (default ∅ linked_sids)
                         ignore_duplicates) (values nd) (∅, ∅, ∅))) as Hr.
  { apply (for_each_raise _ _ sd); [apply elem_of_values; eauto|].
    intros [[a b] c]. unfold filter_text_ref.
    pose proof (drop_worse_sources_raise sd ∅ src Hsz Hsrc Hnot) as Hd.
    by destruct (drop_worse_sources (size sd) sd ∅). }
  by destruct (for_each _ (values nd) _).
Qed.

Lemma filter_rv_dict_ignoring (linked linked' : gset Z)
    (rv_list : list string) (st : gset tpl'' * gset Z * gset tpl'')
    (rvd : gmap string (gmap Z (gmap Z (gset tpl'')))) :
  filter_rv_dict pick_tpl linked true rv_list st rvd
  = filter_rv_dict pick_tpl linked' true rv_list st rvd /\
  forall st', filter_rv_dict pick_tpl linked true rv_list st rvd = Ok st' ->
              st'.1.2 = st.1.2.
Proof.
  destruct st as [[a b] c]. unfold filter_rv_dict. split; [done|].
  intros st' (best & _ & [= <-])%bind_Ok. done.
Qed.

Lemma filter_text_ref_ignoring (linked linked' : gset Z)
    (st : gset tpl'' * gset Z * gset Z) (sd : src_dict'') :
  filter_text_ref pick_tpl linked true st sd
  = filter_text_ref pick_tpl linked' true st sd /\
  forall st', filter_text_ref pick_tpl linked true st sd = Ok st' ->
              st'.1.2 = st.1.2.
Proof.
  destruct st as [[a b] c]. unfold filter_text_ref.
  generalize reader_versions. intros readers. split.
  - destruct (drop_worse_sources _ sd ∅) as [[sd' some]|e]; [|done]. simpl.
    rewrite (for_each_ext (filter_reader pick_tpl linked true sd')
               (filter_reader pick_tpl linked' true sd')); [done|].
    intros s [reader rv_list]. unfold filter_reader.
    apply for_each_ext. intros s' rvd.
    by destruct (filter_rv_dict_ignoring linked linked' rv_list s' rvd).
  - intros st' ([sd' some] & _ & Hrest)%bind_Ok.
    apply bind_Ok in Hrest as ([[a' b'] c'] & Hloop & [= <-]). simpl.
    refine (for_each_inv _ (fun s => s.1.2 = b) _ _ _ _ _ Hloop); [done|].
    intros s [reader rv_list] s' _ Hs Hbody. unfold filter_reader in Hbody.
    refine (for_each_inv _ (fun s => s.1.2 = b) _ _ _ _ _ Hbody); [done|].
    intros s1 rvd s2 _ Hs1 Hrv.
    destruct (filter_rv_dict_ignoring linked linked rv_list s1 rvd)
      as [_ Hkeep].
    by rewrite (Hkeep _ Hrv).
Qed.

(** With [ignore_duplicates] set, the linked ids play no part in the
    result, and no statement is reported as an exact duplicate. *)
Theorem ignoring_duplicates_reports_none (nd : stmt_nd'')
    (get_full_stmts : bool) (linked_sids linked_sids' : option (gset Z)) :
  get_filtered_rdg_stmts pick_tpl nd get_full_stmts linked_sids true
  = get_filtered_rdg_stmts pick_tpl nd get_full_stmts linked_sids' true /\
  forall stmts dsids bsids,
    get_filtered_rdg_stmts pick_tpl nd get_full_stmts linked_sids true
    = Ok (stmts, dsids, bsids) ->
    dsids = ∅.
Proof.
  unfold get_filtered_rdg_stmts, filter_rdg_tpls. split.
  - rewrite (for_each_ext
               (filter_text_ref pick_tpl (default ∅ linked_sids) true)
               (filter_text_ref pick_tpl (default ∅ linked_sids') true));
      [done|].
    intros s sd. by destruct (filter_text_ref_ignoring
                                (default ∅ linked_sids)
                                (default ∅ linked_sids') s sd).
  - intros stmts dsids bsids ([[tpls d] b] & Hrun & Hrest)%bind_Ok.
    apply bind_Ok in Hrest as (s & _ & [= _ <- _]).
    refine (for_each_inv _ (fun s => s.1.2 = ∅) _ _ _ _ _ Hrun); [done|].
    intros s1 sd s2 _ Hs1 Hbody.
    destruct (filter_text_ref_ignoring (default ∅ linked_sids)
                (default ∅ linked_sids) s1 sd) as [_ Hkeep].
    by rewrite (Hkeep _ Hbody).
Qed.

End Loops.

(** *** The theorems at concrete rows and trees *)
Lemma is_raise_Raise {A : Type} (r : result A) :
  is_raise r -> exists e, r = Raise e.
Proof. destruct r; [done|by eauto]. Qed.

Lemma returns_Ok {A : Type} (r : result A) :
  returns r = true -> exists a, r = Ok a.
Proof. destruct r; [by eauto|done]. Qed.

Lemma exact_duplicates_partition_witness :
  exists kept dups,
    _detect_exact_duplicates first_member two_groups {[ 2%Z ]}
      = Ok (kept, dups) /\
    kept ∪ dups = ⋃ two_groups /\ (2%Z, None) ∈ kept.
Proof.
  destruct (_detect_exact_duplicates first_member two_groups {[ 2%Z ]})
    as [[kept dups]|e] eqn:E; [|by vm_compute in E].
  exists kept, dups. split; [done|].
  destruct (exact_duplicates_partition _ _ _ _ _ E) as (Hun & Hlinked & _).
  split; [done|]. apply Hlinked; vm_compute; reflexivity.
Defined.

Lemma unlisted_source_among_several_raises_witness :
  exists e,
    get_filtered_rdg_stmts first_member unlisted_source_tree false None false
    = Raise e.
Proof.
  apply is_raise_Raise.
  apply (unlisted_source_among_several_raises first_member
           unlisted_source_tree false None false 1%Z
           unlisted_source_text_ref "biorxiv").
  - reflexivity.
  - vm_compute. lia.
  - vm_compute. reflexivity.
  - intros Hin. by repeat (apply elem_of_cons in Hin as [?|Hin]; [done|]);
      apply elem_of_nil in Hin.
Defined.

Lemma reading_stage_accounts_for_every_statement_witness :
  exists stmts dsids bsids,
    get_filtered_rdg_stmts first_member two_tiers_tree false
      (Some {[ 13%Z ]}) false = Ok (stmts, dsids, bsids) /\
    (kept_in false (12%Z, None) stmts \/ 12%Z ∈ dsids \/ 12%Z ∈ bsids).
Proof.
  destruct (get_filtered_rdg_stmts first_member two_tiers_tree false
              (Some {[ 13%Z ]}) false)
    as [[[stmts dsids] bsids]|e] eqn:E; [|by vm_compute in E].
  exists stmts, dsids, bsids. split; [done|].
  apply (reading_stage_accounts_for_every_statement first_member _ _ _ _ _ _
           _ E (1%Z, "pmc_oa", 12%Z, "reach", "1.3.3-61059a-biores-")
           (12%Z, None)).
  - exists {[ 103%Z := example_leaf 8 [12%Z; 13%Z] ]}.
    split; vm_compute; reflexivity.
  - exists ["61059a-biores-e9ee36"; "1.3.3-61059a-biores-"]. simpl.
    unfold reader_versions. apply elem_of_cons. right.
    apply elem_of_cons. by left.
Defined.

Lemma reading_dict_holds_the_selected_rows_witness :
  exists nd,
    get_reading_stmt_dict id (fun s _ => s) json_length three_reading_rows
      None false = Ok nd /\
    (3%Z, None) ∈
      leaf_at nd (1%Z, "pubmed", 10%Z, "reach", "1.3.3-61059a-biores-")
        101%Z 2%Z.
Proof.
  destruct (returns_Ok (get_reading_stmt_dict id (fun s _ => s) json_length
                          three_reading_rows None false)) as [nd E];
    [vm_compute; reflexivity|].
  exists nd. split; [done|].
  destruct (reading_dict_holds_the_selected_rows _ _ _ _ _ _ _ E)
    as (Hleaf & _ & _).
  apply Hleaf.
  exists (RawStatement 3 8 "bb" None
            (Some (ReadingInfo 1 "pubmed" 10 101 "1.3.3-61059a-biores-"))),
    (ReadingInfo 1 "pubmed" 10 101 "1.3.3-61059a-biores-"), "reach".
  split; [|split; [reflexivity|]].
  - split_and!; [|reflexivity|reflexivity].
    simpl. apply elem_of_cons. right. apply elem_of_cons. right.
    apply elem_of_cons. by left.
  - unfold filed_at. split_and!; reflexivity.
Defined.

Lemma every_reading_statement_is_accounted_for_witness :
  exists nd stmts dsids bsids,
    get_reading_stmt_dict id (fun s _ => s) json_length three_reading_rows
      None false = Ok nd /\
    get_filtered_rdg_stmts first_member nd false None false
      = Ok (stmts, dsids, bsids) /\
    (inr 3%Z ∈ stmts \/ 3%Z ∈ dsids \/ 3%Z ∈ bsids).
Proof.
  destruct (nd ← get_reading_stmt_dict id (fun s _ => s) json_length
                   three_reading_rows None false;
            get_filtered_rdg_stmts first_member nd false None false)
    as [[[stmts dsids] bsids]|e] eqn:E; [|by vm_compute in E].
  apply bind_Ok in E as (nd & Hnd & E).
  exists nd, stmts, dsids, bsids. split; [done|]. split; [done|].
  apply (every_reading_statement_is_accounted_for _ _ _ _ _ _ _ _ _ _ _ _ _
           Hnd E
           (RawStatement 3 8 "bb" None
              (Some (ReadingInfo 1 "pubmed" 10 101 "1.3.3-61059a-biores-")))
           (ReadingInfo 1 "pubmed" 10 101 "1.3.3-61059a-biores-")).
  split_and!; [|reflexivity|reflexivity].
  simpl. apply elem_of_cons. right. apply elem_of_cons. right.
  apply elem_of_cons. by left.
Defined.

End ReadingFacts.
